(** * Node Guardian: shallow embedding of the health checker, event store,
    alert router, promise tracker, unawaited-promise detector and custom
    metrics registry (src/src/...), with the properties of the design. *)

From Stdlib Require Import String List Arith Lia ZArith QArith Bool Sorted Permutation.
From stdpp Require Import base gmap strings.
Import ListNotations.
Open Scope string_scope.
Open Scope nat_scope.
Set Warnings "-abstract-large-number".

(* ================================================================== *)
(** ** Shared helpers *)

(** [String.prototype.includes]: [needle] occurs somewhere in [hay]. *)
Fixpoint includes (hay needle : string) : bool :=
  if String.prefix needle hay then true
  else match hay with
       | EmptyString => false
       | String _ rest => includes rest needle
       end.

(** A JS [Map] with string keys as an insertion-ordered association list:
    [get] and [set] (which keeps the position of an existing key). *)
Fixpoint amap_get {V} (m : list (string * V)) (k : string) : option V :=
  match m with
  | [] => None
  | (k', v) :: rest => if String.eqb k k' then Some v else amap_get rest k
  end.

Fixpoint amap_set {V} (m : list (string * V)) (k : string) (v : V)
  : list (string * V) :=
  match m with
  | [] => [(k, v)]
  | (k', v') :: rest =>
      if String.eqb k k' then (k', v) :: rest else (k', v') :: amap_set rest k v
  end.

(** Decimal rendering of a number, as in a template literal [`${n}`]. *)
Fixpoint dec_digits (fuel n : nat) (acc : string) : string :=
  match fuel with
  | O => acc
  | S f =>
      let d := String (Ascii.ascii_of_nat (48 + n mod 10)) EmptyString in
      if n <? 10 then d ++ acc else dec_digits f (n / 10) (d ++ acc)
  end.

Definition nat_to_string (n : nat) : string := dec_digits (S n) n EmptyString.

Definition Z_to_string (z : Z) : string :=
  match z with
  | Z0 => "0"
  | Zpos p => dec_digits (S (Pos.size_nat p)) (Pos.to_nat p) EmptyString
  | Zneg p => "-" ++ dec_digits (S (Pos.size_nat p)) (Pos.to_nat p) EmptyString
  end.

(** The JS values an event's [data] payload holds, with JS truthiness. *)
Inductive JsVal := JUndef | JNum (z : Z) | JStr (s : string) | JBool (b : bool).

Definition truthy (v : JsVal) : bool :=
  match v with
  | JUndef => false
  | JNum z => negb (Z.eqb z 0)
  | JStr s => negb (String.eqb s EmptyString)
  | JBool b => b
  end.

(** [a || b] on JS values. *)
Definition js_or (a b : JsVal) : JsVal := if truthy a then a else b.

(** String conversion of a JS value inside a template literal. *)
Definition js_to_string (v : JsVal) : string :=
  match v with
  | JUndef => "undefined"
  | JNum z => Z_to_string z
  | JStr s => s
  | JBool b => if b then "true" else "false"
  end.

(** A data payload ([data: any]) as an object with string keys;
    a missing property reads as [undefined]. *)
Definition Data := list (string * JsVal).

Definition prop (d : Data) (k : string) : JsVal :=
  match amap_get d k with Some v => v | None => JUndef end.

(* ================================================================== *)
(** ** HealthChecker (src/src/utils/healthChecker.ts, lines 26-134) *)
Module Health.

Record MonitorHealth := {
  healthy : bool;
  lastCheck : Z;
  errors : nat
}.

Inductive Status := st_healthy | st_degraded | st_unhealthy.

Record HealthChecker := {
  startTime : Z;
  eventCount : nat;
  monitorHealth : list (string * MonitorHealth)
}.

Definition new_HealthChecker (now : Z) : HealthChecker :=
  {| startTime := now; eventCount := 0; monitorHealth := [] |}.

(** [recordMonitorCheck(monitorName, success)], [now] = [Date.now()]. *)
Definition recordMonitorCheck (hc : HealthChecker) (monitorName : string)
    (success : bool) (now : Z) : HealthChecker :=
  let current :=
    match amap_get (monitorHealth hc) monitorName with
    | Some h => h
    | None => {| healthy := true; lastCheck := 0; errors := 0 |}
    end in
  {| startTime := startTime hc; eventCount := eventCount hc;
     monitorHealth :=
       amap_set (monitorHealth hc) monitorName
         {| healthy := success; lastCheck := now;
            errors := if success then 0 else S (errors current) |} |}.

(** The [for ... of this.monitorHealth.entries()] loop with its [break]. *)
Fixpoint monitor_loop (ms : list (string * MonitorHealth)) (status : Status)
  : Status :=
  match ms with
  | [] => status
  | (_, h) :: rest =>
      if 10 <? errors h then st_unhealthy
      else if 3 <? errors h then monitor_loop rest st_degraded
      else monitor_loop rest status
  end.

Definition MiB : Z := 1048576.

(** The status computed by [getHealth()]; [heapUsed] is
    [process.memoryUsage().heapUsed] in bytes.  [memoryMB > 100] is
    [heapUsed / 1048576 > 100], i.e. [heapUsed > 100 * 1048576]. *)
Definition getHealth_status (hc : HealthChecker) (heapUsed : Z) : Status :=
  let status := monitor_loop (monitorHealth hc) st_healthy in
  let status := if (100 * MiB <? heapUsed)%Z then st_degraded else status in
  let status := if (200 * MiB <? heapUsed)%Z then st_unhealthy else status in
  status.

Record HealthStatus := {
  hs_status : Status;
  hs_uptime : Z;
  hs_monitors : list (string * MonitorHealth);
  hs_eventsProcessed : nat;
  hs_heapUsed : Z
}.

Definition getHealth (hc : HealthChecker) (heapUsed : Z) (now : Z)
  : HealthStatus :=
  {| hs_status := getHealth_status hc heapUsed;
     hs_uptime := (now - startTime hc)%Z;
     hs_monitors := monitorHealth hc;
     hs_eventsProcessed := eventCount hc;
     hs_heapUsed := heapUsed |}.

(** [isHealthy()]: [this.getHealth().status === 'healthy']. *)
Definition isHealthy (hc : HealthChecker) (heapUsed now : Z) : bool :=
  match hs_status (getHealth hc heapUsed now) with st_healthy => true | _ => false end.

(** Successive [recordMonitorCheck(name, success)] calls, each at its time. *)
Definition record_checks (hc : HealthChecker) (cs : list (string * bool * Z))
  : HealthChecker :=
  fold_left (fun hc '(n, ok, now) => recordMonitorCheck hc n ok now) cs hc.

(** [n] consecutive failed checks of one monitor. *)
Fixpoint fail_n (hc : HealthChecker) (name : string) (n : nat) (now : Z)
  : HealthChecker :=
  match n with
  | O => hc
  | S k => fail_n (recordMonitorCheck hc name false now) name k now
  end.

End Health.

(* ================================================================== *)
(** ** EventStore (src/src/collector/eventStore.ts) *)
Module Store.

Inductive EventType :=
  | EVENT_LOOP_STALL | MEMORY_LEAK | PROMISE_DEADLOCK | UNAWAITED_PROMISE
  | CPU_BLOCK | HANDLE_LEAK | ASYNC_RESOURCE_LEAK | SYSTEM_INFO.

Definition EventType_str (t : EventType) : string :=
  match t with
  | EVENT_LOOP_STALL => "EVENT_LOOP_STALL"
  | MEMORY_LEAK => "MEMORY_LEAK"
  | PROMISE_DEADLOCK => "PROMISE_DEADLOCK"
  | UNAWAITED_PROMISE => "UNAWAITED_PROMISE"
  | CPU_BLOCK => "CPU_BLOCK"
  | HANDLE_LEAK => "HANDLE_LEAK"
  | ASYNC_RESOURCE_LEAK => "ASYNC_RESOURCE_LEAK"
  | SYSTEM_INFO => "SYSTEM_INFO"
  end.

Inductive Severity := info | warning | error | critical.

Definition Severity_str (s : Severity) : string :=
  match s with
  | info => "info" | warning => "warning" | error => "error"
  | critical => "critical"
  end.

Record GuardianEvent := {
  id : string;
  type : EventType;
  timestamp : Z;
  severity : Severity;
  source : string;
  data : Data;
  stack : option string;
  file : option string;
  line : option Z;
  suggestion : option string
}.

Record EmitOptions := {
  o_severity : option Severity;
  o_stack : option string;
  o_file : option string;
  o_line : option Z;
  o_suggestion : option string
}.

Definition no_options : EmitOptions :=
  {| o_severity := None; o_stack := None; o_file := None; o_line := None;
     o_suggestion := None |}.

Definition inferSeverity (t : EventType) : Severity :=
  match t with
  | PROMISE_DEADLOCK | MEMORY_LEAK => critical
  | EVENT_LOOP_STALL | CPU_BLOCK | HANDLE_LEAK => error
  | UNAWAITED_PROMISE => warning
  | _ => info
  end.

(** [stack.split('\n')]. *)
Fixpoint split_lines (s : string) (cur : string) : list string :=
  match s with
  | EmptyString => [cur]
  | String c rest =>
      if Ascii.eqb c (Ascii.ascii_of_nat 10) then cur :: split_lines rest EmptyString
      else split_lines rest (cur ++ String c EmptyString)
  end.

Definition is_ws (c : Ascii.ascii) : bool :=
  let n := Ascii.nat_of_ascii c in
  (n =? 32) || ((9 <=? n) && (n <=? 13)).

Fixpoint trim_left (s : string) : string :=
  match s with
  | String c rest => if is_ws c then trim_left rest else s
  | EmptyString => EmptyString
  end.

Definition string_rev (s : string) : string :=
  String.string_of_list_ascii (rev (String.list_ascii_of_string s)).

(** [String.prototype.trim] on ASCII whitespace. *)
Definition trim (s : string) : string :=
  string_rev (trim_left (string_rev (trim_left s))).

Definition extractSource (stk : option string) : string :=
  match stk with
  | None | Some EmptyString => "unknown"
  | Some st =>
      let lines := split_lines st EmptyString in
      match find (fun l => includes l "at " && negb (includes l "node_modules")
                           && negb (includes l "node:internal")) lines with
      | Some l => trim l
      | None =>
          match nth_error lines 1 with
          | Some l => match trim l with EmptyString => "unknown" | t => t end
          | None => "unknown"
          end
      end
  end.

(** Node's [EventEmitter]: a listener either returns or throws. *)
Inductive Outcome := Returned | Threw.

Record Listener := {
  lid : nat;                          (* identity, for the call trace *)
  run : GuardianEvent -> Outcome
}.

(** [EventEmitter.emit(name, ev)]: the listeners registered under [name] are
    called synchronously in registration order; a throw leaves [emit] at
    once, so the later listeners are not called. Returns the ids of the
    listeners called and whether [emit] threw. *)
Fixpoint ee_emit (ls : list (string * Listener)) (name : string)
    (ev : GuardianEvent) : list nat * Outcome :=
  match ls with
  | [] => ([], Returned)
  | (n, l) :: rest =>
      if String.eqb n name then
        match run l ev with
        | Threw => ([lid l], Threw)
        | Returned =>
            let '(called, o) := ee_emit rest name ev in (lid l :: called, o)
        end
      else ee_emit rest name ev
  end.

Record EventStore := {
  events : list GuardianEvent;
  eventCounter : nat;
  listeners : list (string * Listener)   (* the [eventEmitter] *)
}.

Definition maxEvents : nat := 10000.

Definition empty_store : EventStore :=
  {| events := []; eventCounter := 0; listeners := [] |}.

(** [on(event, listener)]. *)
Definition on (st : EventStore) (name : string) (l : Listener) : EventStore :=
  {| events := events st; eventCounter := eventCounter st;
     listeners := app (listeners st) [(name, l)] |}.

(** [off(event, listener)]: Node's [removeListener] drops the most recent
    registration of [listener] under [event] (searching the listener array
    from its end); listeners compare by identity, [lid]. *)
Fixpoint remove_first (name : string) (l : Listener) (ls : list (string * Listener))
  : list (string * Listener) :=
  match ls with
  | [] => []
  | (n, l') :: rest =>
      if String.eqb n name && (lid l' =? lid l) then rest
      else (n, l') :: remove_first name l rest
  end.

Definition off (st : EventStore) (name : string) (l : Listener) : EventStore :=
  {| events := events st; eventCounter := eventCounter st;
     listeners := rev (remove_first name l (rev (listeners st))) |}.

(** [clear()]. *)
Definition clear (st : EventStore) : EventStore :=
  {| events := []; eventCounter := 0; listeners := listeners st |}.

Definition make_event (n : nat) (t : EventType) (d : Data) (o : EmitOptions)
    (now : Z) : GuardianEvent :=
  {| id := "evt_" ++ nat_to_string n;
     type := t;
     timestamp := now;
     severity := match o_severity o with Some s => s | None => inferSeverity t end;
     source := extractSource (o_stack o);
     data := d;
     stack := o_stack o;
     file := o_file o;
     line := o_line o;
     suggestion := o_suggestion o |}.

(** [this.events.push(event); if (length > maxEvents) this.events.shift()]. *)
Definition push_ring (evs : list GuardianEvent) (e : GuardianEvent)
  : list GuardianEvent :=
  let evs' := app evs [e] in
  if maxEvents <? length evs' then tl evs' else evs'.

(** [emit(type, data, options)] at time [now] ([Date.now()]): the new
    store, the listeners called and whether [emit] threw. *)
Definition emit (st : EventStore) (t : EventType) (d : Data) (o : EmitOptions)
    (now : Z) : EventStore * list nat * Outcome :=
  let n := S (eventCounter st) in
  let ev := make_event n t d o now in
  let st' := {| events := push_ring (events st) ev; eventCounter := n;
                listeners := listeners st |} in
  match ee_emit (listeners st) "event" ev with
  | (called, Threw) => (st', called, Threw)
  | (called, Returned) =>
      let '(called2, o2) := ee_emit (listeners st) (EventType_str t) ev in
      (st', app called called2, o2)
  end.

Definition emit_st (st : EventStore) (t : EventType) (d : Data)
    (o : EmitOptions) (now : Z) : EventStore :=
  fst (fst (emit st t d o now)).

(** The [filter] argument of [getEvents]. *)
Record EventFilter := {
  f_type : option EventType;
  f_severity : option string;
  f_since : option Z
}.

(** [getEvents(filter)]: [if (filter?.type)], [if (filter?.severity)] (an
    empty string is falsy, so no filtering), [if (filter?.since !== undefined)]. *)
Definition getEvents (st : EventStore) (flt : option EventFilter) : list GuardianEvent :=
  let filtered := events st in
  match flt with
  | None => filtered
  | Some f =>
      let filtered :=
        match f_type f with
        | Some t => List.filter (fun e => String.eqb (EventType_str (type e)) (EventType_str t)) filtered
        | None => filtered
        end in
      let filtered :=
        match f_severity f with
        | Some sv => if String.eqb sv EmptyString then filtered
                     else List.filter (fun e => String.eqb (Severity_str (severity e)) sv) filtered
        | None => filtered
        end in
      match f_since f with
      | Some since => List.filter (fun e => (since <=? timestamp e)%Z) filtered
      | None => filtered
      end
  end.

(** [getEventStats()]: the [forEach] over the retained events. *)
Definition bump (m : gmap string nat) (k : string) : gmap string nat :=
  <[k := match m !! k with Some c => S c | None => 1 end]> m.

Definition getEventStats (st : EventStore)
  : nat * gmap string nat * gmap string nat :=
  let '(byType, bySeverity) :=
    fold_left (fun '(bt, bs) e =>
                 (bump bt (EventType_str (type e)),
                  bump bs (Severity_str (severity e))))
              (events st) (∅, ∅) in
  (length (events st), byType, bySeverity).

End Store.

(* ================================================================== *)
(** ** AlertRouter (src/src/utils/healthChecker.ts, lines 145-232) *)
Module Router.
Import Store.

Record RateLimit := { maxPerMinute : nat; maxPerHour : nat }.

(** A handler's promise resolves ([Returned]) or rejects ([Threw]); its
    outcome may depend on the time and on the event. *)
Record AlertRoute := {
  r_name : string;
  r_filter : option (GuardianEvent -> bool);
  r_handler : Z -> GuardianEvent -> Outcome;
  r_enabled : bool;
  r_rateLimit : option RateLimit
}.

Record AlertRouter := {
  routes : list AlertRoute;
  alertCounts : gmap string (list Z * list Z);   (* perMinute, perHour *)
  deduplicationCache : gmap string Z
}.

Definition empty_router : AlertRouter :=
  {| routes := []; alertCounts := ∅; deduplicationCache := ∅ |}.

(** [addRoute(route)]: [enabled: route.enabled !== false]. *)
Definition addRoute (a : AlertRouter) (r : AlertRoute) (enabled : option bool)
  : AlertRouter :=
  {| routes := app (routes a)
       [{| r_name := r_name r; r_filter := r_filter r; r_handler := r_handler r;
           r_enabled := match enabled with Some false => false | _ => true end;
           r_rateLimit := r_rateLimit r |}];
     alertCounts := alertCounts a;
     deduplicationCache := deduplicationCache a |}.

Definition removeRoute (a : AlertRouter) (name : string) : AlertRouter :=
  {| routes := List.filter (fun r => negb (String.eqb (r_name r) name)) (routes a);
     alertCounts := alertCounts a;
     deduplicationCache := deduplicationCache a |}.

(** [getEventKey(event)]:
    [`${event.type}:${event.data.file || 'unknown'}:${event.data.line || 0}`]. *)
Definition getEventKey (e : GuardianEvent) : string :=
  EventType_str (type e) ++ ":" ++
  js_to_string (js_or (prop (data e) "file") (JStr "unknown")) ++ ":" ++
  js_to_string (js_or (prop (data e) "line") (JNum 0)).

(** [checkRateLimit(routeName, limit)] at time [now]. *)
Definition checkRateLimit (counts : gmap string (list Z * list Z))
    (routeName : string) (limit : RateLimit) (now : Z)
  : bool * gmap string (list Z * list Z) :=
  let '(pm, ph) := match counts !! routeName with
                   | Some c => c | None => ([], []) end in
  let pm := List.filter (fun t => (now - t <? 60000)%Z) pm in
  let ph := List.filter (fun t => (now - t <? 3600000)%Z) ph in
  if maxPerMinute limit <=? length pm then (false, counts)
  else if maxPerHour limit <=? length ph then (false, counts)
  else (true, <[routeName := (app pm [now], app ph [now])]> counts).

(** [checkRateLimit(routeName, limit)] on the shared [counts] object: when
    the route already has an entry, the assignments
    [counts.perMinute = counts.perMinute.filter(...)] (and [perHour]) write
    the trimmed lists into that entry before the limits are tested, so a
    refusal stores them too. *)
Definition checkRateLimit_shared (counts : gmap string (list Z * list Z))
    (routeName : string) (limit : RateLimit) (now : Z)
  : bool * gmap string (list Z * list Z) :=
  let entry := counts !! routeName in
  let '(pm, ph) := match entry with Some c => c | None => ([], []) end in
  let pm := List.filter (fun t => (now - t <? 60000)%Z) pm in
  let ph := List.filter (fun t => (now - t <? 3600000)%Z) ph in
  let counts := match entry with
                | Some _ => <[routeName := (pm, ph)]> counts
                | None => counts
                end in
  if maxPerMinute limit <=? length pm then (false, counts)
  else if maxPerHour limit <=? length ph then (false, counts)
  else (true, <[routeName := (app pm [now], app ph [now])]> counts).

(** The [for (const route of this.routes)] loop of [route()]: the counts
    and cache after the loop, and the names of the routes whose handler
    resolved. *)
Fixpoint dispatch (rs : list AlertRoute) (key : string) (e : GuardianEvent)
    (now : Z) (counts : gmap string (list Z * list Z)) (cache : gmap string Z)
  : gmap string (list Z * list Z) * gmap string Z * list string :=
  match rs with
  | [] => (counts, cache, [])
  | r :: rest =>
      if negb (r_enabled r) then dispatch rest key e now counts cache
      else if match r_filter r with Some f => negb (f e) | None => false end
      then dispatch rest key e now counts cache
      else
        let '(ok, counts') :=
          match r_rateLimit r with
          | Some lim => checkRateLimit counts (r_name r) lim now
          | None => (true, counts)
          end in
        if negb ok then dispatch rest key e now counts' cache
        else match r_handler r now e with
             | Returned =>
                 let '(c, ca, sent) :=
                   dispatch rest key e now counts' (<[key := now]> cache) in
                 (c, ca, r_name r :: sent)
             | Threw => dispatch rest key e now counts' cache
             end
  end.

(** [route(event)] at time [now], run to completion before the next call
    ([Date.now()] taken as [now] throughout the call). *)
Definition route (a : AlertRouter) (e : GuardianEvent) (now : Z)
  : AlertRouter * list string :=
  let key := getEventKey e in
  match deduplicationCache a !! key with
  | Some lastSent =>
      if negb (Z.eqb lastSent 0) && (now - lastSent <? 300000)%Z then (a, [])
      else
        let '(c, ca, sent) := dispatch (routes a) key e now (alertCounts a)
                                (deduplicationCache a) in
        ({| routes := routes a; alertCounts := c; deduplicationCache := ca |}, sent)
  | None =>
      let '(c, ca, sent) := dispatch (routes a) key e now (alertCounts a)
                              (deduplicationCache a) in
      ({| routes := routes a; alertCounts := c; deduplicationCache := ca |}, sent)
  end.

(** Operations on the router, one after another. *)
Inductive Step :=
  | SRoute (now : Z) (e : GuardianEvent)
  | SAdd (r : AlertRoute) (enabled : option bool)
  | SRemove (name : string).

(** A successful dispatch: call number, time, route name, event key. *)
Definition Entry : Type := nat * Z * string * string.

Fixpoint run (a : AlertRouter) (call : nat) (steps : list Step)
  : AlertRouter * list Entry :=
  match steps with
  | [] => (a, [])
  | SRoute now e :: rest =>
      let '(a', sent) := route a e now in
      let '(a'', log) := run a' (S call) rest in
      (a'', app (map (fun n => (call, now, n, getEventKey e)) sent) log)
  | SAdd r en :: rest => run (addRoute a r en) call rest
  | SRemove n :: rest => run (removeRoute a n) call rest
  end.

(** The clock: route calls happen at positive, non-decreasing times. *)
Fixpoint clock_ok (last : Z) (steps : list Step) : Prop :=
  match steps with
  | [] => True
  | SRoute now _ :: rest => (0 < now)%Z /\ (last <= now)%Z /\ clock_ok now rest
  | _ :: rest => clock_ok last rest
  end.

End Router.

(* ================================================================== *)
(** ** Stack parsing shared by the PromiseTracker and the
    UnawaitedPromiseDetector ([parseStack]) *)
Module StackParse.

Definition ch (n : nat) : Ascii.ascii := Ascii.ascii_of_nat n.
Definition is_digit (c : Ascii.ascii) : bool :=
  let n := Ascii.nat_of_ascii c in (48 <=? n) && (n <=? 57).

(** The characters after a ['('] up to the next [')'], if there is one. *)
Fixpoint upto_close (l : list Ascii.ascii) : option (list Ascii.ascii) :=
  match l with
  | [] => None
  | c :: rest =>
      if Ascii.eqb c (ch 41) then Some []
      else option_map (cons c) (upto_close rest)
  end.

(** Split a reversed list at its first [':']. *)
Fixpoint split_colon (l : list Ascii.ascii) : option (list Ascii.ascii * list Ascii.ascii) :=
  match l with
  | [] => None
  | c :: rest =>
      if Ascii.eqb c (ch 58) then Some ([], rest)
      else option_map (fun '(a, b) => (c :: a, b)) (split_colon rest)
  end.

(** [([^)]+):(\d+):\d+] against the text between ['('] and [')']: the
    greedy [[^)]+] leaves the last two colons to the digit groups. *)
Definition match_segment (seg : list Ascii.ascii)
  : option (list Ascii.ascii * list Ascii.ascii) :=
  match split_colon (rev seg) with
  | Some (d2, rest) =>
      if negb (forallb is_digit d2) || (length d2 =? 0) then None else
      match split_colon rest with
      | Some (d1, x) =>
          if negb (forallb is_digit d1) || (length d1 =? 0) || (length x =? 0)
          then None else Some (rev x, rev d1)
      | None => None
      end
  | None => None
  end.

(** [line.match(/\(([^)]+):(\d+):\d+\)/)]: the leftmost match, as
    ([match[1]], [match[2]]). *)
Fixpoint first_match (l : list Ascii.ascii)
  : option (list Ascii.ascii * list Ascii.ascii) :=
  match l with
  | [] => None
  | c :: rest =>
      match (if Ascii.eqb c (ch 40) then
               match upto_close rest with
               | Some seg => match_segment seg
               | None => None
               end
             else None) with
      | Some m => Some m
      | None => first_match rest
      end
  end.

Fixpoint digits_value (acc : Z) (l : list Ascii.ascii) : Z :=
  match l with
  | [] => acc
  | c :: rest =>
      digits_value (acc * 10 + Z.of_nat (Ascii.nat_of_ascii c - 48))%Z rest
  end.

(** [parseStack(stack)]: the first line whose match is outside [excluded]
    ([node_modules], [node:internal], and for the detector its own file). *)
Definition parseStack (excluded : list string) (stk : string)
  : option string * option Z :=
  let fix go (lines : list string) :=
    match lines with
    | [] => (None, None)
    | ln :: rest =>
        match first_match (String.list_ascii_of_string ln) with
        | Some (f, d) =>
            let f := String.string_of_list_ascii f in
            if existsb (includes f) excluded then go rest
            else (Some f, Some (digits_value 0 d))
        | None => go rest
        end
    end in
  go (Store.split_lines stk EmptyString).

(** The self-filter of both trackers: [file && (file.includes(...) || ...)]. *)
Definition guardian_markers : list string :=
  [ "/node-guardian/"; "/dist/core/"; "/dist/collector/"; "/dist/dashboard/";
    "/dist/instrumentation/"; "promiseTracker"; "eventLoopMonitor";
    "memoryMonitor"; "unawaitedPromiseDetector"; "eventStore" ].

Definition isGuardianInternal (file : option string) : bool :=
  match file with
  | None | Some EmptyString => false
  | Some f => existsb (includes f) guardian_markers
  end.

End StackParse.

(* ================================================================== *)
(** ** PromiseTracker (src/src/core/promiseTracker.ts) *)
Module Tracker.

Inductive PStatus := pending | resolved | rejected.

Record TrackedPromise := {
  asyncId : nat;
  ptype : string;
  triggerAsyncId : nat;
  createdAt : Z;
  pstack : string;
  status : PStatus;
  pfile : option string;
  pline : option Z
}.

(** [Map<number, TrackedPromise>] in insertion order. *)
Fixpoint nset {V} (m : list (nat * V)) (k : nat) (v : V) : list (nat * V) :=
  match m with
  | [] => [(k, v)]
  | (k', v') :: rest => if k =? k' then (k', v) :: rest else (k', v') :: nset rest k v
  end.

Fixpoint ndelete {V} (m : list (nat * V)) (k : nat) : list (nat * V) :=
  match m with
  | [] => []
  | (k', v') :: rest => if k =? k' then rest else (k', v') :: ndelete rest k
  end.

Fixpoint nget {V} (m : list (nat * V)) (k : nat) : option V :=
  match m with
  | [] => None
  | (k', v') :: rest => if k =? k' then Some v' else nget rest k
  end.

Record PromiseTracker := {
  maxTrackedPromises : nat;
  deadlockThreshold : Z;
  promises : list (nat * TrackedPromise)
}.

Definition new_tracker (maxTracked : nat) : PromiseTracker :=
  {| maxTrackedPromises := maxTracked; deadlockThreshold := 30000;
     promises := [] |}.

Definition is_pending (p : TrackedPromise) : bool :=
  match status p with pending => true | _ => false end.

(** [.sort((a, b) => a[1].createdAt - b[1].createdAt)], a stable sort. *)
Fixpoint insert_by_created (x : nat * TrackedPromise) (l : list (nat * TrackedPromise))
  : list (nat * TrackedPromise) :=
  match l with
  | [] => [x]
  | y :: ys => if (createdAt (snd x) <? createdAt (snd y))%Z then x :: y :: ys
               else y :: insert_by_created x ys
  end.

Definition sort_by_created (l : list (nat * TrackedPromise))
  : list (nat * TrackedPromise) :=
  fold_left (fun acc x => insert_by_created x acc) l [].

(** [cleanupOldPromises()]: delete the oldest [Math.floor(n * 0.2)] of the
    [n] non-pending entries. *)
Definition cleanupOldPromises (m : list (nat * TrackedPromise))
  : list (nat * TrackedPromise) :=
  let sorted := sort_by_created (List.filter (fun kv => negb (is_pending (snd kv))) m) in
  let toRemove := length sorted / 5 in
  fold_left (fun acc kv => ndelete acc (fst kv)) (firstn toRemove sorted) m.

Definition parse := StackParse.parseStack ["node_modules"; "node:internal"].

(** [onInit(asyncId, type, triggerAsyncId)] with [stack = new Error().stack]
    and [Date.now() = now]. *)
Definition onInit (t : PromiseTracker) (aid : nat) (ty : string) (trig : nat)
    (stk : string) (now : Z) : PromiseTracker :=
  if negb (String.eqb ty "PROMISE") then t else
  let '(file, line) := parse stk in
  if StackParse.isGuardianInternal file then t else
  let m := if maxTrackedPromises t <=? length (promises t)
           then cleanupOldPromises (promises t) else promises t in
  {| maxTrackedPromises := maxTrackedPromises t;
     deadlockThreshold := deadlockThreshold t;
     promises := nset m aid
       {| asyncId := aid; ptype := ty; triggerAsyncId := trig; createdAt := now;
          pstack := stk; status := pending; pfile := file; pline := line |} |}.

Definition with_promises (t : PromiseTracker) (m : list (nat * TrackedPromise))
  : PromiseTracker :=
  {| maxTrackedPromises := maxTrackedPromises t;
     deadlockThreshold := deadlockThreshold t; promises := m |}.

Definition set_status (p : TrackedPromise) (s : PStatus) : TrackedPromise :=
  {| asyncId := asyncId p; ptype := ptype p; triggerAsyncId := triggerAsyncId p;
     createdAt := createdAt p; pstack := pstack p; status := s;
     pfile := pfile p; pline := pline p |}.

(** [onDestroy(asyncId)]: a pending entry becomes resolved (its deletion
    one minute later is the step [TDelete]). *)
Definition onDestroy (t : PromiseTracker) (aid : nat) : PromiseTracker :=
  match nget (promises t) aid with
  | Some p => if is_pending p then with_promises t (nset (promises t) aid (set_status p resolved))
              else t
  | None => t
  end.

(** The [for (const promise of pending)] loop of [checkForDeadlocks()],
    over the pending entries sorted by [createdAt] (each with its key, the
    object being the map's value under that key). An entry older than the
    threshold that [this.promises.get(promise.asyncId)] does not show as
    already settled is reported with [eventStore.emit] and then marked
    rejected. [emit_ok p] is whether that [emit] returns; when it throws
    (a listener threw), the exception leaves the loop before
    [promise.status = 'rejected'] and is caught by the interval's
    try/catch: this entry and the later ones stay as they are. *)
Fixpoint deadlock_loop (emit_ok : TrackedPromise -> bool) (thr now : Z)
    (pend : list (nat * TrackedPromise)) (m : list (nat * TrackedPromise))
  : list (nat * TrackedPromise) :=
  match pend with
  | [] => m
  | (k, p) :: rest =>
      if (thr <? now - createdAt p)%Z then
        let report :=
          if emit_ok p
          then deadlock_loop emit_ok thr now rest (nset m k (set_status p rejected))
          else m in
        match nget m (asyncId p) with
        | Some q => if negb (is_pending q) then deadlock_loop emit_ok thr now rest m
                    else report
        | None => report
        end
      else deadlock_loop emit_ok thr now rest m
  end.

(** [checkForDeadlocks()] at [Date.now() = now]; [pending] is
    [getPendingPromises()]. *)
Definition checkForDeadlocks (emit_ok : TrackedPromise -> bool) (t : PromiseTracker)
    (now : Z) : PromiseTracker :=
  with_promises t
    (deadlock_loop emit_ok (deadlockThreshold t) now
       (sort_by_created (List.filter (fun kv => is_pending (snd kv)) (promises t)))
       (promises t)).

(** [getPendingPromises()]: the pending values sorted by [createdAt]
    (a stable sort of the entries by their value's [createdAt], then the
    values). *)
Definition getPendingPromises (t : PromiseTracker) : list TrackedPromise :=
  map snd (sort_by_created (List.filter (fun kv => is_pending (snd kv)) (promises t))).

Record TrackerStats := {
  total : nat;
  pendingN : nat;
  oldestPending : Z;
  suspiciousCount : nat
}.

(** [getStats()] at [Date.now() = now], without [deadlockCount] (the count
    of reports, which this model of the map does not keep).
    [now - p.createdAt > deadlockThreshold / 2] is
    [2 * (now - p.createdAt) > deadlockThreshold]. *)
Definition getStats (t : PromiseTracker) (now : Z) : TrackerStats :=
  let pending := getPendingPromises t in
  {| total := length (promises t);
     pendingN := length pending;
     oldestPending := match pending with
                      | p :: _ => (now - createdAt p)%Z
                      | [] => 0%Z
                      end;
     suspiciousCount :=
       length (List.filter (fun p => (deadlockThreshold t <? 2 * (now - createdAt p))%Z)
                 pending) |}.

(** [findRelatedPromises(promise)]: the inner [traverse(p, depth)] over a
    [visited] set and the [related] array, as a pair threaded through the
    calls; [vals] is [this.promises.values()]. [fuel] is [11 - depth], so
    it runs out exactly where [depth > 10] returns. *)
Fixpoint traverse (vals : list TrackedPromise) (fuel depth : nat) (p : TrackedPromise)
    (st : list nat * list TrackedPromise) : list nat * list TrackedPromise :=
  match fuel with
  | O => st
  | S fuel' =>
      if (10 <? depth) || existsb (Nat.eqb (asyncId p)) (fst st) then st else
      fold_left
        (fun st other =>
           if (triggerAsyncId other =? asyncId p) && is_pending other
           then traverse vals fuel' (S depth) other (fst st, app (snd st) [other])
           else st)
        vals (asyncId p :: fst st, snd st)
  end.

Definition findRelatedPromises (m : list (nat * TrackedPromise)) (promise : TrackedPromise)
  : list TrackedPromise :=
  snd (traverse (map snd m) 11 0 promise ([], [])).

(** [hasCircle(current)] of [detectCircularWait], returning the shared
    [visited] set with its result. Every call but the first is on a map
    value whose id is not yet in [visited], so the fuel [length m + 2]
    that [detectCircularWait] gives is never exhausted. *)
Fixpoint hasCircle (m : list (nat * TrackedPromise)) (promise : TrackedPromise)
    (fuel : nat) (current : TrackedPromise) (visited : list nat) : bool * list nat :=
  match fuel with
  | O => (false, visited)
  | S fuel' =>
      if (asyncId current =? asyncId promise) && negb (length visited =? 0)
      then (true, visited)
      else if existsb (Nat.eqb (asyncId current)) visited then (false, visited)
      else
        let visited := asyncId current :: visited in
        match nget m (triggerAsyncId current) with
        | Some trigger =>
            if is_pending trigger then hasCircle m promise fuel' trigger visited
            else (false, visited)
        | None => (false, visited)
        end
  end.

(** [detectCircularWait(promise, related)]: [related.some(r => hasCircle(r))]
    with one [visited] set for all of [related]. *)
Definition detectCircularWait (m : list (nat * TrackedPromise)) (promise : TrackedPromise)
    (related : list TrackedPromise) : bool :=
  let fix some (rs : list TrackedPromise) (visited : list nat) : bool :=
    match rs with
    | [] => false
    | r :: rest =>
        let '(b, visited) := hasCircle m promise (length m + 2) r visited in
        if b then true else some rest visited
    end in
  some related [].

Inductive TStep :=
  | TInit (aid : nat) (ty : string) (trig : nat) (stk : string) (now : Z)
  | TDestroy (aid : nat)
  | TDelete (aid : nat)             (* the 60 s [setTimeout] of [onDestroy] *)
  | TCheck (now : Z) (emit_ok : TrackedPromise -> bool)   (* the interval *)
  | TStop.

Definition tstep (t : PromiseTracker) (s : TStep) : PromiseTracker :=
  match s with
  | TInit aid ty trig stk now => onInit t aid ty trig stk now
  | TDestroy aid => onDestroy t aid
  | TDelete aid => with_promises t (ndelete (promises t) aid)
  | TCheck now emit_ok => checkForDeadlocks emit_ok t now
  | TStop => with_promises t []
  end.

Definition truns (t : PromiseTracker) (ss : list TStep) : PromiseTracker :=
  fold_left tstep ss t.

End Tracker.

(* ================================================================== *)
(** ** UnawaitedPromiseDetector (src/src/instrumentation/unawaitedPromiseDetector.ts) *)
Module Detector.

Record TrackedPromiseCreation := {
  cid : nat;
  cstack : string;
  ccreatedAt : Z;
  cfile : option string;
  cline : option Z;
  isAwaited : bool
}.

Record UnawaitedPromiseDetector := {
  warningThreshold : Z;
  promiseCounter : nat;
  trackedPromises : list (nat * TrackedPromiseCreation)
}.

Definition new_detector : UnawaitedPromiseDetector :=
  {| warningThreshold := 5000; promiseCounter := 0; trackedPromises := [] |}.

Definition parse :=
  StackParse.parseStack ["node_modules"; "node:internal"; "unawaitedPromiseDetector"].

Definition with_tracked (d : UnawaitedPromiseDetector)
    (m : list (nat * TrackedPromiseCreation)) : UnawaitedPromiseDetector :=
  {| warningThreshold := warningThreshold d; promiseCounter := promiseCounter d;
     trackedPromises := m |}.

(** The wrapped [then]/[catch]/[finally] of promise [i]: [tracked.isAwaited = true]
    when [this.trackedPromises.get(i)] is there. *)
Definition mark_awaited (d : UnawaitedPromiseDetector) (i : nat)
  : UnawaitedPromiseDetector :=
  match Tracker.nget (trackedPromises d) i with
  | Some c => with_tracked d (Tracker.nset (trackedPromises d) i
                {| cid := cid c; cstack := cstack c; ccreatedAt := ccreatedAt c;
                   cfile := cfile c; cline := cline c; isAwaited := true |})
  | None => d
  end.

(** The patched constructor [GuardianPromise(executor)] with
    [stack = new Error().stack] and [Date.now() = now]: the entry is set
    with [isAwaited: false], [then], [catch] and [finally] are wrapped, and
    the constructor's own [promise.then(() => cleanupPromise(id), ...)]
    then goes through the wrapped [then], which marks the entry. *)
Definition construct (d : UnawaitedPromiseDetector) (stk : string) (now : Z)
  : UnawaitedPromiseDetector :=
  let '(file, line) := parse stk in
  if StackParse.isGuardianInternal file then d else
  let i := S (promiseCounter d) in
  let d1 :=
    {| warningThreshold := warningThreshold d; promiseCounter := i;
       trackedPromises := Tracker.nset (trackedPromises d) i
         {| cid := i; cstack := stk; ccreatedAt := now; cfile := file;
            cline := line; isAwaited := false |} |} in
  mark_awaited d1 i.

(** The [for (const [id, tracked] of this.trackedPromises)] loop of
    [checkUnawaitedPromises()]: an unawaited entry older than the threshold
    is reported with [eventStore.emit] and then deleted (deleting the
    current entry does not disturb the iteration). [emit_ok id tracked] is
    whether that [emit] returns; when it throws (a listener threw), the
    exception leaves the loop and the interval callback before the delete,
    so this entry and the later ones stay. *)
Fixpoint check_loop (emit_ok : nat -> TrackedPromiseCreation -> bool) (thr now : Z)
    (es : list (nat * TrackedPromiseCreation)) : list (nat * TrackedPromiseCreation) :=
  match es with
  | [] => []
  | (id, c) :: rest =>
      if isAwaited c then (id, c) :: check_loop emit_ok thr now rest
      else if (thr <? now - ccreatedAt c)%Z then
        if emit_ok id c then check_loop emit_ok thr now rest else es
      else (id, c) :: check_loop emit_ok thr now rest
  end.

(** [checkUnawaitedPromises()] at [Date.now() = now]. *)
Definition checkUnawaitedPromises (emit_ok : nat -> TrackedPromiseCreation -> bool)
    (d : UnawaitedPromiseDetector) (now : Z) : UnawaitedPromiseDetector :=
  with_tracked d (check_loop emit_ok (warningThreshold d) now (trackedPromises d)).

Record DetectorStats := {
  dtotal : nat;
  unawaited : nat;
  suspicious : nat
}.

(** [getStats()] at [Date.now() = now]. *)
Definition getStats (d : UnawaitedPromiseDetector) (now : Z) : DetectorStats :=
  let promises := map snd (trackedPromises d) in
  {| dtotal := length promises;
     unawaited := length (List.filter (fun p => negb (isAwaited p)) promises);
     suspicious := length (List.filter
       (fun p => negb (isAwaited p) && (warningThreshold d <? now - ccreatedAt p)%Z) promises) |}.

Inductive DStep :=
  | DCreate (stk : string) (now : Z)
  | DAwait (i : nat)
  | DCheck (now : Z) (emit_ok : nat -> TrackedPromiseCreation -> bool)   (* the interval *)
  | DDelete (i : nat)               (* the [setTimeout] of [cleanupPromise] *)
  | DStop.

Definition dstep (d : UnawaitedPromiseDetector) (s : DStep) : UnawaitedPromiseDetector :=
  match s with
  | DCreate stk now => construct d stk now
  | DAwait i => mark_awaited d i
  | DCheck now emit_ok => checkUnawaitedPromises emit_ok d now
  | DDelete i => with_tracked d (Tracker.ndelete (trackedPromises d) i)
  | DStop => with_tracked d []
  end.

Definition druns (d : UnawaitedPromiseDetector) (ss : list DStep)
  : UnawaitedPromiseDetector :=
  fold_left dstep ss d.

End Detector.

(* ================================================================== *)
(** ** CustomMetrics (src/src/utils/customMetrics.ts); numbers as [Z] *)
Module Metrics.

Definition Labels := list (string * string).   (* [Object.entries(labels)] *)

(** Stable sort of label entries by name ([localeCompare] is taken as the
    code-unit order of the names). *)
Fixpoint insert_label (x : string * string) (l : Labels) : Labels :=
  match l with
  | [] => [x]
  | y :: ys => if String.ltb (fst x) (fst y) then x :: y :: ys
               else y :: insert_label x ys
  end.

Fixpoint join (sep : string) (l : list string) : string :=
  match l with
  | [] => EmptyString
  | [s] => s
  | s :: rest => s ++ sep ++ join sep rest
  end.

Definition dq : string := String (Ascii.ascii_of_nat 34) EmptyString.

(** [getKey(name, labels)]. *)
Definition getKey (name : string) (labels : option Labels) : string :=
  match labels with
  | None | Some [] => name
  | Some ls =>
      let sorted := fold_left (fun acc x => insert_label x acc) ls [] in
      name ++ "{" ++
        join "," (map (fun '(k, v) => k ++ "=" ++ dq ++ v ++ dq) sorted) ++ "}"
  end.

(** [s.split(c)] on a list of characters: [[""]] for the empty string. *)
Fixpoint split_on (c : Ascii.ascii) (l : list Ascii.ascii) : list (list Ascii.ascii) :=
  match l with
  | [] => [[]]
  | x :: rest =>
      if Ascii.eqb x c then [] :: split_on c rest
      else match split_on c rest with
           | h :: t => (x :: h) :: t
           | [] => [[x]]
           end
  end.

(** A line terminator, which the regular expression's [.] does not match
    ([\n] and [\r]; the strings are ASCII). *)
Definition is_line_term (c : Ascii.ascii) : bool :=
  Ascii.eqb c (Ascii.ascii_of_nat 10) || Ascii.eqb c (Ascii.ascii_of_nat 13).

(** The characters before the first ['{'], and the rest. *)
Fixpoint split_brace (l : list Ascii.ascii) : list Ascii.ascii * list Ascii.ascii :=
  match l with
  | [] => ([], [])
  | x :: rest =>
      if Ascii.eqb x (Ascii.ascii_of_nat 123) then ([], l)
      else let '(a, b) := split_brace rest in (x :: a, b)
  end.

(** [v.replace(/^"|"$/g, '')]: one leading and one trailing quote go; a
    lone quote is the leading one. *)
Definition strip_quotes (v : list Ascii.ascii) : list Ascii.ascii :=
  let v := match v with
           | q :: rest => if Ascii.eqb q (Ascii.ascii_of_nat 34) then rest else v
           | [] => []
           end in
  match rev v with
  | q :: rrest => if Ascii.eqb q (Ascii.ascii_of_nat 34) then rev rrest else v
  | [] => v
  end.

(** The [for (const pair of labelPairs)] loop: [const [k, v] = pair.split('=')]
    and [labels[k] = v.replace(...)]; [None] is the [TypeError] of
    [v.replace] when a pair has no ['=']. The labels are the list of the
    assignments made, in order. *)
Fixpoint parse_pairs (ps : list (list Ascii.ascii)) : option Labels :=
  match ps with
  | [] => Some []
  | p :: rest =>
      match split_on (Ascii.ascii_of_nat 61) p with
      | k :: v :: _ =>
          option_map (cons (String.string_of_list_ascii k,
                            String.string_of_list_ascii (strip_quotes v)))
                     (parse_pairs rest)
      | _ => None
      end
  end.

(** [parseKey(key)]; [None] when it throws. [key.match(/^([^{]+)(\{(.+)\})?$/)]:
    [[^{]+] takes the text before the first ['{'] (at least one
    character); the optional group then has to reach the end, so it
    matches exactly when the rest is ['{'], a non-empty run without line
    terminators and a final ['}']; otherwise (and when there is no text
    before the first ['{']) only a key without ['{'] matches. *)
Definition parseKey (key : string) : option (string * option Labels) :=
  let '(pre, rest) := split_brace (String.list_ascii_of_string key) in
  match pre with
  | [] => Some (key, None)
  | _ =>
      match rest with
      | [] => Some (key, None)
      | _ :: body =>
          match rev body with
          | c :: rmid =>
              if Ascii.eqb c (Ascii.ascii_of_nat 125) && negb (length rmid =? 0)
                 && negb (existsb is_line_term rmid)
              then
                match parse_pairs (split_on (Ascii.ascii_of_nat 44) (rev rmid)) with
                | Some ls => Some (String.string_of_list_ascii pre, Some ls)
                | None => None
                end
              else Some (key, None)
          | [] => Some (key, None)
          end
      end
  end.

Record CustomMetrics := {
  counters : gmap string Z;
  gauges : gmap string Z;
  histograms : gmap string (list Z);
  labelsMap : gmap string Labels
}.

Definition empty_metrics : CustomMetrics :=
  {| counters := ∅; gauges := ∅; histograms := ∅; labelsMap := ∅ |}.

Definition set_labels (m : gmap string Labels) (key : string) (labels : option Labels)
  : gmap string Labels :=
  match labels with Some l => <[key := l]> m | None => m end.

(** [incrementCounter(name, value = 1, labels)]; [value = None] is the
    default argument. *)
Definition incrementCounter (cm : CustomMetrics) (name : string)
    (value : option Z) (labels : option Labels) : CustomMetrics :=
  let key := getKey name labels in
  let current := match counters cm !! key with Some c => c | None => 0%Z end in
  let v := match value with Some v => v | None => 1%Z end in
  {| counters := <[key := (current + v)%Z]> (counters cm);
     gauges := gauges cm; histograms := histograms cm;
     labelsMap := set_labels (labelsMap cm) key labels |}.


(** [recordHistogram(name, value, labels)]: keep the last 1000 values. *)
Definition recordHistogram (cm : CustomMetrics) (name : string) (value : Z)
    (labels : option Labels) : CustomMetrics :=
  let key := getKey name labels in
  let values := match histograms cm !! key with Some v => v | None => [] end in
  let values := app values [value] in
  let values := if 1000 <? length values then tl values else values in
  {| counters := counters cm; gauges := gauges cm;
     histograms := <[key := values]> (histograms cm);
     labelsMap := set_labels (labelsMap cm) key labels |}.

Fixpoint insert_num (x : Z) (l : list Z) : list Z :=
  match l with
  | [] => [x]
  | y :: ys => if (x <? y)%Z then x :: y :: ys else y :: insert_num x ys
  end.

(** [[...values].sort((a, b) => a - b)]. *)
Definition sort_num (l : list Z) : list Z := fold_left (fun acc x => insert_num x acc) l [].

Record HistogramStats := {
  count : nat; sum : Z; avg : Q; min : Z; max : Z; p50 : Z; p95 : Z; p99 : Z
}.

(** [getHistogramStats(name, labels)]. [sorted[Math.floor(n * 0.95)]] is
    written [n * 95 / 100]: the two agree for every length the
    1000-value ring admits; the index is below [n], so the default of
    [nth] is never read. *)
Definition getHistogramStats (cm : CustomMetrics) (name : string)
    (labels : option Labels) : option HistogramStats :=
  match histograms cm !! getKey name labels with
  | None | Some [] => None
  | Some values =>
      let sorted := sort_num values in
      let n := length sorted in
      let s := fold_left Z.add sorted 0%Z in
      Some {| count := n; sum := s; avg := Qmake s (Pos.of_nat n);
              min := nth 0 sorted 0%Z; max := nth (n - 1) sorted 0%Z;
              p50 := nth (n * 50 / 100) sorted 0%Z;
              p95 := nth (n * 95 / 100) sorted 0%Z;
              p99 := nth (n * 99 / 100) sorted 0%Z |}
  end.

(** [setGauge(name, value, labels)]. *)
Definition setGauge (cm : CustomMetrics) (name : string) (value : Z)
    (labels : option Labels) : CustomMetrics :=
  let key := getKey name labels in
  {| counters := counters cm; gauges := <[key := value]> (gauges cm);
     histograms := histograms cm;
     labelsMap := set_labels (labelsMap cm) key labels |}.

(** [getGauge(name, labels)]: [this.gauges.get(key) || 0]. *)
Definition getGauge (cm : CustomMetrics) (name : string) (labels : option Labels) : Z :=
  match gauges cm !! getKey name labels with Some g => g | None => 0%Z end.

(** [clear()]. *)
Definition clear (cm : CustomMetrics) : CustomMetrics := empty_metrics.

(** The mutating calls of the registry. *)
Inductive MStep :=
| MInc (name : string) (value : option Z) (labels : option Labels)
| MGauge (name : string) (value : Z) (labels : option Labels)
| MHist (name : string) (value : Z) (labels : option Labels)
| MClear.

Definition mstep (cm : CustomMetrics) (s : MStep) : CustomMetrics :=
  match s with
  | MInc n v l => incrementCounter cm n v l
  | MGauge n v l => setGauge cm n v l
  | MHist n v l => recordHistogram cm n v l
  | MClear => clear cm
  end.

Definition mrun (cm : CustomMetrics) (ss : list MStep) : CustomMetrics :=
  fold_left mstep ss cm.

End Metrics.

(* ================================================================== *)
(** ** Auxiliary notions for the properties *)
Module Aux.
Import Store.

(** The listeners registered under [name], in registration order. *)
Definition listeners_for (ls : list (string * Listener)) (name : string)
  : list Listener :=
  map snd (List.filter (fun p => String.eqb (fst p) name) ls).

(** The listeners up to and including the first one that throws. *)
Fixpoint upto_throw (ev : GuardianEvent) (ls : list Listener) : list Listener :=
  match ls with
  | [] => []
  | l :: rest => match run l ev with
                 | Threw => [l]
                 | Returned => l :: upto_throw ev rest
                 end
  end.

Definition throws_any (ev : GuardianEvent) (ls : list Listener) : bool :=
  existsb (fun l => match run l ev with Threw => true | Returned => false end) ls.

(** The last [n] elements of a list. *)
Definition lastn {A} (n : nat) (l : list A) : list A := skipn (length l - n) l.

(** Operations on the store, one after another; the events emitted. *)
Inductive SStep :=
  | SEmit (t : EventType) (d : Data) (o : EmitOptions) (now : Z)
  | SOn (name : string) (l : Listener)
  | SClear.

Fixpoint srun (st : EventStore) (ss : list SStep) : EventStore * list GuardianEvent :=
  match ss with
  | [] => (st, [])
  | SEmit t d o now :: rest =>
      let ev := make_event (S (eventCounter st)) t d o now in
      let '(st', evs) := srun (emit_st st t d o now) rest in (st', ev :: evs)
  | SOn n l :: rest => srun (on st n l) rest
  | SClear :: rest => srun (clear st) rest
  end.

Definition not_clear (s : SStep) : Prop :=
  match s with SClear => False | _ => True end.

Definition n_emits (ss : list SStep) : nat :=
  length (List.filter (fun s => match s with SEmit _ _ _ _ => true | _ => false end) ss).

(** Number of events whose [key] is [k]. *)
Definition cnt (key : GuardianEvent -> string) (k : string) (evs : list GuardianEvent)
  : nat := length (List.filter (fun e => String.eqb (key e) k) evs).

Definition as_count (c : nat) : option nat := if c =? 0 then None else Some c.

End Aux.

(** Listeners and counts used by the properties. *)
Definition thrower : Store.Listener := {| Store.lid := 1; Store.run := fun _ => Store.Threw |}.
Definition quiet : Store.Listener := {| Store.lid := 2; Store.run := fun _ => Store.Returned |}.
Definition add_count (o : option nat) (c : nat) : option nat :=
  match o with Some x => Some (x + c) | None => Aux.as_count c end.
Definition cache_inv (a : Router.AlertRouter) (last : Z) : Prop :=
  forall k t, Router.deduplicationCache a !! k = Some t -> (0 < t <= last)%Z.

(** An alert route that forwards every event and always succeeds. *)
Definition ops_route : Router.AlertRoute :=
  {| Router.r_name := "ops"; Router.r_filter := None;
     Router.r_handler := fun _ _ => Store.Returned;
     Router.r_enabled := true; Router.r_rateLimit := None |}.

Definition at_a_ts : Store.EmitOptions :=
  {| Store.o_severity := None; Store.o_stack := None;
     Store.o_file := Some "/app/src/a.ts"; Store.o_line := Some 7%Z;
     Store.o_suggestion := None |}.

(** Two deadlock events located at /app/src/a.ts:7, one repeating the
    location in its data payload, one not. *)
Definition ev_a : Store.GuardianEvent :=
  Store.make_event 1 Store.PROMISE_DEADLOCK
    [("file", JStr "/app/src/a.ts"); ("line", JNum 7)] at_a_ts 1000.
Definition ev_b : Store.GuardianEvent :=
  Store.make_event 2 Store.PROMISE_DEADLOCK [] at_a_ts 2000.
Definition ev_c : Store.GuardianEvent :=
  Store.make_event 3 Store.MEMORY_LEAK [] Store.no_options 1000000.

Definition nl : string := String (Ascii.ascii_of_nat 10) EmptyString.

(** The stack of a promise created by application code. *)
Definition user_stack : string :=
  "Error" ++ nl ++ "    at handler (/app/src/server.ts:10:3)".

(** [n] promises created by application code, async ids [1..n]. *)
Definition user_inits (n : nat) : list Tracker.TStep :=
  map (fun i => Tracker.TInit i "PROMISE" 0 user_stack 0) (seq 1 n).

(** Entries of both trackers: the file recorded is the one parsed from the
    creation stack, and it is not the monitor's own. *)
Definition tracker_ok (t : Tracker.PromiseTracker) : Prop :=
  List.NoDup (map fst (Tracker.promises t)) /\
  forall kv, In kv (Tracker.promises t) ->
    Tracker.pfile (snd kv) = fst (Tracker.parse (Tracker.pstack (snd kv))) /\
    StackParse.isGuardianInternal (Tracker.pfile (snd kv)) = false.

Definition detector_ok (d : Detector.UnawaitedPromiseDetector) : Prop :=
  List.NoDup (map fst (Detector.trackedPromises d)) /\
  forall kv, In kv (Detector.trackedPromises d) ->
    Detector.cfile (snd kv) = fst (Detector.parse (Detector.cstack (snd kv))) /\
    StackParse.isGuardianInternal (Detector.cfile (snd kv)) = false.

(** Deleting the keys of [L] one by one, as [cleanupOldPromises] does. *)
Definition delete_all {V} (L : list (nat * V)) (m : list (nat * V)) : list (nat * V) :=
  fold_left (fun acc kv => Tracker.ndelete acc (fst kv)) L m.



Definition is_clear (s : Metrics.MStep) : bool :=
  match s with Metrics.MClear => true | _ => false end.


(** The values 1..100 recorded in order into histogram ["h"]. *)
Definition hist_1_100 : Metrics.CustomMetrics :=
  fold_left (fun cm v => Metrics.recordHistogram cm "h" v None)
    (map Z.of_nat (seq 1 100)) Metrics.empty_metrics.

(* ================================================================== *)
(** Notions used by the further properties of the code. *)

(** The outcomes and times of the checks of monitor [name], in order. *)
Definition outcomes_of (name : string) (cs : list (string * bool * Z)) : list bool :=
  map (fun '(_, ok, _) => ok) (List.filter (fun '(n, _, _) => String.eqb n name) cs).
Definition times_of (name : string) (cs : list (string * bool * Z)) : list Z :=
  map (fun '(_, _, t) => t) (List.filter (fun '(n, _, _) => String.eqb n name) cs).

(** The number of failures at the end of a sequence of outcomes. *)
Fixpoint lead_false (bs : list bool) : nat :=
  match bs with false :: r => S (lead_false r) | _ => 0 end.
Definition trailing_failures (bs : list bool) : nat := lead_false (rev bs).

(** Store operations whose emissions come at non-decreasing times. *)
Fixpoint emit_times_ok (last : Z) (ss : list Aux.SStep) : Prop :=
  match ss with
  | [] => True
  | Aux.SEmit _ _ _ now :: rest => (last <= now)%Z /\ emit_times_ok now rest
  | _ :: rest => emit_times_ok last rest
  end.

Definition since_filter (since : Z) : Store.EventFilter :=
  {| Store.f_type := None; Store.f_severity := None; Store.f_since := Some since |}.

(** Successive rate-limit checks of one route at the times [ts]: each
    time with the answer. *)
Fixpoint rl_run (counts : gmap string (list Z * list Z)) (name : string)
    (lim : Router.RateLimit) (ts : list Z) : list (Z * bool) :=
  match ts with
  | [] => []
  | t :: rest =>
      let '(ok, counts') := Router.checkRateLimit_shared counts name lim t in
      (t, ok) :: rl_run counts' name lim rest
  end.

(** Accepted checks at a time in the window [(w - width, w]]. *)
Definition in_window (width w s : Z) : bool := (w - width <? s)%Z && (s <=? w)%Z.
Definition successes_in (width w : Z) (R : list (Z * bool)) : nat :=
  length (List.filter (fun '(s, b) => b && in_window width w s) R).

(** A tracker step that (re)initialises the entry of [k]. *)
Definition reinit (k : nat) (s : Tracker.TStep) : bool :=
  match s with Tracker.TInit aid _ _ _ _ => aid =? k | _ => false end.

(** A detector step that deletes the entry of [i]. *)
Definition drops (i : nat) (s : Detector.DStep) : bool :=
  match s with Detector.DDelete j => j =? i | Detector.DStop => true | _ => false end.

(** The values recorded into the histogram of [key], in order. *)
Definition hist_inputs (key : string) (ss : list Metrics.MStep) : list Z :=
  flat_map (fun s => match s with
                     | Metrics.MHist n v l => if String.eqb (Metrics.getKey n l) key then [v] else []
                     | _ => []
                     end) ss.

(** A string with a character other than ASCII whitespace. *)
Definition has_nonws (s : string) : bool :=
  existsb (fun c => negb (Store.is_ws c)) (String.list_ascii_of_string s).

(** A promise created by application code at time [created]. *)
Definition mk_promise (aid : nat) (created : Z) : Tracker.TrackedPromise :=
  {| Tracker.asyncId := aid; Tracker.ptype := "PROMISE"; Tracker.triggerAsyncId := 0;
     Tracker.createdAt := created; Tracker.pstack := user_stack;
     Tracker.status := Tracker.pending; Tracker.pfile := Some "/app/src/server.ts";
     Tracker.pline := Some 10%Z |}.

(** Five settled entries created at times 1..5 and one pending entry. *)
Definition settled_map : list (nat * Tracker.TrackedPromise) :=
  app (map (fun i => (i, Tracker.set_status (mk_promise i (Z.of_nat i)) Tracker.resolved))
         (seq 1 5))
      [(6, mk_promise 6 0)].

(** 10001 emissions of a memory-leak event, one more than the store keeps. *)
Definition leak_emits : list Aux.SStep :=
  repeat (Aux.SEmit Store.MEMORY_LEAK [] Store.no_options 1) 10001.

(** Refutes [In c (l1 ++ x :: l2 ++ ...)] for a character [c] that the
    hypotheses exclude from each piece or that differs from each [x]. *)
Ltac not_in_app :=
  let Hin := fresh "Hin" in
  intros Hin;
  repeat ((rewrite in_app_iff in Hin) || (progress (cbn [In String.list_ascii_of_string] in Hin)));
  repeat match type of Hin with _ \/ _ => destruct Hin as [Hin|Hin] end;
  first [ tauto
        | unfold StackParse.ch in Hin; vm_compute in Hin; discriminate Hin
        | exact (False_ind _ Hin) ].

(** [cleanStack(stack)] of both trackers: the lines mentioning none of
    [excluded], the first [keep] of them ([slice(0, keep)]), joined with
    ['\n']. The tracker drops [node_modules], [node:internal] and
    [async_hooks] lines and keeps 10; the detector drops [node_modules],
    [node:internal] and [unawaitedPromiseDetector] lines and keeps 8. *)
Definition cleanStack (excluded : list string) (keep : nat) (stk : string) : string :=
  Metrics.join nl
    (firstn keep
       (List.filter (fun line => negb (existsb (includes line) excluded))
          (Store.split_lines stk EmptyString))).

(** * Properties *)

(* ---------------- HealthChecker ---------------- *)

(** C1 (code_bug). A monitor with 11 consecutive failed checks and a heap of
    150 MB: [getHealth] reports [degraded], because the heap check
    overwrites the [unhealthy] status set by the monitor loop. *)
Theorem getHealth_heap_overrides_unhealthy :
  let hc := Health.fail_n (Health.new_HealthChecker 1) "eventLoop" 11 5 in
  (exists h, amap_get (Health.monitorHealth hc) "eventLoop" = Some h /\ Health.errors h = 11) /\
  Health.monitor_loop (Health.monitorHealth hc) Health.st_healthy = Health.st_unhealthy /\
  Health.hs_status (Health.getHealth hc (150 * Health.MiB)%Z 10) = Health.st_degraded.
Proof.
  vm_compute. split; [eexists; split; reflexivity | split; reflexivity].
Qed.

(* ---------------- EventStore ---------------- *)

Lemma ee_emit_spec ls name ev :
  Store.ee_emit ls name ev =
  (map Store.lid (Aux.upto_throw ev (Aux.listeners_for ls name)),
   if Aux.throws_any ev (Aux.listeners_for ls name) then Store.Threw else Store.Returned).
Proof.
  induction ls as [|[n l] rest IH]; simpl; [reflexivity|].
  unfold Aux.listeners_for in *; simpl.
  destruct (String.eqb n name); simpl; [|exact IH].
  destruct (Store.run l ev); simpl; [|reflexivity].
  rewrite IH. reflexivity.
Qed.

Lemma upto_throw_none ev ls :
  Aux.throws_any ev ls = false -> Aux.upto_throw ev ls = ls.
Proof.
  induction ls as [|l rest IH]; simpl; [reflexivity|].
  destruct (Store.run l ev); simpl; [intro H; f_equal; auto | discriminate].
Qed.

(** C2 (counterexample). Two subscribers of ["event"], the first throws:
    only the first is called and the throw reaches the caller of [emit]. *)
Lemma emit_throwing_handler_stops_rest :
  let st := Store.on (Store.on Store.empty_store "event" thrower) "event" quiet in
  let '(_, called, out) := Store.emit st Store.SYSTEM_INFO [] Store.no_options 1 in
  called = [1] /\ out = Store.Threw.
Proof. vm_compute. split; reflexivity. Qed.

(** C2 (amended). [emit] stores the event first, then calls the ["event"]
    subscribers and then the subscribers of the event's type, each in
    subscription order; the first handler that throws ends the emission:
    later handlers are not called and [emit] throws to its caller. *)
Theorem emit_calls_in_order_until_throw st t d o now :
  let ev := Store.make_event (S (Store.eventCounter st)) t d o now in
  let evl := Aux.listeners_for (Store.listeners st) "event" in
  let tyl := Aux.listeners_for (Store.listeners st) (Store.EventType_str t) in
  Store.emit st t d o now =
  ({| Store.events := Store.push_ring (Store.events st) ev;
      Store.eventCounter := S (Store.eventCounter st);
      Store.listeners := Store.listeners st |},
   if Aux.throws_any ev evl then map Store.lid (Aux.upto_throw ev evl)
   else app (map Store.lid evl) (map Store.lid (Aux.upto_throw ev tyl)),
   if Aux.throws_any ev evl then Store.Threw
   else if Aux.throws_any ev tyl then Store.Threw else Store.Returned).
Proof.
  intros ev evl tyl. unfold Store.emit.
  rewrite !ee_emit_spec. fold ev evl tyl.
  destruct (Aux.throws_any ev evl) eqn:He; [reflexivity|].
  rewrite (upto_throw_none _ _ He). reflexivity.
Qed.

(** C5 (counterexample). Emit, [clear()], emit: both events get the id
    [evt_1], so the later id is not greater than the earlier one. *)
Lemma ids_repeat_after_clear :
  let st1 := Store.emit_st Store.empty_store Store.SYSTEM_INFO [] Store.no_options 1 in
  let st2 := Store.emit_st (Store.clear st1) Store.SYSTEM_INFO [] Store.no_options 2 in
  map Store.id (Store.events st1) = ["evt_1"] /\
  map Store.id (Store.events st2) = ["evt_1"].
Proof. vm_compute. split; reflexivity. Qed.

Lemma srun_ids st ss :
  Forall Aux.not_clear ss ->
  Store.eventCounter (fst (Aux.srun st ss)) = Store.eventCounter st + Aux.n_emits ss /\
  map Store.id (snd (Aux.srun st ss)) =
  map (fun k => "evt_" ++ nat_to_string k) (seq (S (Store.eventCounter st)) (Aux.n_emits ss)).
Proof.
  revert st. induction ss as [|s rest IH]; intros st Hall.
  - simpl. split; [unfold Aux.n_emits; simpl; lia | reflexivity].
  - inversion Hall as [|? ? Hs Hrest]; subst.
    destruct s as [t d o now | n l |].
    + assert (Hc : Store.eventCounter (Store.emit_st st t d o now) = S (Store.eventCounter st)).
      { unfold Store.emit_st, Store.emit.
        destruct (Store.ee_emit (Store.listeners st) "event" _) as [c1 [|]];
          [destruct (Store.ee_emit (Store.listeners st) (Store.EventType_str t) _)|];
          reflexivity. }
      destruct (IH (Store.emit_st st t d o now) Hrest) as [H1 H2].
      assert (Hn : Aux.n_emits (Aux.SEmit t d o now :: rest) = S (Aux.n_emits rest))
        by reflexivity.
      rewrite Hn. simpl.
      destruct (Aux.srun (Store.emit_st st t d o now) rest) as [st' evs] eqn:E.
      simpl in *. rewrite Hc in H1, H2. split; [lia | rewrite H2; reflexivity].
    + exact (IH (Store.on st n l) Hrest).
    + contradiction.
Qed.

(** C5 (amended). Without an intervening [clear()], the events emitted get
    the ids [evt_(c+1)], [evt_(c+2)], ... for the current counter [c], so
    their numbers strictly increase; [clear()] resets the counter to 0, so
    the next emission is [evt_1] again. *)
Theorem ids_increase_until_clear st ss :
  Forall Aux.not_clear ss ->
  map Store.id (snd (Aux.srun st ss)) =
  map (fun k => "evt_" ++ nat_to_string k) (seq (S (Store.eventCounter st)) (Aux.n_emits ss)) /\
  Store.eventCounter (Store.clear st) = 0.
Proof.
  intros H. split; [apply (srun_ids st ss H) | reflexivity].
Qed.

Lemma ids_increase_until_clear_witness :
  Forall Aux.not_clear [Aux.SEmit Store.SYSTEM_INFO [] Store.no_options 1;
                        Aux.SEmit Store.MEMORY_LEAK [] Store.no_options 2] /\
  map Store.id (snd (Aux.srun Store.empty_store
     [Aux.SEmit Store.SYSTEM_INFO [] Store.no_options 1;
      Aux.SEmit Store.MEMORY_LEAK [] Store.no_options 2])) =
  map (fun k => "evt_" ++ nat_to_string k) (seq 1 2) /\
  Store.eventCounter (Store.clear Store.empty_store) = 0.
Proof.
  assert (H : Forall Aux.not_clear [Aux.SEmit Store.SYSTEM_INFO [] Store.no_options 1;
                                    Aux.SEmit Store.MEMORY_LEAK [] Store.no_options 2])
    by (repeat constructor).
  split; [exact H|]. exact (ids_increase_until_clear Store.empty_store _ H).
Defined.

Lemma push_ring_lastn evs e :
  length evs <= Store.maxEvents ->
  Store.push_ring evs e = Aux.lastn Store.maxEvents (app evs [e]).
Proof.
  intros H. unfold Store.push_ring, Aux.lastn. rewrite length_app. simpl.
  destruct (Store.maxEvents <? length evs + 1) eqn:E.
  - apply Nat.ltb_lt in E. replace (length evs + 1 - Store.maxEvents) with 1 by lia.
    destruct (app evs [e]); reflexivity.
  - apply Nat.ltb_ge in E. replace (length evs + 1 - Store.maxEvents) with 0 by lia.
    reflexivity.
Qed.

Lemma lastn_lastn_app {A} n (l r : list A) :
  Aux.lastn n (app (Aux.lastn n l) r) = Aux.lastn n (app l r).
Proof.
  unfold Aux.lastn.
  replace (app (skipn (length l - n) l) r)
    with (skipn (length l - n) (app l r)).
  2:{ rewrite skipn_app. replace (length l - n - length l) with 0 by lia. reflexivity. }
  rewrite skipn_skipn, length_skipn, !length_app. f_equal. lia.
Qed.

Lemma length_lastn {A} n (l : list A) : length (Aux.lastn n l) = Nat.min (length l) n.
Proof. unfold Aux.lastn. rewrite length_skipn. lia. Qed.

Lemma srun_events st ss :
  Forall Aux.not_clear ss ->
  length (Store.events st) <= Store.maxEvents ->
  Store.events (fst (Aux.srun st ss)) =
  Aux.lastn Store.maxEvents (app (Store.events st) (snd (Aux.srun st ss))).
Proof.
  revert st. induction ss as [|s rest IH]; intros st Hall Hlen; simpl.
  - unfold Aux.lastn. rewrite app_nil_r. replace (length (Store.events st) - Store.maxEvents) with 0 by lia.
    reflexivity.
  - inversion Hall as [|? ? Hs Hrest]; subst.
    destruct s as [t d o now | n l |]; simpl in *.
    + assert (Hev : Store.events (Store.emit_st st t d o now) =
                    Store.push_ring (Store.events st)
                      (Store.make_event (S (Store.eventCounter st)) t d o now)).
      { unfold Store.emit_st, Store.emit.
        destruct (Store.ee_emit (Store.listeners st) "event" _) as [c1 [|]];
          [destruct (Store.ee_emit (Store.listeners st) (Store.EventType_str t) _)|];
          reflexivity. }
      assert (Hl : length (Store.events (Store.emit_st st t d o now)) <= Store.maxEvents).
      { rewrite Hev, push_ring_lastn by exact Hlen. rewrite length_lastn. lia. }
      pose proof (IH _ Hrest Hl) as IH'.
      destruct (Aux.srun (Store.emit_st st t d o now) rest) as [st' evs] eqn:E.
      simpl in *. rewrite IH', Hev, push_ring_lastn by exact Hlen.
      rewrite lastn_lastn_app, <- app_assoc. reflexivity.
    + exact (IH (Store.on st n l) Hrest Hlen).
    + contradiction.
Qed.

Lemma bump_lookup (m : gmap string nat) k0 k :
  Store.bump m k0 !! k =
  if String.eqb k0 k then Some (match m !! k with Some c => S c | None => 1 end)
  else m !! k.
Proof.
  unfold Store.bump. destruct (String.eqb k0 k) eqn:E.
  - apply String.eqb_eq in E. subst. apply lookup_insert_eq.
  - apply String.eqb_neq in E. apply lookup_insert_ne. exact E.
Qed.

Lemma add_count_step (o : option nat) (b : bool) c :
  add_count (if b then Some (match o with Some x => S x | None => 1 end) else o) c =
  add_count o ((if b then 1 else 0) + c).
Proof.
  destruct b, o; simpl; try reflexivity; f_equal; lia.
Qed.

Lemma cnt_cons key k e rest :
  Aux.cnt key k (e :: rest) = (if String.eqb (key e) k then 1 else 0) + Aux.cnt key k rest.
Proof. unfold Aux.cnt. simpl. destruct (String.eqb (key e) k); reflexivity. Qed.

Lemma stats_fold evs (bt bs : gmap string nat) k :
  let r := fold_left (fun '(bt, bs) e =>
                 (Store.bump bt (Store.EventType_str (Store.type e)),
                  Store.bump bs (Store.Severity_str (Store.severity e)))) evs (bt, bs) in
  fst r !! k = add_count (bt !! k) (Aux.cnt (fun e => Store.EventType_str (Store.type e)) k evs) /\
  snd r !! k = add_count (bs !! k) (Aux.cnt (fun e => Store.Severity_str (Store.severity e)) k evs).
Proof.
  revert bt bs. induction evs as [|e rest IH]; intros bt bs; simpl.
  - unfold Aux.cnt; simpl.
    split; destruct (_ !! k); simpl; try reflexivity; f_equal; lia.
  - destruct (IH (Store.bump bt (Store.EventType_str (Store.type e)))
                 (Store.bump bs (Store.Severity_str (Store.severity e)))) as [H1 H2].
    rewrite H1, H2, !bump_lookup, !add_count_step, !cnt_cons. split; reflexivity.
Qed.

(** C10. Emitting from a fresh store (no [clear()] in between): the store
    retains the last 10 000 emitted events, [getEventStats().total] is
    [min(emissions, 10 000)], and [byType] / [bySeverity] count only the
    retained events. *)
Theorem event_stats_cover_retained ss :
  Forall Aux.not_clear ss ->
  let st' := fst (Aux.srun Store.empty_store ss) in
  let emitted := snd (Aux.srun Store.empty_store ss) in
  let '(total, byType, bySeverity) := Store.getEventStats st' in
  Store.events st' = Aux.lastn Store.maxEvents emitted /\
  total = Nat.min (length emitted) Store.maxEvents /\
  (forall k, byType !! k =
     Aux.as_count (Aux.cnt (fun e => Store.EventType_str (Store.type e)) k (Store.events st'))) /\
  (forall k, bySeverity !! k =
     Aux.as_count (Aux.cnt (fun e => Store.Severity_str (Store.severity e)) k (Store.events st'))).
Proof.
  intros Hall st' emitted.
  assert (He : Store.events st' = Aux.lastn Store.maxEvents emitted).
  { unfold st', emitted. rewrite (srun_events Store.empty_store ss Hall) by (simpl; lia).
    reflexivity. }
  unfold Store.getEventStats.
  pose proof (fun k => stats_fold (Store.events st') ∅ ∅ k) as Hf.
  destruct (fold_left _ (Store.events st') (∅, ∅)) as [bt bs] eqn:Ef.
  split; [exact He|]. split; [rewrite He; apply length_lastn|].
  split; intro k; destruct (Hf k) as [H1 H2]; simpl in H1, H2;
    [rewrite H1 | rewrite H2]; rewrite lookup_empty; reflexivity.
Qed.

Lemma srun_emitted_length st ss :
  length (snd (Aux.srun st ss)) = Aux.n_emits ss.
Proof.
  unfold Aux.n_emits. revert st. induction ss as [|s ss IH]; intros st; [reflexivity|].
  destruct s as [t d o now | n l |]; simpl.
  - destruct (Aux.srun (Store.emit_st st t d o now) ss) as [st' evs] eqn:E.
    simpl. f_equal. rewrite <- (IH (Store.emit_st st t d o now)), E. reflexivity.
  - apply IH.
  - apply IH.
Qed.

Lemma srun_emitted_types st ss t :
  Forall (fun s => match s with Aux.SEmit t' _ _ _ => t' = t | _ => True end) ss ->
  Forall (fun e => Store.type e = t) (snd (Aux.srun st ss)).
Proof.
  revert st. induction ss as [|s ss IH]; intros st H; [constructor|].
  inversion H as [|? ? Hs Hss]; subst.
  destruct s as [t' d o now | n l |]; simpl.
  - subst t'. pose proof (IH (Store.emit_st st t d o now) Hss) as IH'.
    destruct (Aux.srun (Store.emit_st st t d o now) ss) as [st' evs]. simpl in *.
    constructor; [reflexivity | exact IH'].
  - apply IH, Hss.
  - apply IH, Hss.
Qed.

Lemma cnt_all {A} (key : A -> string) k (l : list A) :
  Forall (fun e => key e = k) l -> length (List.filter (fun e => String.eqb (key e) k) l) = length l.
Proof.
  induction 1 as [|e l He _ IH]; [reflexivity|]. simpl. rewrite He, String.eqb_refl. simpl. f_equal. exact IH.
Qed.

Lemma Forall_skipn_nat {A} (P : A -> Prop) n l : Forall P l -> Forall P (skipn n l).
Proof.
  revert l. induction n as [|n IH]; intros l H; [exact H|].
  destruct l as [|x l]; [constructor|]. inversion H; subst. apply IH. assumption.
Qed.

Lemma event_stats_cover_retained_witness :
  Forall Aux.not_clear leak_emits /\
  length (snd (Aux.srun Store.empty_store leak_emits)) = 10001 /\
  (let '(total, byType, _) := Store.getEventStats (fst (Aux.srun Store.empty_store leak_emits)) in
   total = 10000 /\ byType !! "MEMORY_LEAK" = Some 10000).
Proof.
  assert (H : Forall Aux.not_clear leak_emits).
  { apply List.Forall_forall. intros x Hx. unfold leak_emits in Hx.
    apply repeat_spec in Hx. subst x. exact I. }
  assert (Hlen : length (snd (Aux.srun Store.empty_store leak_emits)) = 10001).
  { rewrite srun_emitted_length. vm_compute. reflexivity. }
  assert (Hty : Forall (fun e => Store.type e = Store.MEMORY_LEAK)
                  (snd (Aux.srun Store.empty_store leak_emits))).
  { apply srun_emitted_types. apply List.Forall_forall. intros x Hx. unfold leak_emits in Hx.
    apply repeat_spec in Hx. subst x. reflexivity. }
  split; [exact H|]. split; [exact Hlen|].
  generalize (event_stats_cover_retained _ H). cbv zeta.
  destruct (Store.getEventStats (fst (Aux.srun Store.empty_store leak_emits)))
    as [[total bt] bs].
  intros (Hev & Ht & Hbt & _). split.
  - rewrite Ht, Hlen. reflexivity.
  - rewrite Hbt, Hev. unfold Aux.cnt.
    assert (Hl : Forall (fun e => Store.EventType_str (Store.type e) = "MEMORY_LEAK")
                   (Aux.lastn Store.maxEvents (snd (Aux.srun Store.empty_store leak_emits)))).
    { unfold Aux.lastn. apply Forall_skipn_nat.
      eapply Forall_impl; [exact Hty|]. intros e He. rewrite He. reflexivity. }
    rewrite (cnt_all (fun e => Store.EventType_str (Store.type e)) _ _ Hl).
    rewrite length_lastn, Hlen. reflexivity.
Defined.

(* ---------------- AlertRouter ---------------- *)

Lemma dispatch_cache rs key e now :
  forall counts cache c ca sent,
  Router.dispatch rs key e now counts cache = (c, ca, sent) ->
  ca = match sent with [] => cache | _ => <[key := now]> cache end.
Proof.
  induction rs as [|r rest IH]; intros counts cache c ca sent H; simpl in H.
  - inversion H; subst. reflexivity.
  - destruct (negb (Router.r_enabled r)); [eapply IH; exact H|].
    destruct (match Router.r_filter r with Some f => negb (f e) | None => false end);
      [eapply IH; exact H|].
    destruct (Router.r_rateLimit r) as [lim|];
      [destruct (Router.checkRateLimit counts (Router.r_name r) lim now) as [ok counts'];
       destruct (negb ok); [eapply IH; exact H|] | simpl in H].
    all: destruct (Router.r_handler r now e); [|eapply IH; exact H].
    all: match type of H with
         | context [Router.dispatch ?x1 ?x2 ?x3 ?x4 ?x5 (<[?x6:=?x7]> ?x8)] =>
             destruct (Router.dispatch x1 x2 x3 x4 x5 (<[x6:=x7]> x8))
               as [[c' ca'] sent'] eqn:Ed
         end; inversion H; subst.
    all: apply IH in Ed; rewrite Ed; destruct sent'; [reflexivity | apply insert_insert_eq].
Qed.

Lemma route_cache a e now a' sent :
  Router.route a e now = (a', sent) ->
  Router.routes a' = Router.routes a /\
  Router.deduplicationCache a' =
    match sent with [] => Router.deduplicationCache a
    | _ => <[Router.getEventKey e := now]> (Router.deduplicationCache a) end /\
  (sent <> [] ->
   match Router.deduplicationCache a !! Router.getEventKey e with
   | Some last => last = 0%Z \/ (300000 <= now - last)%Z
   | None => True
   end).
Proof.
  unfold Router.route.
  destruct (Router.deduplicationCache a !! Router.getEventKey e) as [last|] eqn:El.
  - destruct (negb (Z.eqb last 0) && (now - last <? 300000)%Z) eqn:Ec.
    + intros H; inversion H; subst. split; [reflexivity|]. split; [reflexivity|].
      intros N; contradiction.
    + destruct (Router.dispatch _ _ _ _ _ _) as [[c ca] s] eqn:Ed.
      intros H; inversion H; subst. apply dispatch_cache in Ed.
      split; [reflexivity|]. split; [exact Ed|]. intros _.
      apply andb_false_iff in Ec. destruct Ec as [Ec|Ec].
      * left. apply negb_false_iff, Z.eqb_eq in Ec. exact Ec.
      * right. apply Z.ltb_ge in Ec. lia.
  - destruct (Router.dispatch _ _ _ _ _ _) as [[c ca] s] eqn:Ed.
    intros H; inversion H; subst. apply dispatch_cache in Ed.
    split; [reflexivity|]. split; [exact Ed|]. intros _. exact I.
Qed.

Lemma in_new_entries (call : nat) (now : Z) (key : string) (sent : list string)
    (c : nat) (t : Z) (r k : string) :
  In (c, t, r, k) (map (fun n => (call, now, n, key)) sent) <->
  c = call /\ t = now /\ k = key /\ In r sent.
Proof.
  rewrite in_map_iff. split.
  - intros [n [Hn Hin]]. inversion Hn; subst. auto.
  - intros (-> & -> & -> & Hin). exists r. auto.
Qed.

Lemma run_spec steps :
  forall a call last, cache_inv a last -> Router.clock_ok last steps ->
  let '(a'', log) := Router.run a call steps in
  (forall c t r k, In (c, t, r, k) log -> call <= c /\ (last <= t)%Z) /\
  (forall c t r k t0, In (c, t, r, k) log ->
     Router.deduplicationCache a !! k = Some t0 -> (300000 <= t - t0)%Z) /\
  (forall c1 t1 r1 c2 t2 r2 k, In (c1, t1, r1, k) log -> In (c2, t2, r2, k) log ->
     c1 < c2 -> (300000 <= t2 - t1)%Z) /\
  (forall k t, Router.deduplicationCache a'' !! k = Some t ->
     Router.deduplicationCache a !! k = Some t \/ exists c r, In (c, t, r, k) log) /\
  (forall c t r k, In (c, t, r, k) log ->
     exists t', Router.deduplicationCache a'' !! k = Some t' /\ (t <= t')%Z) /\
  (forall k t0, Router.deduplicationCache a !! k = Some t0 ->
     exists t', Router.deduplicationCache a'' !! k = Some t' /\ (t0 <= t')%Z).
Proof.
  induction steps as [|s rest IH]; intros a call last Hinv Hclk; simpl.
  - split; [intros; contradiction|]. split; [intros; contradiction|].
    split; [intros; contradiction|]. split; [intros k t H; left; exact H|].
    split; [intros; contradiction|]. intros k t0 H. exists t0. split; [exact H | lia].
  - destruct s as [now e | r en | n]; simpl in Hclk.
    + destruct Hclk as (Hpos & Hle & Hrest).
      destruct (Router.route a e now) as [a' sent] eqn:Er.
      destruct (route_cache _ _ _ _ _ Er) as (_ & Hca & Hok).
      set (key := Router.getEventKey e) in *.
      assert (Hinv' : cache_inv a' now).
      { intros k t Hk. rewrite Hca in Hk. destruct sent as [|s0 sent0];
          [apply Hinv in Hk; lia|].
        rewrite lookup_insert in Hk. case_decide;
          [inversion Hk; lia | apply Hinv in Hk; lia]. }
      assert (Hnow : sent <> [] -> Router.deduplicationCache a' !! key = Some now).
      { intros Hne. rewrite Hca. destruct sent; [contradiction|]. apply lookup_insert_eq. }
      assert (Hmono : forall k t0, Router.deduplicationCache a !! k = Some t0 ->
                exists t', Router.deduplicationCache a' !! k = Some t' /\ (t0 <= t')%Z).
      { intros k t0 Hk. rewrite Hca. destruct sent as [|s0 sent0]; [exists t0; split; [exact Hk|lia]|].
        rewrite lookup_insert. case_decide.
        - exists now. split; [reflexivity|]. apply Hinv in Hk. lia.
        - exists t0. split; [exact Hk | lia]. }
      assert (Hback : forall k t, Router.deduplicationCache a' !! k = Some t ->
                Router.deduplicationCache a !! k = Some t \/
                (k = key /\ t = now /\ sent <> [])).
      { intros k t Hk. rewrite Hca in Hk. destruct sent as [|s0 sent0]; [left; exact Hk|].
        rewrite lookup_insert in Hk. case_decide.
        - right. inversion Hk; subst. split; [reflexivity|]. split; [reflexivity|discriminate].
        - left. exact Hk. }
      specialize (IH a' (S call) now Hinv' Hrest).
      destruct (Router.run a' (S call) rest) as [a'' log] eqn:Erun.
      destruct IH as (A & B & C & D & E & F).
      split; [|split; [|split; [|split; [|split]]]].
      * intros c t r k Hin. apply in_app_iff in Hin. destruct Hin as [Hin|Hin].
        -- apply in_new_entries in Hin. destruct Hin as (-> & -> & _). lia.
        -- apply A in Hin. lia.
      * intros c t r k t0 Hin Hk. apply in_app_iff in Hin. destruct Hin as [Hin|Hin].
        -- apply in_new_entries in Hin. destruct Hin as (-> & -> & -> & Hr).
           assert (Hne : sent <> []) by (destruct sent; [contradiction | discriminate]).
           specialize (Hok Hne). rewrite Hk in Hok. apply Hinv in Hk. lia.
        -- destruct (Hmono _ _ Hk) as [t' [Ht' Hle']]. specialize (B _ _ _ _ _ Hin Ht'). lia.
      * intros c1 t1 r1 c2 t2 r2 k H1 H2 Hlt.
        apply in_app_iff in H1, H2.
        destruct H1 as [H1|H1]; destruct H2 as [H2|H2].
        -- apply in_new_entries in H1, H2. lia.
        -- apply in_new_entries in H1. destruct H1 as (-> & -> & -> & Hr).
           assert (Hne : sent <> []) by (destruct sent; [contradiction | discriminate]).
           exact (B _ _ _ _ _ H2 (Hnow Hne)).
        -- apply in_new_entries in H2. apply A in H1. lia.
        -- exact (C _ _ _ _ _ _ _ H1 H2 Hlt).
      * intros k t Hk. destruct (D _ _ Hk) as [Hk'|[c [r Hin]]].
        -- destruct (Hback _ _ Hk') as [Ha|(-> & -> & Hne)]; [left; exact Ha|].
           right. destruct sent as [|r0 sent0]; [contradiction|].
           exists call, r0. apply in_app_iff. left. apply in_new_entries. simpl. auto.
        -- right. exists c, r. apply in_app_iff. right. exact Hin.
      * intros c t r k Hin. apply in_app_iff in Hin. destruct Hin as [Hin|Hin].
        -- apply in_new_entries in Hin. destruct Hin as (-> & -> & -> & Hr).
           assert (Hne : sent <> []) by (destruct sent; [contradiction | discriminate]).
           destruct (F _ _ (Hnow Hne)) as [t' [Ht' Hle']]. exists t'. auto.
        -- exact (E _ _ _ _ Hin).
      * intros k t0 Hk. destruct (Hmono _ _ Hk) as [t' [Ht' Hle']].
        destruct (F _ _ Ht') as [t'' [Ht'' Hle'']]. exists t''. split; [exact Ht''|lia].
    + exact (IH (Router.addRoute a r en) call last Hinv Hclk).
    + exact (IH (Router.removeRoute a n) call last Hinv Hclk).
Qed.

(** C3 (counterexample). [ev_a] and [ev_b] have the same kind, file and
    line fields; routed one second apart, both are dispatched by the
    same route, since the dedup key reads [data.file] and [data.line]. *)
Lemma same_location_dispatched_twice :
  Store.type ev_a = Store.type ev_b /\ Store.file ev_a = Store.file ev_b /\
  Store.line ev_a = Store.line ev_b /\
  map (fun '(_, t, r, _) => (t, r))
    (snd (Router.run Router.empty_router 0
            [Router.SAdd ops_route None; Router.SRoute 1000 ev_a; Router.SRoute 2000 ev_b]))
  = [(1000%Z, "ops"); (2000%Z, "ops")].
Proof. vm_compute. repeat split. Qed.

(** C3 (amended). The dedup key is
    [type:(data.file || 'unknown'):(data.line || 0)].  An event whose key
    has a recorded dispatch less than 5 minutes old is dropped before any
    route is consulted; and when [route()] calls run one after another at
    positive, non-decreasing times, two successful dispatches of the same
    key in different calls are at least 5 minutes apart. *)
Theorem route_dedup_window steps :
  Router.clock_ok 0 steps ->
  (forall a e now last,
     Router.deduplicationCache a !! Router.getEventKey e = Some last ->
     last <> 0%Z -> (now - last < 300000)%Z ->
     Router.route a e now = (a, [])) /\
  (forall c1 t1 r1 c2 t2 r2 k,
     In (c1, t1, r1, k) (snd (Router.run Router.empty_router 0 steps)) ->
     In (c2, t2, r2, k) (snd (Router.run Router.empty_router 0 steps)) ->
     c1 < c2 -> (300000 <= t2 - t1)%Z).
Proof.
  intros Hclk. split.
  - intros a e now last Hk Hnz Hlt. unfold Router.route. rewrite Hk.
    apply Z.eqb_neq in Hnz. apply Z.ltb_lt in Hlt. rewrite Hnz, Hlt. reflexivity.
  - assert (Hinv : cache_inv Router.empty_router 0).
    { intros k t Hk. simpl in Hk. rewrite lookup_empty in Hk. discriminate. }
    pose proof (run_spec steps Router.empty_router 0 0 Hinv Hclk) as R.
    destruct (Router.run Router.empty_router 0 steps) as [a'' log].
    destruct R as (_ & _ & C & _). exact C.
Qed.

Lemma route_dedup_window_witness :
  let steps := [Router.SAdd ops_route None; Router.SRoute 1000 ev_a;
                Router.SRoute 2000 ev_a; Router.SRoute 400000 ev_a] in
  let a1 := fst (Router.route (Router.addRoute Router.empty_router ops_route None) ev_a 1000) in
  Router.clock_ok 0 steps /\
  Router.route a1 ev_a 2000 = (a1, []) /\
  In (0, 1000%Z, "ops", Router.getEventKey ev_a) (snd (Router.run Router.empty_router 0 steps)) /\
  In (2, 400000%Z, "ops", Router.getEventKey ev_a) (snd (Router.run Router.empty_router 0 steps)) /\
  (300000 <= 400000 - 1000)%Z.
Proof.
  intros steps a1.
  assert (H : Router.clock_ok 0 steps) by (simpl; lia).
  assert (L1 : In (0, 1000%Z, "ops", Router.getEventKey ev_a)
                  (snd (Router.run Router.empty_router 0 steps)))
    by (vm_compute; left; reflexivity).
  assert (L2 : In (2, 400000%Z, "ops", Router.getEventKey ev_a)
                  (snd (Router.run Router.empty_router 0 steps)))
    by (vm_compute; right; left; reflexivity).
  destruct (route_dedup_window steps H) as [P1 P2].
  split; [exact H|]. split.
  - apply (P1 a1 ev_a 2000%Z 1000%Z); [vm_compute; reflexivity | discriminate | reflexivity].
  - split; [exact L1|]. split; [exact L2|].
    exact (P2 0 1000%Z "ops" 2 400000%Z "ops" _ L1 L2 ltac:(lia)).
Defined.

(** C7 (counterexample). After a dispatch at t = 1 s and another route
    call at t = 1000 s, the cache still holds the first key with its
    time 1 s, far older than 5 minutes. *)
Lemma dedup_entry_outlives_ttl :
  let a := fst (Router.run Router.empty_router 0
                  [Router.SAdd ops_route None; Router.SRoute 1000 ev_a;
                   Router.SRoute 1000000 ev_c]) in
  Router.deduplicationCache a !! Router.getEventKey ev_a = Some 1000%Z /\
  (1000000 - 1000 > 300000)%Z.
Proof. vm_compute. split; reflexivity. Qed.

(** C7 (amended). [route()] never removes dedup entries: from a fresh
    router, with route calls at positive, non-decreasing times, the cache
    has an entry exactly for the keys ever successfully dispatched, each
    holding the time of a dispatch of that key that is no earlier than
    any other dispatch of it, however old. *)
Theorem dedup_cache_keeps_every_key steps :
  Router.clock_ok 0 steps ->
  let '(a'', log) := Router.run Router.empty_router 0 steps in
  (forall c t r k, In (c, t, r, k) log ->
     exists t', Router.deduplicationCache a'' !! k = Some t' /\ (t <= t')%Z) /\
  (forall k t, Router.deduplicationCache a'' !! k = Some t ->
     exists c r, In (c, t, r, k) log).
Proof.
  intros Hclk.
  assert (Hinv : cache_inv Router.empty_router 0).
  { intros k t Hk. simpl in Hk. rewrite lookup_empty in Hk. discriminate. }
  pose proof (run_spec steps Router.empty_router 0 0 Hinv Hclk) as R.
  destruct (Router.run Router.empty_router 0 steps) as [a'' log].
  destruct R as (_ & _ & _ & D & E & _). split; [exact E|].
  intros k t Hk. destruct (D _ _ Hk) as [H0|H0]; [|exact H0].
  simpl in H0. rewrite lookup_empty in H0. discriminate.
Qed.

Lemma dedup_cache_keeps_every_key_witness :
  let steps := [Router.SAdd ops_route None; Router.SRoute 1000 ev_a;
                Router.SRoute 1000000 ev_c] in
  Router.clock_ok 0 steps /\
  exists t', Router.deduplicationCache (fst (Router.run Router.empty_router 0 steps))
               !! Router.getEventKey ev_a = Some t' /\ (1000 <= t')%Z /\
             exists c r, In (c, t', r, Router.getEventKey ev_a)
                           (snd (Router.run Router.empty_router 0 steps)).
Proof.
  intros steps.
  assert (H : Router.clock_ok 0 steps) by (simpl; lia).
  split; [exact H|].
  generalize (dedup_cache_keeps_every_key _ H).
  assert (L : In (0, 1000%Z, "ops", Router.getEventKey ev_a)
                 (snd (Router.run Router.empty_router 0 steps)))
    by (vm_compute; left; reflexivity).
  destruct (Router.run Router.empty_router 0 steps) as [a'' log]. simpl in L |- *.
  intros [E1 E2].
  destruct (E1 _ _ _ _ L) as (t' & Ht' & Hle).
  exists t'. split; [exact Ht'|]. split; [exact Hle|]. exact (E2 _ _ Ht').
Defined.

(* ---------------- PromiseTracker and UnawaitedPromiseDetector ---------------- *)

Section NatMap.
Context {V : Type}.
Implicit Types (m : list (nat * V)) (k j : nat) (v : V).

Lemma nget_nset m k v j :
  Tracker.nget (Tracker.nset m k v) j = if j =? k then Some v else Tracker.nget m j.
Proof.
  induction m as [|[k' v'] rest IH]; simpl.
  - destruct (j =? k); reflexivity.
  - destruct (k =? k') eqn:E1; simpl.
    + apply Nat.eqb_eq in E1; subst. destruct (j =? k'); reflexivity.
    + destruct (j =? k') eqn:E2; [|exact IH].
      apply Nat.eqb_eq in E2; subst. rewrite Nat.eqb_sym, E1. reflexivity.
Qed.

Lemma nget_ndelete_other m k j :
  j <> k -> Tracker.nget (Tracker.ndelete m k) j = Tracker.nget m j.
Proof.
  intros Hne. induction m as [|[k' v'] rest IH]; simpl; [reflexivity|].
  destruct (k =? k') eqn:E1; simpl.
  - apply Nat.eqb_eq in E1; subst. apply Nat.eqb_neq in Hne. rewrite Hne. reflexivity.
  - destruct (j =? k'); [reflexivity | exact IH].
Qed.

Lemma in_nset m k v kv :
  In kv (Tracker.nset m k v) -> In kv m \/ kv = (k, v).
Proof.
  induction m as [|[k' v'] rest IH]; simpl.
  - intros [H|[]]. right. symmetry. exact H.
  - destruct (k =? k') eqn:E1; simpl.
    + apply Nat.eqb_eq in E1; subst. intros [H|H]; [right; symmetry; exact H | left; right; exact H].
    + intros [H|H]; [left; left; exact H|]. destruct (IH H); [left; right | right]; assumption.
Qed.

Lemma in_ndelete m k kv : In kv (Tracker.ndelete m k) -> In kv m.
Proof.
  induction m as [|[k' v'] rest IH]; simpl; [auto|].
  destruct (k =? k'); simpl; [auto|]. intros [H|H]; [left; exact H | right; auto].
Qed.

Lemma nget_in m k v : Tracker.nget m k = Some v -> In (k, v) m.
Proof.
  induction m as [|[k' v'] rest IH]; simpl; [discriminate|].
  destruct (k =? k') eqn:E; [apply Nat.eqb_eq in E; subst; intros H; inversion H; auto|].
  intros H. right. auto.
Qed.

Lemma in_nget m k v : List.NoDup (map fst m) -> In (k, v) m -> Tracker.nget m k = Some v.
Proof.
  induction m as [|[k' v'] rest IH]; simpl; [contradiction|].
  intros Hnd Hin. inversion Hnd as [|? ? Hnotin Hnd']; subst.
  destruct Hin as [Heq|Hin].
  - inversion Heq; subst. rewrite Nat.eqb_refl. reflexivity.
  - destruct (k =? k') eqn:E.
    + apply Nat.eqb_eq in E; subst. exfalso. apply Hnotin.
      apply in_map_iff. exists (k', v). auto.
    + auto.
Qed.

Lemma nodup_nset m k v : List.NoDup (map fst m) -> List.NoDup (map fst (Tracker.nset m k v)).
Proof.
  induction m as [|[k' v'] rest IH]; simpl; intros Hnd.
  - constructor; [simpl; auto | constructor].
  - inversion Hnd as [|? ? Hnotin Hnd']; subst.
    destruct (k =? k') eqn:E; simpl; [constructor; assumption|].
    constructor; [|auto].
    intros Hin. apply in_map_iff in Hin. destruct Hin as [kv [Hk Hin]].
    destruct (in_nset _ _ _ _ Hin) as [H|H].
    + apply Hnotin. apply in_map_iff. exists kv. auto.
    + subst. simpl in E. rewrite Nat.eqb_refl in E. discriminate.
Qed.

Lemma nodup_ndelete m k : List.NoDup (map fst m) -> List.NoDup (map fst (Tracker.ndelete m k)).
Proof.
  induction m as [|[k' v'] rest IH]; simpl; intros Hnd; [constructor|].
  inversion Hnd as [|? ? Hnotin Hnd']; subst.
  destruct (k =? k'); simpl; [assumption|].
  constructor; [|auto].
  intros Hin. apply in_map_iff in Hin. destruct Hin as [kv [Hk Hin]].
  apply Hnotin. apply in_map_iff. exists kv. split; [exact Hk | exact (in_ndelete _ _ _ Hin)].
Qed.

Lemma length_nset m k v : length (Tracker.nset m k v) <= S (length m).
Proof.
  induction m as [|[k' v'] rest IH]; simpl; [lia|]. destruct (k =? k'); simpl; lia.
Qed.

Lemma length_ndelete m k : length (Tracker.ndelete m k) <= length m.
Proof.
  induction m as [|[k' v'] rest IH]; simpl; [lia|]. destruct (k =? k'); simpl; lia.
Qed.

Lemma keys_nset_fresh m k v :
  ~ In k (map fst m) -> map fst (Tracker.nset m k v) = app (map fst m) [k].
Proof.
  induction m as [|[k' v'] rest IH]; simpl; intros Hn; [reflexivity|].
  destruct (k =? k') eqn:E.
  - apply Nat.eqb_eq in E. exfalso. apply Hn. left. symmetry. exact E.
  - simpl. f_equal. apply IH. intros H. apply Hn. right. exact H.
Qed.

Lemma length_nset_fresh m k v :
  ~ In k (map fst m) -> length (Tracker.nset m k v) = S (length m).
Proof.
  intros Hn. rewrite <- (length_map fst (Tracker.nset m k v)), keys_nset_fresh by exact Hn.
  rewrite length_app, length_map. simpl. lia.
Qed.

Lemma delete_all_nget L m k :
  (forall kv, In kv L -> fst kv <> k) -> Tracker.nget (delete_all L m) k = Tracker.nget m k.
Proof.
  revert m. induction L as [|x L IH]; intros m H; simpl; [reflexivity|].
  unfold delete_all in *. simpl. rewrite IH by (intros kv Hin; apply H; right; exact Hin).
  apply nget_ndelete_other. intros E. apply (H x); [left; reflexivity | symmetry; exact E].
Qed.

Lemma delete_all_in L m kv : In kv (delete_all L m) -> In kv m.
Proof.
  revert m. induction L as [|x L IH]; intros m H; simpl in *; [exact H|].
  apply in_ndelete with (k := fst x). apply IH. exact H.
Qed.

Lemma delete_all_nodup L m : List.NoDup (map fst m) -> List.NoDup (map fst (delete_all L m)).
Proof.
  revert m. induction L as [|x L IH]; intros m H; simpl; [exact H|].
  apply IH. apply nodup_ndelete. exact H.
Qed.

Lemma delete_all_length L m : length (delete_all L m) <= length m.
Proof.
  revert m. induction L as [|x L IH]; intros m; simpl; [lia|].
  specialize (IH (Tracker.ndelete m (fst x))). pose proof (length_ndelete m (fst x)).
  unfold delete_all in *. lia.
Qed.

End NatMap.

Lemma in_firstn_in {A} n (l : list A) x : In x (firstn n l) -> In x l.
Proof. intros H. rewrite <- (firstn_skipn n l). apply in_or_app. left. exact H. Qed.

Lemma insert_by_created_in x y l :
  In x (Tracker.insert_by_created y l) -> x = y \/ In x l.
Proof.
  induction l as [|z l IH]; simpl.
  - intros [H|[]]. left. symmetry. exact H.
  - destruct (_ <? _)%Z; simpl.
    + intros [H|[H|H]]; [left; symmetry; exact H | right; left; exact H | right; right; exact H].
    + intros [H|H]; [right; left; exact H|]. destruct (IH H); [left | right; right]; assumption.
Qed.

Lemma sort_by_created_in l x : In x (Tracker.sort_by_created l) -> In x l.
Proof.
  unfold Tracker.sort_by_created.
  assert (G : forall acc, In x (fold_left (fun acc y => Tracker.insert_by_created y acc) l acc) ->
              In x l \/ In x acc).
  { induction l as [|y l IH]; intros acc H; simpl in *; [right; exact H|].
    destruct (IH _ H) as [H1|H1]; [left; right; exact H1|].
    destruct (insert_by_created_in _ _ _ H1) as [H2|H2]; [left; left; symmetry; exact H2 | right; exact H2]. }
  intros H. destruct (G [] H) as [H1|[]]. exact H1.
Qed.

Lemma cleanup_is_delete_all m :
  let S := Tracker.sort_by_created
             (List.filter (fun kv => negb (Tracker.is_pending (snd kv))) m) in
  Tracker.cleanupOldPromises m = delete_all (firstn (length S / 5) S) m.
Proof. reflexivity. Qed.

Lemma cleanup_in m kv : In kv (Tracker.cleanupOldPromises m) -> In kv m.
Proof. rewrite cleanup_is_delete_all. apply delete_all_in. Qed.

Lemma cleanup_nodup m :
  List.NoDup (map fst m) -> List.NoDup (map fst (Tracker.cleanupOldPromises m)).
Proof. rewrite cleanup_is_delete_all. apply delete_all_nodup. Qed.

Lemma cleanup_length m : length (Tracker.cleanupOldPromises m) <= length m.
Proof. rewrite cleanup_is_delete_all. apply delete_all_length. Qed.

Lemma cleanup_keeps_pending m k p :
  List.NoDup (map fst m) -> Tracker.nget m k = Some p -> Tracker.is_pending p = true ->
  Tracker.nget (Tracker.cleanupOldPromises m) k = Some p.
Proof.
  intros Hnd Hg Hp. rewrite cleanup_is_delete_all. cbv zeta.
  rewrite delete_all_nget; [exact Hg|].
  intros kv Hin Heq. apply in_firstn_in, sort_by_created_in in Hin.
  apply filter_In in Hin. destruct Hin as [Hin Hnp].
  destruct kv as [k' p']. simpl in Heq, Hnp. subst k'.
  rewrite (in_nget m k p' Hnd Hin) in Hg. inversion Hg; subst.
  rewrite Hp in Hnp. discriminate.
Qed.

Lemma all_pending_cleanup m :
  (forall kv, In kv m -> Tracker.is_pending (snd kv) = true) ->
  Tracker.cleanupOldPromises m = m.
Proof.
  intros H. rewrite cleanup_is_delete_all. cbv zeta.
  replace (List.filter (fun kv => negb (Tracker.is_pending (snd kv))) m) with (@nil (nat * Tracker.TrackedPromise)).
  - reflexivity.
  - symmetry. induction m as [|kv rest IH]; simpl; [reflexivity|].
    rewrite (H kv (or_introl eq_refl)). simpl. apply IH. intros kv' Hin. apply H. right. exact Hin.
Qed.

Lemma nodup_filter_keys {V} (f : nat * V -> bool) m :
  List.NoDup (map fst m) -> List.NoDup (map fst (List.filter f m)).
Proof.
  induction m as [|x rest IH]; simpl; intros Hnd; [constructor|].
  inversion Hnd as [|? ? Hnotin Hnd']; subst.
  destruct (f x); simpl; [|auto].
  constructor; [|auto].
  intros Hin. apply in_map_iff in Hin. destruct Hin as [y [Hy Hin]].
  apply filter_In in Hin. apply Hnotin. apply in_map_iff. exists y. split; [exact Hy | apply Hin].
Qed.

Lemma nset_nset_same {V} (m : list (nat * V)) k v v' :
  Tracker.nset (Tracker.nset m k v) k v' = Tracker.nset m k v'.
Proof.
  induction m as [|[k' w] m IH]; simpl.
  - rewrite Nat.eqb_refl. reflexivity.
  - destruct (Nat.eqb_spec k k') as [->|Hne]; simpl.
    + rewrite Nat.eqb_refl. reflexivity.
    + rewrite (proj2 (Nat.eqb_neq k k') Hne). rewrite IH. reflexivity.
Qed.

(** The patched constructor files the new entry already marked awaited. *)
Lemma construct_eq d stk now :
  Detector.construct d stk now =
  let '(file, line) := Detector.parse stk in
  if StackParse.isGuardianInternal file then d else
  {| Detector.warningThreshold := Detector.warningThreshold d;
     Detector.promiseCounter := S (Detector.promiseCounter d);
     Detector.trackedPromises := Tracker.nset (Detector.trackedPromises d)
       (S (Detector.promiseCounter d))
       {| Detector.cid := S (Detector.promiseCounter d); Detector.cstack := stk;
          Detector.ccreatedAt := now; Detector.cfile := file; Detector.cline := line;
          Detector.isAwaited := true |} |}.
Proof.
  unfold Detector.construct. destruct (Detector.parse stk) as [file line].
  destruct (StackParse.isGuardianInternal file); [reflexivity|].
  unfold Detector.mark_awaited. cbn [Detector.trackedPromises].
  rewrite nget_nset, Nat.eqb_refl. unfold Detector.with_tracked. cbn.
  rewrite nset_nset_same. reflexivity.
Qed.

Lemma check_loop_in e thr now es kv :
  In kv (Detector.check_loop e thr now es) -> In kv es.
Proof.
  induction es as [|[i c] es IH]; simpl; [auto|].
  destruct (Detector.isAwaited c); [simpl; intros [H|H]; [left; exact H | right; auto]|].
  destruct (_ <? _)%Z; [destruct (e i c); [intros H; right; auto | auto]|].
  simpl. intros [H|H]; [left; exact H | right; auto].
Qed.

Lemma check_loop_nodup e thr now es :
  List.NoDup (map fst es) -> List.NoDup (map fst (Detector.check_loop e thr now es)).
Proof.
  induction es as [|[i c] es IH]; simpl; intros Hnd; [constructor|].
  inversion Hnd as [|? ? Hn Hnd']; subst.
  assert (Hc : List.NoDup (map fst ((i, c) :: Detector.check_loop e thr now es))).
  { simpl. constructor; [|apply IH, Hnd'].
    intros Hin. apply in_map_iff in Hin as [kv [Ek Hkv]]. apply Hn.
    apply in_map_iff. exists kv. split; [exact Ek | exact (check_loop_in _ _ _ _ _ Hkv)]. }
  destruct (Detector.isAwaited c); [exact Hc|].
  destruct (_ <? _)%Z; [destruct (e i c); [apply IH, Hnd' | exact Hnd] | exact Hc].
Qed.

Lemma check_loop_nget_awaited e thr now es i c :
  Tracker.nget es i = Some c -> Detector.isAwaited c = true ->
  Tracker.nget (Detector.check_loop e thr now es) i = Some c.
Proof.
  induction es as [|[k v] es IH]; simpl; [discriminate|].
  intros Hg Ha. destruct (Nat.eqb_spec i k) as [->|Hne].
  - injection Hg as <-. rewrite Ha. simpl. rewrite Nat.eqb_refl. reflexivity.
  - destruct (Detector.isAwaited v).
    + simpl. rewrite (proj2 (Nat.eqb_neq i k) Hne). apply IH; assumption.
    + destruct (_ <? _)%Z.
      * destruct (e k v); [apply IH; assumption|].
        simpl. rewrite (proj2 (Nat.eqb_neq i k) Hne). exact Hg.
      * simpl. rewrite (proj2 (Nat.eqb_neq i k) Hne). apply IH; assumption.
Qed.

Lemma deadlock_loop_nget_other e thr now pend m k0 :
  ~ In k0 (map fst pend) ->
  Tracker.nget (Tracker.deadlock_loop e thr now pend m) k0 = Tracker.nget m k0.
Proof.
  revert m. induction pend as [|[k p] pend IH]; intros m Hn; simpl; [reflexivity|].
  assert (Hk : k0 <> k) by (intros E; apply Hn; left; symmetry; exact E).
  assert (Hr : ~ In k0 (map fst pend)) by (intros H; apply Hn; right; exact H).
  assert (Hrep : forall m', Tracker.nget m' k0 = Tracker.nget m k0 ->
            Tracker.nget (if e p then Tracker.deadlock_loop e thr now pend
               (Tracker.nset m' k (Tracker.set_status p Tracker.rejected)) else m') k0
            = Tracker.nget m k0).
  { intros m' Hm'. destruct (e p); [|exact Hm'].
    rewrite IH by exact Hr. rewrite nget_nset, (proj2 (Nat.eqb_neq k0 k) Hk). exact Hm'. }
  destruct (_ <? _)%Z; [|apply IH, Hr].
  destruct (Tracker.nget m (Tracker.asyncId p)) as [q|];
    [destruct (negb (Tracker.is_pending q)); [apply IH, Hr|]|]; apply Hrep; reflexivity.
Qed.

Lemma deadlock_loop_ok (P : nat * Tracker.TrackedPromise -> Prop) e thr now pend m :
  (forall k p st, P (k, p) -> P (k, Tracker.set_status p st)) ->
  List.NoDup (map fst m) -> (forall kv, In kv m -> P kv) -> (forall kv, In kv pend -> P kv) ->
  List.NoDup (map fst (Tracker.deadlock_loop e thr now pend m)) /\
  (forall kv, In kv (Tracker.deadlock_loop e thr now pend m) -> P kv).
Proof.
  intros HP. revert m. induction pend as [|[k p] pend IH]; intros m Hnd Hm Hpend; simpl;
    [split; assumption|].
  assert (Hr : forall kv, In kv pend -> P kv) by (intros kv H; apply Hpend; right; exact H).
  assert (Hrep : List.NoDup (map fst (if e p then Tracker.deadlock_loop e thr now pend
               (Tracker.nset m k (Tracker.set_status p Tracker.rejected)) else m)) /\
            (forall kv, In kv (if e p then Tracker.deadlock_loop e thr now pend
               (Tracker.nset m k (Tracker.set_status p Tracker.rejected)) else m) -> P kv)).
  { destruct (e p); [|split; assumption].
    apply IH; [apply nodup_nset, Hnd | | exact Hr].
    intros kv Hin. destruct (in_nset _ _ _ _ Hin) as [H|H]; [apply Hm, H|].
    subst kv. apply HP, Hpend. left. reflexivity. }
  destruct (_ <? _)%Z; [|apply IH; assumption].
  destruct (Tracker.nget m (Tracker.asyncId p)) as [q|];
    [destruct (negb (Tracker.is_pending q)); [apply IH; assumption|]|]; exact Hrep.
Qed.

(** Every step of the PromiseTracker keeps [tracker_ok]. *)
Lemma tstep_ok t s : tracker_ok t -> tracker_ok (Tracker.tstep t s).
Proof.
  unfold tracker_ok. intros [Hnd Hall]. destruct s as [aid ty trig stk now | aid | aid | now |]; simpl.
  - unfold Tracker.onInit.
    destruct (negb (String.eqb ty "PROMISE")); [split; assumption|].
    destruct (Tracker.parse stk) as [file line] eqn:Ep.
    destruct (StackParse.isGuardianInternal file) eqn:Ei; [split; assumption|].
    set (m := if Tracker.maxTrackedPromises t <=? length (Tracker.promises t)
              then Tracker.cleanupOldPromises (Tracker.promises t) else Tracker.promises t).
    assert (Hm : List.NoDup (map fst m) /\ forall kv, In kv m -> In kv (Tracker.promises t)).
    { unfold m. destruct (_ <=? _).
      - split; [apply cleanup_nodup; exact Hnd | apply cleanup_in].
      - split; [exact Hnd | auto]. }
    destruct Hm as [Hmnd Hmin]. split; simpl.
    + apply nodup_nset. exact Hmnd.
    + intros kv Hin. destruct (in_nset _ _ _ _ Hin) as [H|H].
      * apply Hall, Hmin, H.
      * subst kv. simpl. rewrite Ep. split; [reflexivity | exact Ei].
  - unfold Tracker.onDestroy.
    destruct (Tracker.nget (Tracker.promises t) aid) as [p|] eqn:Eg; [|split; assumption].
    destruct (Tracker.is_pending p); [|split; assumption].
    split; simpl.
    + apply nodup_nset. exact Hnd.
    + intros kv Hin. destruct (in_nset _ _ _ _ Hin) as [H|H]; [apply Hall, H|].
      subst kv. simpl. exact (Hall _ (nget_in _ _ _ Eg)).
  - split; simpl.
    + apply nodup_ndelete. exact Hnd.
    + intros kv Hin. apply Hall. exact (in_ndelete _ _ _ Hin).
  - unfold Tracker.checkForDeadlocks, Tracker.with_promises. cbn [Tracker.promises].
    apply (deadlock_loop_ok (fun kv =>
             Tracker.pfile (snd kv) = fst (Tracker.parse (Tracker.pstack (snd kv))) /\
             StackParse.isGuardianInternal (Tracker.pfile (snd kv)) = false));
      [intros k p st H; exact H | exact Hnd | exact Hall |].
    intros kv Hin. apply Hall. apply sort_by_created_in, filter_In in Hin. apply Hin.
  - split; simpl; [constructor | contradiction].
Qed.

Lemma truns_ok t ss : tracker_ok t -> tracker_ok (Tracker.truns t ss).
Proof.
  revert t. induction ss as [|s ss IH]; intros t H; simpl; [exact H|].
  apply IH. apply tstep_ok. exact H.
Qed.

(** Every step of the UnawaitedPromiseDetector keeps [detector_ok]. *)
Lemma dstep_ok d s : detector_ok d -> detector_ok (Detector.dstep d s).
Proof.
  unfold detector_ok. intros [Hnd Hall]. destruct s as [stk now | i | now e | i |]; simpl.
  - rewrite construct_eq.
    destruct (Detector.parse stk) as [file line] eqn:Ep.
    destruct (StackParse.isGuardianInternal file) eqn:Ei; [split; assumption|].
    split; simpl.
    + apply nodup_nset. exact Hnd.
    + intros kv Hin. destruct (in_nset _ _ _ _ Hin) as [H|H]; [apply Hall, H|].
      subst kv. simpl. rewrite Ep. split; [reflexivity | exact Ei].
  - unfold Detector.mark_awaited.
    destruct (Tracker.nget (Detector.trackedPromises d) i) as [c|] eqn:Eg; [|split; assumption].
    split; simpl.
    + apply nodup_nset. exact Hnd.
    + intros kv Hin. destruct (in_nset _ _ _ _ Hin) as [H|H]; [apply Hall, H|].
      subst kv. simpl. exact (Hall _ (nget_in _ _ _ Eg)).
  - unfold Detector.checkUnawaitedPromises, Detector.with_tracked. simpl. split.
    + apply check_loop_nodup. exact Hnd.
    + intros kv Hin. apply Hall. exact (check_loop_in _ _ _ _ _ Hin).
  - split; simpl.
    + apply nodup_ndelete. exact Hnd.
    + intros kv Hin. apply Hall. exact (in_ndelete _ _ _ Hin).
  - split; simpl; [constructor | contradiction].
Qed.

Lemma druns_ok d ds : detector_ok d -> detector_ok (Detector.druns d ds).
Proof.
  revert d. induction ds as [|s ds IH]; intros d H; simpl; [exact H|].
  apply IH. apply dstep_ok. exact H.
Qed.

Lemma new_tracker_ok maxT : tracker_ok (Tracker.new_tracker maxT).
Proof. split; simpl; [constructor | contradiction]. Qed.

(** C6. A promise whose creation stack points into the monitor's own code
    is not inserted by [onInit] nor by the patched constructor; at every
    reachable state, each entry of the PromiseTracker map and of the
    detector's tracked set was created from a stack whose parsed file is
    not the monitor's own, and records that file. *)
Theorem self_tasks_never_tracked maxT ss ds :
  (forall t aid ty trig stk now,
     StackParse.isGuardianInternal (fst (Tracker.parse stk)) = true ->
     Tracker.onInit t aid ty trig stk now = t) /\
  (forall d stk now,
     StackParse.isGuardianInternal (fst (Detector.parse stk)) = true ->
     Detector.construct d stk now = d) /\
  (forall kv, In kv (Tracker.promises (Tracker.truns (Tracker.new_tracker maxT) ss)) ->
     Tracker.pfile (snd kv) = fst (Tracker.parse (Tracker.pstack (snd kv))) /\
     StackParse.isGuardianInternal (Tracker.pfile (snd kv)) = false) /\
  (forall kv, In kv (Detector.trackedPromises (Detector.druns Detector.new_detector ds)) ->
     Detector.cfile (snd kv) = fst (Detector.parse (Detector.cstack (snd kv))) /\
     StackParse.isGuardianInternal (Detector.cfile (snd kv)) = false).
Proof.
  split; [|split; [|split]].
  - intros t aid ty trig stk now H. unfold Tracker.onInit.
    destruct (negb (String.eqb ty "PROMISE")); [reflexivity|].
    destruct (Tracker.parse stk) as [file line]. simpl in H. rewrite H. reflexivity.
  - intros d stk now H. rewrite construct_eq.
    destruct (Detector.parse stk) as [file line]. simpl in H. rewrite H. reflexivity.
  - apply truns_ok, new_tracker_ok.
  - apply druns_ok. split; simpl; [constructor | contradiction].
Qed.

Lemma parse_user_stack :
  Tracker.parse user_stack = (Some "/app/src/server.ts", Some 10%Z).
Proof. vm_compute. reflexivity. Qed.

Lemma user_inits_all_pending maxT n :
  map fst (Tracker.promises (Tracker.truns (Tracker.new_tracker maxT) (user_inits n))) = seq 1 n /\
  forall kv, In kv (Tracker.promises (Tracker.truns (Tracker.new_tracker maxT) (user_inits n))) ->
    Tracker.is_pending (snd kv) = true.
Proof.
  induction n as [|n IH]; [split; [reflexivity | simpl; contradiction]|].
  unfold user_inits. rewrite seq_S, map_app. unfold Tracker.truns. rewrite fold_left_app.
  fold (user_inits n). fold (Tracker.truns (Tracker.new_tracker maxT) (user_inits n)).
  set (t := Tracker.truns (Tracker.new_tracker maxT) (user_inits n)) in *.
  destruct IH as [Hkeys Hpend]. cbn [map fold_left Tracker.tstep].
  unfold Tracker.onInit.
  replace (negb (String.eqb "PROMISE" "PROMISE")) with false by reflexivity.
  rewrite parse_user_stack. cbn beta iota.
  replace (StackParse.isGuardianInternal (Some "/app/src/server.ts")) with false
    by (vm_compute; reflexivity).
  replace (if Tracker.maxTrackedPromises t <=? length (Tracker.promises t)
           then Tracker.cleanupOldPromises (Tracker.promises t) else Tracker.promises t)
    with (Tracker.promises t)
    by (destruct (_ <=? _); [symmetry; apply all_pending_cleanup; exact Hpend | reflexivity]).
  simpl. split.
  - rewrite keys_nset_fresh, Hkeys; [reflexivity|].
    rewrite Hkeys. intros Hin. apply in_seq in Hin. lia.
  - intros kv Hin. destruct (in_nset _ _ _ _ Hin) as [H|H]; [apply Hpend, H|].
    subst kv. reflexivity.
Qed.

(** C4 (counterexample). With the default cap of 10 000, 10 001 promises
    created by application code and still pending are all tracked: the
    map holds 10 001 entries. *)
Lemma default_cap_exceeded :
  Tracker.maxTrackedPromises (Tracker.new_tracker 10000) = 10000 /\
  length (Tracker.promises (Tracker.truns (Tracker.new_tracker 10000) (user_inits 10001)))
  = 10001.
Proof.
  split; [reflexivity|].
  rewrite <- (length_map fst), (proj1 (user_inits_all_pending 10000 10001)).
  apply length_seq.
Qed.


Lemma mrun_snoc cm ss s :
  Metrics.mrun cm (app ss [s]) = Metrics.mstep (Metrics.mrun cm ss) s.
Proof. unfold Metrics.mrun. rewrite fold_left_app. reflexivity. Qed.






(** C9. [getHistogramStats] after recording 1..100 in order: the
    percentile indices [floor(100*k/100) = k] give p50 = 51, p95 = 96 and
    p99 = 100, not 50, 95 and 99; the average is 5050/100 = 50.5. *)
Theorem histogram_1_100_percentiles :
  Metrics.getHistogramStats hist_1_100 "h" None =
  Some {| Metrics.count := 100; Metrics.sum := 5050%Z; Metrics.avg := Qmake 5050 100;
          Metrics.min := 1%Z; Metrics.max := 100%Z;
          Metrics.p50 := 51%Z; Metrics.p95 := 96%Z; Metrics.p99 := 100%Z |}.
Proof. vm_compute. reflexivity. Qed.

(* ================================================================== *)
(** * Further properties of the code *)

(* ---------------- HealthChecker ---------------- *)

Lemma monitor_loop_spec ms s :
  Health.monitor_loop ms s =
  if existsb (fun nh => 10 <? Health.errors (snd nh)) ms then Health.st_unhealthy
  else if existsb (fun nh => 3 <? Health.errors (snd nh)) ms then Health.st_degraded
  else s.
Proof.
  revert s. induction ms as [|[n h] rest IH]; intros s; simpl; [reflexivity|].
  destruct (10 <? Health.errors h) eqn:E10; [reflexivity|].
  destruct (3 <? Health.errors h) eqn:E3; rewrite IH; simpl;
    repeat destruct (existsb _ rest); reflexivity.
Qed.

(** [getHealth()]'s status, read off the whole function: a heap above
    200 MiB gives unhealthy and one above 100 MiB degraded, whatever the
    monitors; otherwise a monitor with more than 10 errors gives
    unhealthy (the loop stops there), else one with more than 3 gives
    degraded, else healthy. *)
Theorem getHealth_status_table hc heap :
  Health.getHealth_status hc heap =
  if (200 * Health.MiB <? heap)%Z then Health.st_unhealthy
  else if (100 * Health.MiB <? heap)%Z then Health.st_degraded
  else if existsb (fun nh => 10 <? Health.errors (snd nh)) (Health.monitorHealth hc)
  then Health.st_unhealthy
  else if existsb (fun nh => 3 <? Health.errors (snd nh)) (Health.monitorHealth hc)
  then Health.st_degraded
  else Health.st_healthy.
Proof.
  unfold Health.getHealth_status. rewrite monitor_loop_spec.
  destruct (200 * Health.MiB <? heap)%Z; destruct (100 * Health.MiB <? heap)%Z; reflexivity.
Qed.

(** [isHealthy()] holds exactly when every monitor has at most 3
    recorded errors and the heap is at most 100 MiB. *)
Theorem isHealthy_iff hc heap now :
  Health.isHealthy hc heap now = true <->
  (forall n h, In (n, h) (Health.monitorHealth hc) -> Health.errors h <= 3) /\
  (heap <= 100 * Health.MiB)%Z.
Proof.
  unfold Health.isHealthy, Health.getHealth. cbn [Health.hs_status].
  rewrite getHealth_status_table. unfold Health.MiB.
  destruct (Z.ltb_spec (200 * 1048576) heap) as [Hh2|Hh2].
  { split; [discriminate | intros [_ Hh]; lia]. }
  destruct (Z.ltb_spec (100 * 1048576) heap) as [Hh1|Hh1].
  { split; [discriminate | intros [_ Hh]; lia]. }
  destruct (existsb (fun nh => 10 <? Health.errors (snd nh)) (Health.monitorHealth hc)) eqn:E10.
  { split; [discriminate|]. intros [H _].
    apply existsb_exists in E10 as [[n h] [Hin Hh]]. simpl in Hh.
    apply Nat.ltb_lt in Hh. specialize (H n h Hin). lia. }
  destruct (existsb (fun nh => 3 <? Health.errors (snd nh)) (Health.monitorHealth hc)) eqn:E3.
  { split; [discriminate|]. intros [H _].
    apply existsb_exists in E3 as [[n h] [Hin Hh]]. simpl in Hh.
    apply Nat.ltb_lt in Hh. specialize (H n h Hin). lia. }
  split; [intros _; split; [|lia] | reflexivity].
  intros n h Hin. destruct (Nat.le_gt_cases (Health.errors h) 3) as [Hle|Hgt]; [exact Hle|].
  exfalso. assert (Hex : existsb (fun nh => 3 <? Health.errors (snd nh)) (Health.monitorHealth hc) = true).
  { apply existsb_exists. exists (n, h). split; [exact Hin | apply Nat.ltb_lt; exact Hgt]. }
  congruence.
Qed.

Lemma amap_get_set {V} (m : list (string * V)) k v k' :
  amap_get (amap_set m k v) k' = if String.eqb k' k then Some v else amap_get m k'.
Proof.
  induction m as [|[k0 v0] rest IH]; simpl.
  - destruct (String.eqb k' k); reflexivity.
  - destruct (String.eqb_spec k k0) as [->|Hne]; simpl.
    + destruct (String.eqb k' k0); reflexivity.
    + destruct (String.eqb_spec k' k0) as [->|Hne'].
      * destruct (String.eqb_spec k0 k) as [E|]; [congruence | reflexivity].
      * exact IH.
Qed.

Lemma trailing_failures_snoc bs b :
  trailing_failures (app bs [b]) = if b then 0 else S (trailing_failures bs).
Proof. unfold trailing_failures. rewrite rev_app_distr. simpl. destruct b; reflexivity. Qed.

(** After a sequence of [recordMonitorCheck] calls, a monitor has an
    entry exactly when it was checked; its [errors] is the number of
    failures since its last success (the length of its final run of
    failures), [healthy] is its last outcome and [lastCheck] the time of
    its last check. *)
Theorem monitor_errors_count_trailing_failures t0 cs name :
  match amap_get (Health.monitorHealth (Health.record_checks (Health.new_HealthChecker t0) cs)) name with
  | None => outcomes_of name cs = []
  | Some h => outcomes_of name cs <> [] /\
              Health.healthy h = List.last (outcomes_of name cs) true /\
              Health.errors h = trailing_failures (outcomes_of name cs) /\
              Health.lastCheck h = List.last (times_of name cs) 0%Z
  end.
Proof.
  induction cs as [|[[n ok] now] cs IH] using rev_ind; [reflexivity|].
  unfold Health.record_checks in *. rewrite fold_left_app. simpl.
  unfold Health.recordMonitorCheck at 1. cbn [Health.monitorHealth].
  rewrite amap_get_set.
  unfold outcomes_of, times_of in *. rewrite !List.filter_app. simpl.
  destruct (String.eqb_spec name n) as [->|Hne].
  - rewrite String.eqb_refl. rewrite !map_app. simpl.
    split; [intros Hc; apply app_eq_nil in Hc as [_ Hc]; discriminate|].
    rewrite !last_last. split; [reflexivity|]. split; [|reflexivity].
    rewrite trailing_failures_snoc. destruct ok; [reflexivity|]. f_equal.
    destruct (amap_get _ n) as [h|]; [apply IH | rewrite IH; reflexivity].
  - destruct (String.eqb_spec n name) as [E|_]; [congruence|]. rewrite !app_nil_r. exact IH.
Qed.

(* ---------------- EventStore ---------------- *)

Lemma remove_first_absent name l ls :
  (forall l', In (name, l') ls -> Store.lid l' <> Store.lid l) ->
  Store.remove_first name l ls = ls.
Proof.
  induction ls as [|[n l'] rest IH]; intros H; simpl; [reflexivity|].
  destruct (String.eqb_spec n name) as [->|Hne]; simpl.
  - destruct (Nat.eqb_spec (Store.lid l') (Store.lid l)) as [E|_].
    + exfalso. exact (H l' (or_introl eq_refl) E).
    + f_equal. apply IH. intros l'' Hin. apply H. right. exact Hin.
  - f_equal. apply IH. intros l'' Hin. apply H. right. exact Hin.
Qed.

(** [off] undoes [on]: removing a listener right after registering it
    gives back the store; removing a listener that is not registered
    under that event name changes nothing. *)
Theorem off_after_on st name l :
  Store.off (Store.on st name l) name l = st /\
  (forall st', (forall l', In (name, l') (Store.listeners st') -> Store.lid l' <> Store.lid l) ->
               Store.off st' name l = st').
Proof.
  split.
  - destruct st as [evs cnt ls]. unfold Store.off, Store.on. simpl.
    rewrite rev_unit. simpl. rewrite String.eqb_refl, Nat.eqb_refl. simpl.
    rewrite rev_involutive. reflexivity.
  - intros [evs cnt ls] H. unfold Store.off. simpl in *.
    rewrite remove_first_absent; [rewrite rev_involutive; reflexivity|].
    intros l' Hin. apply H. apply in_rev. exact Hin.
Qed.

Lemma has_nonws_trim_left s : has_nonws (Store.trim_left s) = has_nonws s.
Proof.
  induction s as [|c r IH]; simpl; [reflexivity|].
  destruct (Store.is_ws c) eqn:E; simpl; [|reflexivity].
  rewrite IH. unfold has_nonws. simpl. rewrite E. reflexivity.
Qed.

Lemma existsb_rev {A} (f : A -> bool) l : existsb f (rev l) = existsb f l.
Proof.
  induction l as [|x l IH]; simpl; [reflexivity|].
  rewrite existsb_app, IH. simpl. rewrite orb_false_r, orb_comm. reflexivity.
Qed.

Lemma has_nonws_rev s : has_nonws (Store.string_rev s) = has_nonws s.
Proof.
  unfold has_nonws, Store.string_rev.
  rewrite String.list_ascii_of_string_of_list_ascii. apply existsb_rev.
Qed.

Lemma has_nonws_trim s : has_nonws (Store.trim s) = has_nonws s.
Proof.
  unfold Store.trim. rewrite has_nonws_rev, has_nonws_trim_left, has_nonws_rev, has_nonws_trim_left.
  reflexivity.
Qed.

Lemma has_nonws_not_empty s : has_nonws s = true -> s <> EmptyString.
Proof. intros H E. subst. discriminate. Qed.

Lemma includes_in hay c r :
  includes hay (String c r) = true -> In c (String.list_ascii_of_string hay).
Proof.
  induction hay as [|c0 rest IH]; simpl; [discriminate|].
  destruct (Ascii.ascii_dec c c0) as [->|_]; [intros _; left; reflexivity|].
  intros H. right. apply IH. exact H.
Qed.

(** [extractSource] never returns the empty string: with no stack it
    gives ['unknown'], a chosen frame line contains ['at '] and so keeps
    a character after trimming, and the fallback is ['unknown'] when the
    second line trims to nothing. *)
Theorem extractSource_nonempty stk : Store.extractSource stk <> EmptyString.
Proof.
  unfold Store.extractSource. destruct stk as [[|c r]|]; try discriminate.
  destruct (find _ _) as [l|] eqn:F.
  - apply find_some in F as [_ F].
    apply andb_prop in F as [F _]. apply andb_prop in F as [F _].
    apply has_nonws_not_empty. rewrite has_nonws_trim.
    apply includes_in in F. unfold has_nonws. apply existsb_exists.
    exists (Ascii.ascii_of_nat 97). split; [exact F | reflexivity].
  - destruct (nth_error _ 1) as [l|]; [|discriminate].
    destruct (Store.trim l); discriminate.
Qed.

Lemma events_emit_st st t d o now :
  Store.events (Store.emit_st st t d o now) =
  Store.push_ring (Store.events st) (Store.make_event (S (Store.eventCounter st)) t d o now).
Proof.
  unfold Store.emit_st, Store.emit.
  destruct (Store.ee_emit _ "event" _) as [c1 [|]]; simpl;
    [destruct (Store.ee_emit _ _ _) |]; reflexivity.
Qed.

Lemma ssorted_snoc {A} (R : A -> A -> Prop) l x :
  StronglySorted R l -> Forall (fun y => R y x) l -> StronglySorted R (app l [x]).
Proof.
  induction l as [|y l IH]; intros Hs Hf; simpl.
  - repeat constructor.
  - apply StronglySorted_inv in Hs as [Hs Hy]. inversion Hf; subst.
    constructor; [apply IH; assumption|].
    apply Forall_app. split; [exact Hy | constructor; [assumption | constructor]].
Qed.

Lemma push_ring_sorted evs e :
  StronglySorted (fun a b => (Store.timestamp a <= Store.timestamp b)%Z) evs ->
  Forall (fun a => (Store.timestamp a <= Store.timestamp e)%Z) evs ->
  StronglySorted (fun a b => (Store.timestamp a <= Store.timestamp b)%Z) (Store.push_ring evs e) /\
  Forall (fun a => (Store.timestamp a <= Store.timestamp e)%Z) (Store.push_ring evs e).
Proof.
  intros Hs Hf. unfold Store.push_ring.
  assert (Hs' := ssorted_snoc _ _ _ Hs Hf).
  assert (Hf' : Forall (fun a => (Store.timestamp a <= Store.timestamp e)%Z) (app evs [e])).
  { apply Forall_app. split; [exact Hf | constructor; [lia | constructor]]. }
  destruct (_ <? _); [|split; assumption].
  destruct (app evs [e]) as [|x rest]; simpl; [split; constructor|].
  apply StronglySorted_inv in Hs' as [Hs' _]. inversion Hf'; subst. split; assumption.
Qed.

Lemma srun_sorted st ss last :
  StronglySorted (fun a b => (Store.timestamp a <= Store.timestamp b)%Z) (Store.events st) ->
  Forall (fun a => (Store.timestamp a <= last)%Z) (Store.events st) ->
  emit_times_ok last ss ->
  StronglySorted (fun a b => (Store.timestamp a <= Store.timestamp b)%Z)
    (Store.events (fst (Aux.srun st ss))).
Proof.
  revert st last. induction ss as [|s ss IH]; intros st last Hs Hf Hok; simpl; [exact Hs|].
  destruct s as [t d o now | n l |]; simpl in Hok.
  - destruct Hok as [Hle Hok].
    destruct (Aux.srun (Store.emit_st st t d o now) ss) as [st' evs] eqn:E. simpl.
    replace st' with (fst (Aux.srun (Store.emit_st st t d o now) ss)) by (rewrite E; reflexivity).
    assert (Hf' : Forall (fun a => (Store.timestamp a <=
              Store.timestamp (Store.make_event (S (Store.eventCounter st)) t d o now))%Z)
              (Store.events st))
      by (eapply Forall_impl; [exact Hf|]; intros a Ha; cbv beta in Ha; unfold Store.make_event; cbn -[Z.le]; lia).
    destruct (push_ring_sorted _ _ Hs Hf') as [HS HF].
    apply (IH _ now); [rewrite events_emit_st; exact HS
                      | rewrite events_emit_st; exact HF | exact Hok].
  - apply (IH _ last); assumption.
  - apply (IH _ last); [constructor | constructor | exact Hok].
Qed.

Lemma filter_since_sorted since evs :
  StronglySorted (fun a b => (Store.timestamp a <= Store.timestamp b)%Z) evs ->
  List.filter (fun e => (since <=? Store.timestamp e)%Z) evs =
  skipn (length (List.filter (fun e => (Store.timestamp e <? since)%Z) evs)) evs.
Proof.
  induction evs as [|a evs IH]; intros Hs; simpl; [reflexivity|].
  apply StronglySorted_inv in Hs as [Hs Ha].
  destruct (Z.leb_spec since (Store.timestamp a)) as [H|H].
  - replace (Store.timestamp a <? since)%Z with false by (symmetry; apply Z.ltb_ge; lia).
    assert (Hall : Forall (fun e => (since <= Store.timestamp e)%Z) evs).
    { eapply Forall_impl; [exact Ha|]. intros e He. cbv beta in He. lia. }
    clear IH Hs Ha.
    assert (List.filter (fun e => (since <=? Store.timestamp e)%Z) evs = evs /\
            List.filter (fun e => (Store.timestamp e <? since)%Z) evs = []) as [E1 E2].
    { induction Hall as [|b evs Hb _ [IH1 IH2]]; simpl; [split; reflexivity|].
      replace (since <=? Store.timestamp b)%Z with true by (symmetry; apply Z.leb_le; lia).
      replace (Store.timestamp b <? since)%Z with false by (symmetry; apply Z.ltb_ge; lia).
      rewrite IH1, IH2. split; reflexivity. }
    rewrite E1, E2. reflexivity.
  - replace (Store.timestamp a <? since)%Z with true by (symmetry; apply Z.ltb_lt; lia).
    simpl. apply IH. exact Hs.
Qed.

(** When events are emitted at non-decreasing times, [getEvents({since})]
    returns the retained events from some position on: it drops exactly
    the events older than [since], and they all come first. *)
Theorem getEvents_since_suffix t0 ss since :
  emit_times_ok t0 ss ->
  let st := fst (Aux.srun Store.empty_store ss) in
  Store.getEvents st (Some (since_filter since)) =
  skipn (length (List.filter (fun e => (Store.timestamp e <? since)%Z) (Store.events st)))
        (Store.events st).
Proof.
  intros Hok st. unfold Store.getEvents. simpl.
  apply filter_since_sorted.
  apply (srun_sorted Store.empty_store ss t0); [constructor | constructor | exact Hok].
Qed.

Lemma getEvents_since_suffix_witness :
  emit_times_ok 0 [Aux.SEmit Store.SYSTEM_INFO [] Store.no_options 1;
                   Aux.SEmit Store.MEMORY_LEAK [] Store.no_options 5] /\
  let st := fst (Aux.srun Store.empty_store
                   [Aux.SEmit Store.SYSTEM_INFO [] Store.no_options 1;
                    Aux.SEmit Store.MEMORY_LEAK [] Store.no_options 5]) in
  Store.getEvents st (Some (since_filter 3)) =
  skipn (length (List.filter (fun e => (Store.timestamp e <? 3)%Z) (Store.events st)))
        (Store.events st).
Proof.
  assert (H : emit_times_ok 0 [Aux.SEmit Store.SYSTEM_INFO [] Store.no_options 1;
                               Aux.SEmit Store.MEMORY_LEAK [] Store.no_options 5])
    by (simpl; lia).
  split; [exact H | exact (getEvents_since_suffix 0 _ 3 H)].
Defined.

(** [removeRoute(n)] after [addRoute(r)]: the new route is removed with
    the others of name [n] when its name is [n]; otherwise the removal
    only affects the routes that were there before, and the new route
    stays last. *)
Theorem removeRoute_addRoute a r en n :
  Router.removeRoute (Router.addRoute a r en) n =
  if String.eqb (Router.r_name r) n then Router.removeRoute a n
  else Router.addRoute (Router.removeRoute a n) r en.
Proof.
  unfold Router.removeRoute, Router.addRoute. simpl.
  rewrite List.filter_app. simpl.
  destruct (String.eqb (Router.r_name r) n); simpl; rewrite ?app_nil_r; reflexivity.
Qed.

Lemma dispatch_spec rs key e now counts cache :
  (forall n, In n (snd (Router.dispatch rs key e now counts cache)) ->
     exists r, In r rs /\ Router.r_name r = n /\ Router.r_enabled r = true /\
       match Router.r_filter r with Some f => f e = true | None => True end /\
       Router.r_handler r now e = Store.Returned) /\
  (forall k, k <> key ->
     snd (fst (Router.dispatch rs key e now counts cache)) !! k = cache !! k) /\
  snd (fst (Router.dispatch rs key e now counts cache)) !! key =
    match snd (Router.dispatch rs key e now counts cache) with
    | [] => cache !! key
    | _ => Some now
    end.
Proof.
  revert counts cache. induction rs as [|r rs IH]; intros counts cache; simpl.
  - split; [intros n []|]. split; [reflexivity|reflexivity].
  - destruct (Router.r_enabled r) eqn:En; simpl.
    2:{ destruct (IH counts cache) as (H1 & H2 & H3). split; [|split; assumption].
        intros n Hn. destruct (H1 n Hn) as (r' & ? & ?). exists r'. tauto. }
    destruct (Router.r_filter r) as [f|] eqn:Ef;
      [destruct (f e) eqn:Hfe; simpl|]; cycle 1.
    { destruct (IH counts cache) as (H1 & H2 & H3). split; [|split; assumption].
      intros n Hn. destruct (H1 n Hn) as (r' & ? & ?). exists r'. tauto. }
    all: destruct (match Router.r_rateLimit r with
                   | Some lim => Router.checkRateLimit counts (Router.r_name r) lim now
                   | None => (true, counts) end) as [ok counts'];
         destruct ok; simpl;
         [| destruct (IH counts' cache) as (H1 & H2 & H3); split; [|split; assumption];
            intros n Hn; destruct (H1 n Hn) as (r' & ? & ?); exists r'; tauto].
    all: destruct (Router.r_handler r now e) eqn:Eh;
         [| destruct (IH counts' cache) as (H1 & H2 & H3); split; [|split; assumption];
            intros n Hn; destruct (H1 n Hn) as (r' & ? & ?); exists r'; tauto].
    all: destruct (IH counts' (<[key:=now]> cache)) as (H1 & H2 & H3);
         destruct (Router.dispatch rs key e now counts' (<[key:=now]> cache))
           as [[c ca] sent] eqn:Ed; simpl in *.
    all: split; [| split].
    1,4: intros n [<-|Hn]; [exists r; rewrite ?Ef; tauto
                           | destruct (H1 n Hn) as (r' & ? & ?); exists r'; tauto].
    1,3: intros k Hk; rewrite H2 by exact Hk; apply lookup_insert_ne; congruence.
    all: rewrite H3; destruct sent; [apply lookup_insert_eq | reflexivity].
Qed.

(** [route(event)] only reports routes of the router that are enabled,
    whose filter (if any) accepts the event and whose handler resolved.
    It leaves the routes unchanged, changes no deduplication entry but
    the event's key, and sets that key to the current time exactly when
    some handler resolved. *)
Theorem route_sends_only_enabled_accepting a e now :
  let '(a', sent) := Router.route a e now in
  let key := Router.getEventKey e in
  (forall n, In n sent ->
     exists r, In r (Router.routes a) /\ Router.r_name r = n /\
       Router.r_enabled r = true /\
       match Router.r_filter r with Some f => f e = true | None => True end /\
       Router.r_handler r now e = Store.Returned) /\
  Router.routes a' = Router.routes a /\
  (forall k, k <> key -> Router.deduplicationCache a' !! k = Router.deduplicationCache a !! k) /\
  Router.deduplicationCache a' !! key =
    match sent with [] => Router.deduplicationCache a !! key | _ => Some now end.
Proof.
  unfold Router.route.
  destruct (dispatch_spec (Router.routes a) (Router.getEventKey e) e now
              (Router.alertCounts a) (Router.deduplicationCache a)) as (H1 & H2 & H3).
  destruct (Router.dispatch (Router.routes a) (Router.getEventKey e) e now
              (Router.alertCounts a) (Router.deduplicationCache a)) as [[c ca] sent].
  simpl in *.
  destruct (Router.deduplicationCache a !! Router.getEventKey e) as [ls|] eqn:Ed;
    [destruct (negb (ls =? 0)%Z && (now - ls <? 300000)%Z)|]; simpl;
    (split; [|split; [|split]]); try tauto; try easy; congruence.
Qed.

Definition rl_accepted (R : list (Z * bool)) : list Z := map fst (List.filter snd R).

Lemma successes_in_accepted width w R :
  successes_in width w R = length (List.filter (in_window width w) (rl_accepted R)).
Proof.
  unfold successes_in, rl_accepted.
  induction R as [|[s b] R IH]; simpl; [reflexivity|].
  destruct b; simpl; [destruct (in_window width w s); simpl|]; rewrite ?IH; reflexivity.
Qed.

Lemma filter_length_mono {A} (f g : A -> bool) l :
  (forall x, In x l -> f x = true -> g x = true) ->
  length (List.filter f l) <= length (List.filter g l).
Proof.
  induction l as [|x l IH]; intros H; simpl; [lia|].
  destruct (f x) eqn:Ef.
  - rewrite (H x (or_introl eq_refl) Ef). simpl.
    apply le_n_S, IH. intros y Hy. apply H. right. exact Hy.
  - destruct (g x); simpl; [apply le_S|]; apply IH; intros y Hy; apply H; right; exact Hy.
Qed.

Lemma filter_window_compose (W tf t : Z) (l : list Z) :
  (tf <= t)%Z ->
  List.filter (fun s => (t - s <? W)%Z) (List.filter (fun s => (tf - s <? W)%Z) l) =
  List.filter (fun s => (t - s <? W)%Z) l.
Proof.
  intros Ht. induction l as [|s l IH]; simpl; [reflexivity|].
  destruct (Z.ltb_spec (tf - s) W) as [H1|H1]; simpl;
    destruct (Z.ltb_spec (t - s) W) as [H2|H2]; simpl; rewrite ?IH; try reflexivity; lia.
Qed.

Lemma filter_window_snoc (W t : Z) (l : list Z) :
  (0 < W)%Z ->
  List.filter (fun s => (t - s <? W)%Z) (app l [t]) =
  app (List.filter (fun s => (t - s <? W)%Z) l) [t].
Proof.
  intros HW. rewrite List.filter_app. simpl.
  replace (t - t <? W)%Z with true by (symmetry; apply Z.ltb_lt; lia). reflexivity.
Qed.

(** What the shared entry of [name] holds after the accepted checks [S],
    the last check being at [tf]. *)
Definition rl_inv (counts : gmap string (list Z * list Z)) (name : string)
    (S : list Z) (tf : Z) : Prop :=
  match counts !! name with
  | None => S = []
  | Some (pm, ph) =>
      pm = List.filter (fun s => (tf - s <? 60000)%Z) S /\
      ph = List.filter (fun s => (tf - s <? 3600000)%Z) S
  end.

Lemma checkRateLimit_shared_inv counts name lim S tf t :
  rl_inv counts name S tf -> (tf <= t)%Z ->
  let '(ok, counts') := Router.checkRateLimit_shared counts name lim t in
  rl_inv counts' name (if ok then app S [t] else S) t /\
  (ok = true ->
   length (List.filter (fun s => (t - s <? 60000)%Z) S) < Router.maxPerMinute lim /\
   length (List.filter (fun s => (t - s <? 3600000)%Z) S) < Router.maxPerHour lim).
Proof.
  unfold rl_inv, Router.checkRateLimit_shared. intros Hinv Ht.
  destruct (counts !! name) as [[pm0 ph0]|] eqn:Ec.
  - destruct Hinv as [-> ->].
    rewrite !(filter_window_compose _ tf t) by exact Ht.
    destruct (Nat.leb_spec (Router.maxPerMinute lim)
                (length (List.filter (fun s => (t - s <? 60000)%Z) S))) as [Hm|Hm].
    { rewrite lookup_insert_eq. split; [split; reflexivity | discriminate]. }
    destruct (Nat.leb_spec (Router.maxPerHour lim)
                (length (List.filter (fun s => (t - s <? 3600000)%Z) S))) as [Hh|Hh].
    { rewrite lookup_insert_eq. split; [split; reflexivity | discriminate]. }
    rewrite lookup_insert_eq.
    rewrite !filter_window_snoc by lia. split; [split; reflexivity | intros _; lia].
  - subst S. simpl.
    destruct (Nat.leb_spec (Router.maxPerMinute lim) 0) as [Hm|Hm].
    { rewrite Ec. split; [reflexivity | discriminate]. }
    destruct (Nat.leb_spec (Router.maxPerHour lim) 0) as [Hh|Hh].
    { rewrite Ec. split; [reflexivity | discriminate]. }
    rewrite lookup_insert_eq. simpl.
    rewrite Z.sub_diag. simpl.
    split; [split; reflexivity | intros _; lia].
Qed.

Lemma window_count_snoc (W w t tf : Z) (S : list Z) (M : nat) :
  Forall (fun s => (s <= tf)%Z) S -> (tf <= t)%Z ->
  length (List.filter (fun s => (t - s <? W)%Z) S) < M ->
  length (List.filter (in_window W w) (app S [t])) <=
  Nat.max (length (List.filter (in_window W w) S)) M.
Proof.
  intros HS Ht HM. rewrite List.filter_app, length_app. simpl.
  unfold in_window at 2.
  destruct (Z.ltb_spec (w - W) t) as [H1|H1]; destruct (Z.leb_spec t w) as [H2|H2];
    simpl; try lia.
  enough (length (List.filter (in_window W w) S) <=
          length (List.filter (fun s => (t - s <? W)%Z) S)) by lia.
  apply filter_length_mono. intros s Hs Hw.
  rewrite List.Forall_forall in HS. specialize (HS s Hs).
  unfold in_window in Hw. apply andb_prop in Hw as [Hw1 Hw2].
  apply Z.ltb_lt in Hw1. apply Z.leb_le in Hw2. apply Z.ltb_lt. lia.
Qed.

Lemma rl_run_bound counts name lim ts S tf :
  rl_inv counts name S tf -> Forall (fun s => (s <= tf)%Z) S ->
  StronglySorted Z.le ts -> Forall (fun t => (tf <= t)%Z) ts ->
  forall w,
  length (List.filter (in_window 60000 w) (app S (rl_accepted (rl_run counts name lim ts)))) <=
    Nat.max (length (List.filter (in_window 60000 w) S)) (Router.maxPerMinute lim) /\
  length (List.filter (in_window 3600000 w) (app S (rl_accepted (rl_run counts name lim ts)))) <=
    Nat.max (length (List.filter (in_window 3600000 w) S)) (Router.maxPerHour lim).
Proof.
  revert counts S tf. induction ts as [|t ts IH]; intros counts S tf Hinv HS Hsort Hts w.
  - simpl. rewrite app_nil_r. lia.
  - apply StronglySorted_inv in Hsort as [Hsort Ht].
    inversion Hts as [|? ? Htf _]; subst.
    pose proof (checkRateLimit_shared_inv counts name lim S tf t Hinv Htf) as Hstep.
    simpl. destruct (Router.checkRateLimit_shared counts name lim t) as [ok counts'].
    destruct Hstep as [Hinv' Hok].
    assert (HS' : Forall (fun s => (s <= t)%Z) (if ok then app S [t] else S)).
    { assert (Forall (fun s => (s <= t)%Z) S)
        by (eapply Forall_impl; [exact HS|]; intros s Hs; cbv beta in Hs; lia).
      destruct ok; [apply Forall_app; split; [assumption | constructor; [lia | constructor]]
                   | assumption]. }
    destruct (IH counts' _ t Hinv' HS' Hsort Ht w) as [Hm Hh].
    destruct ok; unfold rl_accepted in *; simpl.
    + destruct (Hok eq_refl) as [Hm1 Hh1].
      rewrite <- app_assoc in Hm, Hh. cbn [app] in Hm, Hh.
      pose proof (window_count_snoc 60000 w t tf S _ HS Htf Hm1).
      pose proof (window_count_snoc 3600000 w t tf S _ HS Htf Hh1).
      split; lia.
    + exact (conj Hm Hh).
Qed.

(** [checkRateLimit] on one route, called at non-decreasing times and
    starting with no entry for it: in any window of one minute (one hour)
    it accepts at most [maxPerMinute] ([maxPerHour]) calls. *)
Theorem rate_limit_window counts name lim ts w :
  counts !! name = None -> Sorted Z.le ts ->
  successes_in 60000 w (rl_run counts name lim ts) <= Router.maxPerMinute lim /\
  successes_in 3600000 w (rl_run counts name lim ts) <= Router.maxPerHour lim.
Proof.
  intros Hc Hs. rewrite !successes_in_accepted.
  set (tf := match ts with t :: _ => t | [] => 0%Z end).
  assert (Hinv : rl_inv counts name [] tf) by (unfold rl_inv; rewrite Hc; reflexivity).
  apply Sorted_StronglySorted in Hs; [|intros x y z; lia].
  assert (Hts : Forall (fun t => (tf <= t)%Z) ts).
  { subst tf. destruct ts as [|t ts]; constructor; [lia|].
    apply StronglySorted_inv in Hs as [_ Hs]. exact Hs. }
  destruct (rl_run_bound counts name lim ts [] tf Hinv (List.Forall_nil _) Hs Hts w)
    as [Hm Hh].
  simpl in Hm, Hh. lia.
Qed.

Lemma rate_limit_window_witness :
  (∅ : gmap string (list Z * list Z)) !! "slack" = None /\
  Sorted Z.le [1000; 2000; 3000; 70000]%Z /\
  successes_in 60000 3000
    (rl_run ∅ "slack" {| Router.maxPerMinute := 2; Router.maxPerHour := 3 |}
       [1000; 2000; 3000; 70000]%Z) <= 2 /\
  successes_in 3600000 3000
    (rl_run ∅ "slack" {| Router.maxPerMinute := 2; Router.maxPerHour := 3 |}
       [1000; 2000; 3000; 70000]%Z) <= 3.
Proof.
  assert (Hs : Sorted Z.le [1000; 2000; 3000; 70000]%Z)
    by (repeat constructor; lia).
  split; [reflexivity | split; [exact Hs|]].
  exact (rate_limit_window ∅ "slack" {| Router.maxPerMinute := 2; Router.maxPerHour := 3 |}
           _ 3000 eq_refl Hs).
Defined.

Lemma string_app_cons c (a b : string) : String c a ++ b = String c (a ++ b).
Proof. reflexivity. Qed.

Lemma las_app (a b : string) :
  String.list_ascii_of_string (a ++ b) =
  app (String.list_ascii_of_string a) (String.list_ascii_of_string b).
Proof.
  induction a as [|c a IH]; [reflexivity|].
  rewrite string_app_cons. simpl. rewrite IH. reflexivity.
Qed.

Lemma string_app_assoc (a b c : string) : (a ++ b) ++ c = a ++ (b ++ c).
Proof.
  induction a as [|x a IH]; [reflexivity|].
  rewrite !string_app_cons, IH. reflexivity.
Qed.

Lemma string_app_nil_r (a : string) : a ++ EmptyString = a.
Proof. induction a as [|x a IH]; [reflexivity|]. rewrite string_app_cons, IH. reflexivity. Qed.

Lemma split_lines_app a b cur :
  ~ In (Ascii.ascii_of_nat 10) (String.list_ascii_of_string a) ->
  Store.split_lines (a ++ nl ++ b) cur = (cur ++ a) :: Store.split_lines b EmptyString.
Proof.
  revert cur. induction a as [|c a IH]; intros cur Hn.
  - change (EmptyString ++ nl ++ b) with (String (Ascii.ascii_of_nat 10) b).
    rewrite string_app_nil_r. simpl. reflexivity.
  - rewrite string_app_cons. simpl in Hn |- *.
    destruct (Ascii.eqb_spec c (Ascii.ascii_of_nat 10)) as [E|E];
      [exfalso; apply Hn; left; exact E|].
    rewrite IH by tauto. rewrite string_app_assoc. reflexivity.
Qed.

Lemma digits_value_app acc l1 l2 :
  StackParse.digits_value acc (app l1 l2) =
  StackParse.digits_value (StackParse.digits_value acc l1) l2.
Proof. revert acc. induction l1 as [|c l1 IH]; intros acc; simpl; [reflexivity | apply IH]. Qed.

Lemma is_digit_ascii_of_nat k :
  k < 10 -> StackParse.is_digit (Ascii.ascii_of_nat (48 + k)) = true /\
            Ascii.nat_of_ascii (Ascii.ascii_of_nat (48 + k)) - 48 = k.
Proof.
  intros Hk. unfold StackParse.is_digit.
  rewrite Ascii.nat_ascii_embedding by lia.
  split; [apply andb_true_intro; split; apply Nat.leb_le; lia | lia].
Qed.

Lemma dec_digits_spec fuel n acc :
  n < fuel ->
  exists ds, String.list_ascii_of_string (dec_digits fuel n acc) =
             app ds (String.list_ascii_of_string acc) /\
    ds <> [] /\ forallb StackParse.is_digit ds = true /\
    StackParse.digits_value 0 ds = Z.of_nat n.
Proof.
  revert n acc. induction fuel as [|f IH]; intros n acc Hn; [lia|].
  cbn [dec_digits].
  destruct (is_digit_ascii_of_nat (n mod 10)) as [Hd Hv];
    [apply Nat.mod_upper_bound; lia|].
  set (d := Ascii.ascii_of_nat (48 + n mod 10)) in *. clearbody d.
  destruct (Nat.ltb_spec n 10) as [Hlt|Hge].
  - exists [d]. rewrite las_app. split; [reflexivity|]. split; [discriminate|].
    cbn [forallb]. rewrite Hd. split; [reflexivity|].
    cbn [StackParse.digits_value]. rewrite Hv, Nat.mod_small by lia. lia.
  - destruct (IH (n / 10) (String d EmptyString ++ acc)) as (ds & E & Hne & Hdig & Hval).
    { assert (n / 10 < n) by (apply Nat.div_lt; lia). lia. }
    exists (app ds [d]).
    rewrite E, las_app, <- app_assoc. split; [reflexivity|].
    split; [destruct ds; discriminate|].
    rewrite forallb_app, Hdig. cbn [forallb]. rewrite Hd. split; [reflexivity|].
    rewrite digits_value_app, Hval. cbn [StackParse.digits_value]. rewrite Hv.
    pose proof (Nat.div_mod_eq n 10). lia.
Qed.

Lemma nat_to_string_digits n :
  exists ds, String.list_ascii_of_string (nat_to_string n) = ds /\
    ds <> [] /\ forallb StackParse.is_digit ds = true /\
    StackParse.digits_value 0 ds = Z.of_nat n.
Proof.
  destruct (dec_digits_spec (S n) n EmptyString) as (ds & E & H); [lia|].
  exists ds. unfold nat_to_string. rewrite E. simpl. rewrite app_nil_r. tauto.
Qed.

Lemma digit_not_special c :
  StackParse.is_digit c = true ->
  c <> StackParse.ch 10 /\ c <> StackParse.ch 40 /\ c <> StackParse.ch 41 /\
  c <> StackParse.ch 58.
Proof.
  unfold StackParse.is_digit, StackParse.ch. intros H.
  apply andb_prop in H as [H1 H2]. apply Nat.leb_le in H1, H2.
  repeat split; intros ->; rewrite Ascii.nat_ascii_embedding in H1, H2 by lia; lia.
Qed.

Lemma upto_close_app l post :
  ~ In (StackParse.ch 41) l ->
  StackParse.upto_close (app l (StackParse.ch 41 :: post)) = Some l.
Proof.
  induction l as [|c l IH]; intros H; simpl.
  - reflexivity.
  - destruct (Ascii.eqb_spec c (StackParse.ch 41)) as [E|E];
      [exfalso; apply H; left; exact E|].
    rewrite IH by (intros Hin; apply H; right; exact Hin). reflexivity.
Qed.

Lemma split_colon_app l r :
  ~ In (StackParse.ch 58) l ->
  StackParse.split_colon (app l (StackParse.ch 58 :: r)) = Some (l, r).
Proof.
  induction l as [|c l IH]; intros H; simpl.
  - reflexivity.
  - destruct (Ascii.eqb_spec c (StackParse.ch 58)) as [E|E];
      [exfalso; apply H; left; exact E|].
    rewrite IH by (intros Hin; apply H; right; exact Hin). reflexivity.
Qed.

Lemma digits_no ds k :
  forallb StackParse.is_digit ds = true ->
  k = 10 \/ k = 40 \/ k = 41 \/ k = 58 -> ~ In (StackParse.ch k) ds.
Proof.
  intros Hd Hk Hin. rewrite forallb_forall in Hd.
  destruct (digit_not_special _ (Hd _ Hin)) as (H1 & H2 & H3 & H4).
  destruct Hk as [ -> | [ -> | [ -> | -> ]]]; tauto.
Qed.

Lemma first_match_none l :
  ~ In (StackParse.ch 40) l -> StackParse.first_match l = None.
Proof.
  induction l as [|c l IH]; intros H; simpl; [reflexivity|].
  destruct (Ascii.eqb_spec c (StackParse.ch 40)) as [E|E];
    [exfalso; apply H; left; exact E|].
  apply IH. intros Hin; apply H; right; exact Hin.
Qed.

Lemma forallb_rev {A} (f : A -> bool) l : forallb f (rev l) = forallb f l.
Proof.
  induction l as [|x l IH]; simpl; [reflexivity|].
  rewrite forallb_app, IH. simpl. rewrite andb_true_r, andb_comm. reflexivity.
Qed.

Lemma first_match_frame pre f ns cs post :
  ~ In (StackParse.ch 40) pre -> f <> [] -> ~ In (StackParse.ch 41) f ->
  ns <> [] -> forallb StackParse.is_digit ns = true ->
  cs <> [] -> forallb StackParse.is_digit cs = true ->
  StackParse.first_match
    (app pre (StackParse.ch 40 :: app f (StackParse.ch 58 :: app ns
       (StackParse.ch 58 :: app cs (StackParse.ch 41 :: post))))) = Some (f, ns).
Proof.
  intros Hpre Hf Hf' Hn Hnd Hc Hcd.
  induction pre as [|p pre IH]; cbn [app StackParse.first_match].
  2:{ destruct (Ascii.eqb_spec p (StackParse.ch 40)) as [E|E];
        [exfalso; apply Hpre; left; exact E|].
      apply IH. intros Hin; apply Hpre; right; exact Hin. }
  rewrite (proj2 (Ascii.eqb_eq _ _) eq_refl).
  replace (app f (StackParse.ch 58 :: app ns (StackParse.ch 58 :: app cs (StackParse.ch 41 :: post))))
    with (app (app f (StackParse.ch 58 :: app ns (StackParse.ch 58 :: cs))) (StackParse.ch 41 :: post))
    by (rewrite <- !app_assoc; simpl; rewrite <- !app_assoc; reflexivity).
  rewrite upto_close_app.
  2:{ pose proof (digits_no ns 41 Hnd ltac:(tauto)). pose proof (digits_no cs 41 Hcd ltac:(tauto)).
      not_in_app. }
  unfold StackParse.match_segment.
  rewrite rev_app_distr. simpl. rewrite rev_app_distr. simpl.
  rewrite <- !app_assoc. simpl.
  rewrite split_colon_app by (rewrite <- in_rev; apply (digits_no cs 58 Hcd); tauto).
  rewrite forallb_rev, Hcd, length_rev. simpl.
  destruct (length cs) eqn:Lc; [destruct cs; [congruence | discriminate] | simpl].
  rewrite split_colon_app by (rewrite <- in_rev; apply (digits_no ns 58 Hnd); tauto).
  rewrite forallb_rev, Hnd, !length_rev. simpl.
  destruct (length ns) eqn:Ln; [destruct ns; [congruence | discriminate] | simpl].
  destruct (length f) eqn:Lf; [destruct f; [congruence | discriminate] | simpl].
  rewrite !rev_involutive. reflexivity.
Qed.

(** [parseStack] on a stack whose first line has no ['('] and whose
    second line is a frame [    at fn (file:line:col)]: it returns that
    file and line number, provided the file is non-empty, has no [')'] and
    none of the excluded markers. *)
Theorem parseStack_frame excluded msg fn f n c rest :
  ~ In (StackParse.ch 10) (String.list_ascii_of_string msg) ->
  ~ In (StackParse.ch 40) (String.list_ascii_of_string msg) ->
  ~ In (StackParse.ch 10) (String.list_ascii_of_string fn) ->
  ~ In (StackParse.ch 40) (String.list_ascii_of_string fn) ->
  f <> EmptyString ->
  ~ In (StackParse.ch 10) (String.list_ascii_of_string f) ->
  ~ In (StackParse.ch 41) (String.list_ascii_of_string f) ->
  existsb (includes f) excluded = false ->
  StackParse.parseStack excluded
    (msg ++ nl ++ "    at " ++ fn ++ " (" ++ f ++ ":" ++ nat_to_string n ++ ":" ++
     nat_to_string c ++ ")" ++ nl ++ rest) = (Some f, Some (Z.of_nat n)).
Proof.
  intros Hm1 Hm2 Hfn1 Hfn2 Hf0 Hf1 Hf2 Hex.
  destruct (nat_to_string_digits n) as (ns & En & Hn & Hnd & Hnv).
  destruct (nat_to_string_digits c) as (cs & Ec & Hc & Hcd & _).
  unfold StackParse.parseStack.
  rewrite split_lines_app by exact Hm1.
  set (line := "    at " ++ fn ++ " (" ++ f ++ ":" ++ nat_to_string n ++ ":" ++
               nat_to_string c ++ ")").
  replace ("    at " ++ fn ++ " (" ++ f ++ ":" ++ nat_to_string n ++ ":" ++
           nat_to_string c ++ ")" ++ nl ++ rest) with (line ++ nl ++ rest)
    by (subst line; rewrite !string_app_assoc; reflexivity).
  assert (Hline : String.list_ascii_of_string line =
    app (app (String.list_ascii_of_string "    at ") (app (String.list_ascii_of_string fn) [StackParse.ch 32]))
      (StackParse.ch 40 :: app (String.list_ascii_of_string f) (StackParse.ch 58 :: app ns
        (StackParse.ch 58 :: app cs (StackParse.ch 41 :: []))))).
  { subst line. rewrite !las_app, En, Ec. simpl. rewrite <- !app_assoc. reflexivity. }
  rewrite split_lines_app.
  2:{ rewrite Hline.
      pose proof (digits_no ns 10 Hnd ltac:(tauto)). pose proof (digits_no cs 10 Hcd ltac:(tauto)).
      change (Ascii.ascii_of_nat 10) with (StackParse.ch 10).
      not_in_app. }
  change (EmptyString ++ msg) with msg. change (EmptyString ++ line) with line.
  clearbody line. simpl. rewrite first_match_none by exact Hm2.
  rewrite Hline, first_match_frame; try assumption.
  - rewrite String.string_of_list_ascii_of_string, Hex, Hnv. reflexivity.
  - not_in_app.
  - destruct f; [congruence | discriminate].
Qed.

Lemma parseStack_frame_witness :
  StackParse.parseStack ["node_modules"; "node:internal"]
    ("Error" ++ nl ++ "    at " ++ "handler" ++ " (" ++ "/app/src/server.ts" ++ ":" ++
     nat_to_string 10 ++ ":" ++ nat_to_string 3 ++ ")" ++ nl ++ EmptyString) =
  (Some "/app/src/server.ts", Some (Z.of_nat 10)).
Proof.
  apply (parseStack_frame ["node_modules"; "node:internal"] "Error" "handler"
           "/app/src/server.ts" 10 3 EmptyString);
    try not_in_app; reflexivity.
Defined.

Lemma match_segment_some seg f d :
  StackParse.match_segment seg = Some (f, d) -> f <> [].
Proof.
  unfold StackParse.match_segment.
  destruct (StackParse.split_colon (rev seg)) as [[d2 rest]|]; [|discriminate].
  destruct (negb (forallb StackParse.is_digit d2) || (length d2 =? 0)); [discriminate|].
  destruct (StackParse.split_colon rest) as [[d1 x]|]; [|discriminate].
  destruct (negb (forallb StackParse.is_digit d1) || (length d1 =? 0) || (length x =? 0))
    eqn:E; [discriminate|].
  intros Hs. injection Hs as <- _. intros Hx.
  apply orb_false_iff in E as [_ E].
  apply (f_equal (@rev _)) in Hx. rewrite rev_involutive in Hx. subst x. discriminate.
Qed.

Lemma first_match_some l f d :
  StackParse.first_match l = Some (f, d) -> f <> [].
Proof.
  induction l as [|c l IH]; simpl; [discriminate|].
  destruct (Ascii.eqb c (StackParse.ch 40));
    [destruct (StackParse.upto_close l) as [seg|];
       [destruct (StackParse.match_segment seg) as [[f' d']|] eqn:Em|]|].
  - intros Hs. injection Hs as -> ->. exact (match_segment_some _ _ _ Em).
  - exact IH.
  - exact IH.
  - exact IH.
Qed.

Lemma digits_value_nonneg acc l :
  (0 <= acc)%Z -> (0 <= StackParse.digits_value acc l)%Z.
Proof.
  revert acc. induction l as [|c l IH]; intros acc Ha; simpl; [exact Ha|].
  apply IH. lia.
Qed.

(** [parseStack] returns both a file and a line or neither; a returned
    file is non-empty and contains none of the excluded markers, and the
    line is a non-negative number. *)
Theorem parseStack_result excluded stk :
  StackParse.parseStack excluded stk = (None, None) \/
  exists f n, StackParse.parseStack excluded stk = (Some f, Some n) /\
    f <> EmptyString /\ existsb (includes f) excluded = false /\ (0 <= n)%Z.
Proof.
  unfold StackParse.parseStack.
  generalize (Store.split_lines stk EmptyString) as ls.
  induction ls as [|ln ls IH]; [left; reflexivity|]. simpl.
  destruct (StackParse.first_match (String.list_ascii_of_string ln)) as [[f d]|] eqn:Em;
    [|exact IH].
  destruct (existsb (includes (String.string_of_list_ascii f)) excluded) eqn:Ex;
    [exact IH|].
  right. exists (String.string_of_list_ascii f), (StackParse.digits_value 0 d).
  split; [reflexivity|]. split; [|split; [exact Ex | apply digits_value_nonneg; lia]].
  apply first_match_some in Em. destruct f; [congruence | discriminate].
Qed.

Definition created_le (a b : nat * Tracker.TrackedPromise) : Prop :=
  (Tracker.createdAt (snd a) <= Tracker.createdAt (snd b))%Z.

Lemma insert_by_created_perm x l :
  Permutation (Tracker.insert_by_created x l) (x :: l).
Proof.
  induction l as [|y l IH]; simpl; [reflexivity|].
  destruct (_ <? _)%Z; [reflexivity|].
  etransitivity; [apply perm_skip, IH | apply perm_swap].
Qed.

Lemma sort_by_created_perm_acc l acc :
  Permutation (fold_left (fun acc x => Tracker.insert_by_created x acc) l acc) (app l acc).
Proof.
  revert acc. induction l as [|x l IH]; intros acc; simpl; [reflexivity|].
  etransitivity; [apply IH|].
  etransitivity; [apply Permutation_app_head, insert_by_created_perm|].
  symmetry. apply Permutation_middle.
Qed.

Lemma sort_by_created_perm l : Permutation (Tracker.sort_by_created l) l.
Proof.
  unfold Tracker.sort_by_created. rewrite sort_by_created_perm_acc, app_nil_r. reflexivity.
Qed.

Lemma insert_by_created_sorted x l :
  StronglySorted created_le l -> StronglySorted created_le (Tracker.insert_by_created x l).
Proof.
  unfold created_le. induction l as [|y l IH]; intros Hs; simpl.
  - repeat constructor.
  - apply StronglySorted_inv in Hs as [Hs Hy].
    destruct (Z.ltb_spec (Tracker.createdAt (snd x)) (Tracker.createdAt (snd y))) as [Hlt|Hge].
    + constructor; [constructor; assumption|].
      constructor; [lia|]. eapply Forall_impl; [exact Hy|]. intros z Hz. cbv beta in Hz. lia.
    + constructor; [apply IH; exact Hs|].
      apply List.Forall_forall. intros z Hz. apply insert_by_created_in in Hz as [->|Hz]; [lia|].
      rewrite List.Forall_forall in Hy. exact (Hy z Hz).
Qed.

Lemma sort_by_created_sorted l : StronglySorted created_le (Tracker.sort_by_created l).
Proof.
  unfold Tracker.sort_by_created.
  assert (G : forall acc, StronglySorted created_le acc ->
    StronglySorted created_le (fold_left (fun acc x => Tracker.insert_by_created x acc) l acc)).
  { induction l as [|x l IH]; intros acc H; simpl; [exact H|].
    apply IH, insert_by_created_sorted, H. }
  apply G. constructor.
Qed.

Lemma ssorted_map_snd {A B} (P : B -> B -> Prop) (l : list (A * B)) :
  StronglySorted (fun a b => P (snd a) (snd b)) l -> StronglySorted P (map snd l).
Proof.
  induction l as [|x l IH]; intros Hs; simpl; [constructor|].
  apply StronglySorted_inv in Hs as [Hs Hx]. constructor; [apply IH, Hs|].
  apply Forall_map. exact Hx.
Qed.

Lemma map_snd_filter {A B} (f : B -> bool) (l : list (A * B)) :
  map snd (List.filter (fun kv => f (snd kv)) l) = List.filter f (map snd l).
Proof.
  induction l as [|x l IH]; simpl; [reflexivity|].
  destruct (f (snd x)); simpl; rewrite IH; reflexivity.
Qed.

(** [getPendingPromises()] returns exactly the pending entries of the
    map (as a permutation of them), ordered by creation time. *)
Theorem getPendingPromises_sorted t :
  Permutation (Tracker.getPendingPromises t)
    (List.filter Tracker.is_pending (map snd (Tracker.promises t))) /\
  StronglySorted (fun p q => (Tracker.createdAt p <= Tracker.createdAt q)%Z)
    (Tracker.getPendingPromises t).
Proof.
  unfold Tracker.getPendingPromises. split.
  - rewrite <- map_snd_filter. apply Permutation_map, sort_by_created_perm.
  - apply ssorted_map_snd, sort_by_created_sorted.
Qed.

Lemma filter_length_le {A} (f : A -> bool) l : length (List.filter f l) <= length l.
Proof. induction l as [|x l IH]; simpl; [lia|]. destruct (f x); simpl; lia. Qed.

(** [getStats()]: [suspiciousCount <= pending <= total]; [oldestPending]
    is the age of the oldest pending promise: no pending promise is older,
    some pending promise has exactly that age, and it is 0 when nothing is
    pending. *)
Theorem getStats_bounds t now :
  let s := Tracker.getStats t now in
  Tracker.suspiciousCount s <= Tracker.pendingN s <= Tracker.total s /\
  (forall p, In p (map snd (Tracker.promises t)) -> Tracker.is_pending p = true ->
     (now - Tracker.createdAt p <= Tracker.oldestPending s)%Z) /\
  (Tracker.pendingN s = 0 -> Tracker.oldestPending s = 0%Z) /\
  (Tracker.pendingN s <> 0 ->
     exists p, In p (map snd (Tracker.promises t)) /\ Tracker.is_pending p = true /\
       Tracker.oldestPending s = (now - Tracker.createdAt p)%Z).
Proof.
  destruct (getPendingPromises_sorted t) as [Hp Hs].
  unfold Tracker.getStats. cbv zeta. cbn [Tracker.suspiciousCount Tracker.pendingN
    Tracker.total Tracker.oldestPending].
  split; [|split; [|split]].
  - split; [apply filter_length_le|].
    rewrite (Permutation_length Hp).
    rewrite <- (length_map snd (Tracker.promises t)). apply filter_length_le.
  - intros p Hin Hpend.
    assert (Hq : In p (Tracker.getPendingPromises t)).
    { apply (Permutation_in _ (Permutation_sym Hp)). apply filter_In. split; assumption. }
    destruct (Tracker.getPendingPromises t) as [|h rest]; [contradiction|].
    apply StronglySorted_inv in Hs as [_ Hh].
    destruct Hq as [->|Hq]; [lia|].
    rewrite List.Forall_forall in Hh. specialize (Hh p Hq). cbv beta in Hh. lia.
  - destruct (Tracker.getPendingPromises t); [reflexivity | discriminate].
  - intros Hn. destruct (Tracker.getPendingPromises t) as [|h rest] eqn:E; [simpl in Hn; lia|].
    assert (Hh : In h (List.filter Tracker.is_pending (map snd (Tracker.promises t)))).
    { apply (Permutation_in _ Hp). left. reflexivity. }
    apply filter_In in Hh. exists h. tauto.
Qed.

Lemma in_ndelete_other {V} (m : list (nat * V)) k kv :
  In kv m -> fst kv <> k -> In kv (Tracker.ndelete m k).
Proof.
  induction m as [|[k' v'] m IH]; simpl; [auto|].
  intros [<-|H] Hk.
  - simpl in Hk. destruct (Nat.eqb_spec k k'); [congruence | left; reflexivity].
  - destruct (k =? k'); [exact H | right; apply IH; assumption].
Qed.

Lemma length_ndelete_in {V} (m : list (nat * V)) k :
  In k (map fst m) -> S (length (Tracker.ndelete m k)) = length m.
Proof.
  induction m as [|[k' v'] m IH]; simpl; [contradiction|].
  intros H. destruct (Nat.eqb_spec k k'); [reflexivity|].
  simpl. rewrite IH; [reflexivity|]. destruct H; [congruence | assumption].
Qed.

Lemma in_ndelete_key {V} (m : list (nat * V)) k kv :
  List.NoDup (map fst m) -> In kv (Tracker.ndelete m k) -> fst kv <> k.
Proof.
  induction m as [|[k' v'] m IH]; simpl; [contradiction|].
  intros Hnd. inversion Hnd as [|? ? Hn Hnd']; subst.
  destruct (Nat.eqb_spec k k') as [->|Hne].
  - intros Hin Heq. apply Hn. rewrite <- Heq. apply in_map. exact Hin.
  - intros [<-|Hin]; [simpl; congruence | apply IH; assumption].
Qed.

Lemma nodup_key_unique {V} (m : list (nat * V)) x y :
  List.NoDup (map fst m) -> In x m -> In y m -> fst x = fst y -> x = y.
Proof.
  intros Hnd Hx Hy E. destruct x as [kx vx], y as [ky vy]. simpl in E. subst ky.
  pose proof (in_nget m kx vx Hnd Hx) as H1. pose proof (in_nget m kx vy Hnd Hy) as H2.
  rewrite H1 in H2. injection H2 as ->. reflexivity.
Qed.

Lemma delete_all_length_exact {V} (L m : list (nat * V)) :
  List.NoDup (map fst L) -> (forall kv, In kv L -> In kv m) ->
  length (delete_all L m) = length m - length L.
Proof.
  revert m. induction L as [|x L IH]; intros m Hnd Hin; simpl; [lia|].
  inversion Hnd as [|? ? Hx Hnd']; subst.
  unfold delete_all in *. simpl. rewrite IH; [|exact Hnd'|].
  - pose proof (length_ndelete_in m (fst x)) as H.
    assert (In (fst x) (map fst m)) by (apply in_map, Hin; left; reflexivity).
    specialize (H ltac:(assumption)). lia.
  - intros kv Hkv. apply in_ndelete_other; [apply Hin; right; exact Hkv|].
    intros E. apply Hx. rewrite <- E. apply in_map. exact Hkv.
Qed.

Lemma in_delete_all_iff {V} (L m : list (nat * V)) kv :
  List.NoDup (map fst m) ->
  In kv (delete_all L m) <-> In kv m /\ ~ In (fst kv) (map fst L).
Proof.
  revert m. induction L as [|x L IH]; intros m Hnd; simpl; [tauto|].
  unfold delete_all in *. simpl. rewrite IH by (apply nodup_ndelete; exact Hnd).
  split.
  - intros [H1 H2]. split; [exact (in_ndelete _ _ _ H1)|].
    intros [E|E]; [exact (in_ndelete_key _ _ _ Hnd H1 (eq_sym E)) | exact (H2 E)].
  - intros [H1 H2]. split; [apply in_ndelete_other; [exact H1 | intros E; apply H2; left; symmetry; exact E]|].
    intros E. apply H2. right. exact E.
Qed.

Lemma ssorted_app_cross {A} (R : A -> A -> Prop) l1 l2 a b :
  StronglySorted R (app l1 l2) -> In a l1 -> In b l2 -> R a b.
Proof.
  induction l1 as [|x l1 IH]; simpl; [contradiction|].
  intros Hs Ha Hb. apply StronglySorted_inv in Hs as [Hs Hx].
  destruct Ha as [<-|Ha]; [|exact (IH Hs Ha Hb)].
  rewrite List.Forall_forall in Hx. apply Hx, in_or_app. right. exact Hb.
Qed.

Lemma cleanup_spec m :
  List.NoDup (map fst m) ->
  let n := length (List.filter (fun kv => negb (Tracker.is_pending (snd kv))) m) in
  length (Tracker.cleanupOldPromises m) = length m - n / 5 /\
  (forall kv, In kv (Tracker.cleanupOldPromises m) -> In kv m) /\
  (forall kv, In kv m -> Tracker.is_pending (snd kv) = true ->
     In kv (Tracker.cleanupOldPromises m)) /\
  (forall kv kv', In kv m -> ~ In kv (Tracker.cleanupOldPromises m) ->
     In kv' (Tracker.cleanupOldPromises m) -> Tracker.is_pending (snd kv') = false ->
     (Tracker.createdAt (snd kv) <= Tracker.createdAt (snd kv'))%Z).
Proof.
  intros Hnd n. rewrite cleanup_is_delete_all. cbv zeta.
  set (F := List.filter (fun kv => negb (Tracker.is_pending (snd kv))) m) in *.
  set (S := Tracker.sort_by_created F).
  set (r := length S / 5).
  assert (HSF : Permutation S F) by apply sort_by_created_perm.
  assert (HlenS : length S = n) by (apply Permutation_length; exact HSF).
  assert (HndS : List.NoDup (map fst S)).
  { apply (Permutation_NoDup (Permutation_sym (Permutation_map fst HSF))).
    apply nodup_filter_keys. exact Hnd. }
  assert (HndL : List.NoDup (map fst (firstn r S))).
  { rewrite <- (firstn_skipn r S), map_app in HndS. exact (NoDup_app_remove_r _ _ HndS). }
  assert (HLm : forall kv, In kv (firstn r S) -> In kv m).
  { intros kv H. apply in_firstn_in, sort_by_created_in, filter_In in H. apply H. }
  assert (HLnp : forall kv, In kv (firstn r S) -> Tracker.is_pending (snd kv) = false).
  { intros kv H. apply in_firstn_in, sort_by_created_in, filter_In in H.
    destruct H as [_ H]. destruct (Tracker.is_pending (snd kv)); [discriminate | reflexivity]. }
  assert (Hkey : forall kv, In kv m -> In (fst kv) (map fst (firstn r S)) ->
                 In kv (firstn r S)).
  { intros kv Hkv Hk. apply in_map_iff in Hk as [x [Ex Hx]].
    rewrite (nodup_key_unique m kv x Hnd Hkv (HLm x Hx) (eq_sym Ex)). exact Hx. }
  split; [|split; [|split]].
  - rewrite delete_all_length_exact by assumption.
    rewrite length_firstn. unfold r. rewrite HlenS. f_equal. apply Nat.min_l.
    apply Nat.Div0.div_le_upper_bound. lia.
  - intros kv H. apply (in_delete_all_iff _ _ _ Hnd) in H. apply H.
  - intros kv Hkv Hp. apply (in_delete_all_iff _ _ _ Hnd). split; [exact Hkv|].
    intros Hk. specialize (HLnp kv (Hkey kv Hkv Hk)). congruence.
  - intros kv kv' Hkv Hout Hin' Hnp'.
    apply (in_delete_all_iff _ _ _ Hnd) in Hin'.
    assert (Hout' : ~ (In kv m /\ ~ In (fst kv) (map fst (firstn r S))))
      by (intros Hc; apply Hout, (in_delete_all_iff _ _ _ Hnd), Hc).
    clear Hout. rename Hout' into Hout.
    assert (HkL : In kv (firstn r S)).
    { apply Hkey; [exact Hkv|]. destruct (in_dec Nat.eq_dec (fst kv) (map fst (firstn r S)));
        [assumption | exfalso; apply Hout; split; assumption]. }
    assert (Hk'S : In kv' S).
    { apply (Permutation_in _ (Permutation_sym HSF)). apply filter_In.
      split; [apply Hin' | rewrite Hnp'; reflexivity]. }
    rewrite <- (firstn_skipn r S) in Hk'S. apply in_app_or in Hk'S as [Hk'|Hk'].
    + exfalso. apply (proj2 Hin'). apply in_map. exact Hk'.
    + pose proof (sort_by_created_sorted F) as Hs. fold S in Hs.
      rewrite <- (firstn_skipn r S) in Hs.
      exact (ssorted_app_cross _ _ _ _ _ Hs HkL Hk').
Qed.

(** [cleanupOldPromises()] on a map with distinct keys: it removes
    [floor(n / 5)] entries, [n] being the number of settled (non-pending)
    entries; it keeps every pending entry and changes none; and no removed
    entry was created after a settled entry that is kept. *)
Theorem cleanup_removes_oldest_fifth m :
  List.NoDup (map fst m) ->
  let n := length (List.filter (fun kv => negb (Tracker.is_pending (snd kv))) m) in
  length (Tracker.cleanupOldPromises m) = length m - n / 5 /\
  (forall kv, In kv (Tracker.cleanupOldPromises m) -> In kv m) /\
  (forall kv, In kv m -> Tracker.is_pending (snd kv) = true ->
     In kv (Tracker.cleanupOldPromises m)) /\
  (forall kv kv', In kv m -> ~ In kv (Tracker.cleanupOldPromises m) ->
     In kv' (Tracker.cleanupOldPromises m) -> Tracker.is_pending (snd kv') = false ->
     (Tracker.createdAt (snd kv) <= Tracker.createdAt (snd kv'))%Z).
Proof. exact (cleanup_spec m). Qed.

Lemma cleanup_removes_oldest_fifth_witness :
  List.NoDup (map fst settled_map) /\
  let n := length (List.filter (fun kv => negb (Tracker.is_pending (snd kv))) settled_map) in
  length (Tracker.cleanupOldPromises settled_map) = length settled_map - n / 5 /\
  (forall kv, In kv (Tracker.cleanupOldPromises settled_map) -> In kv settled_map) /\
  (forall kv, In kv settled_map -> Tracker.is_pending (snd kv) = true ->
     In kv (Tracker.cleanupOldPromises settled_map)) /\
  (forall kv kv', In kv settled_map -> ~ In kv (Tracker.cleanupOldPromises settled_map) ->
     In kv' (Tracker.cleanupOldPromises settled_map) -> Tracker.is_pending (snd kv') = false ->
     (Tracker.createdAt (snd kv) <= Tracker.createdAt (snd kv'))%Z).
Proof.
  assert (H : List.NoDup (map fst settled_map))
    by (cbn; repeat constructor; cbn; intuition lia).
  split; [exact H | exact (cleanup_removes_oldest_fifth _ H)].
Defined.

Lemma tstep_max t s :
  Tracker.maxTrackedPromises (Tracker.tstep t s) = Tracker.maxTrackedPromises t.
Proof.
  destruct s as [aid ty trig stk now | aid | aid | now ok |]; simpl; try reflexivity.
  - unfold Tracker.onInit. destruct (negb _); [reflexivity|].
    destruct (Tracker.parse stk) as [file line].
    destruct (StackParse.isGuardianInternal file); reflexivity.
  - unfold Tracker.onDestroy. destruct (Tracker.nget _ _) as [p|]; [|reflexivity].
    destruct (Tracker.is_pending p); reflexivity.
Qed.

Lemma truns_max t ss :
  Tracker.maxTrackedPromises (Tracker.truns t ss) = Tracker.maxTrackedPromises t.
Proof.
  unfold Tracker.truns. revert t. induction ss as [|s ss IH]; intros t; simpl; [reflexivity|].
  rewrite IH. apply tstep_max.
Qed.

(** C4 (amended). From any reachable state of a tracker created with
    [maxTracked = maxT], [onInit] never drops a pending entry and grows
    the map by at most one entry. For a promise created by application
    code while the map holds at least [maxT] entries, [onInit] first runs
    [cleanupOldPromises()] and then inserts the new pending entry: the
    cleanup removes [floor(n / 5)] entries, [n] being the number of
    non-pending ones, all of them non-pending and none created after a
    non-pending entry that is kept; so when fewer than 5 entries are
    non-pending (in particular when all are pending) the map grows past
    [maxT] by one. *)
Theorem onInit_cleanup_then_insert maxT ss aid ty trig stk now :
  let t := Tracker.truns (Tracker.new_tracker maxT) ss in
  let m := Tracker.promises t in
  let t' := Tracker.onInit t aid ty trig stk now in
  let n := length (List.filter (fun kv => negb (Tracker.is_pending (snd kv))) m) in
  (forall k p, Tracker.nget m k = Some p -> Tracker.is_pending p = true ->
     Tracker.nget (Tracker.promises t') k <> None) /\
  length (Tracker.promises t') <= S (length m) /\
  (String.eqb ty "PROMISE" = true ->
   StackParse.isGuardianInternal (fst (Tracker.parse stk)) = false ->
   maxT <= length m ->
   Tracker.promises t' =
     Tracker.nset (Tracker.cleanupOldPromises m) aid
       {| Tracker.asyncId := aid; Tracker.ptype := ty; Tracker.triggerAsyncId := trig;
          Tracker.createdAt := now; Tracker.pstack := stk; Tracker.status := Tracker.pending;
          Tracker.pfile := fst (Tracker.parse stk); Tracker.pline := snd (Tracker.parse stk) |} /\
   length (Tracker.cleanupOldPromises m) = length m - n / 5 /\
   (forall kv, In kv m -> ~ In kv (Tracker.cleanupOldPromises m) ->
      Tracker.is_pending (snd kv) = false) /\
   (forall kv kv', In kv m -> ~ In kv (Tracker.cleanupOldPromises m) ->
      In kv' (Tracker.cleanupOldPromises m) -> Tracker.is_pending (snd kv') = false ->
      (Tracker.createdAt (snd kv) <= Tracker.createdAt (snd kv'))%Z) /\
   (n < 5 -> ~ In aid (map fst m) -> length (Tracker.promises t') = S (length m))).
Proof.
  intros t m t' n.
  destruct (truns_ok _ ss (new_tracker_ok maxT)) as [Hnd _]. fold t m in Hnd.
  assert (Hmax : Tracker.maxTrackedPromises t = maxT) by (unfold t; apply truns_max).
  split; [|split].
  - intros k p Hg Hp. unfold t', Tracker.onInit.
    destruct (negb (String.eqb ty "PROMISE")); [fold m; rewrite Hg; discriminate|].
    destruct (Tracker.parse stk) as [file line].
    destruct (StackParse.isGuardianInternal file); [fold m; rewrite Hg; discriminate|].
    simpl. fold m. rewrite nget_nset. destruct (k =? aid); [discriminate|].
    destruct (_ <=? _).
    + rewrite (cleanup_keeps_pending _ _ _ Hnd Hg Hp). discriminate.
    + rewrite Hg. discriminate.
  - unfold t', Tracker.onInit.
    destruct (negb (String.eqb ty "PROMISE")); [fold m; lia|].
    destruct (Tracker.parse stk) as [file line].
    destruct (StackParse.isGuardianInternal file); [fold m; lia|].
    simpl. fold m. eapply Nat.le_trans; [apply length_nset|].
    destruct (_ <=? _); [pose proof (cleanup_length m)|]; lia.
  - intros Hty Hint Hcap.
    destruct (cleanup_spec m Hnd) as (C1 & C2 & C3 & C4).
    assert (E : Tracker.promises t' =
      Tracker.nset (Tracker.cleanupOldPromises m) aid
        {| Tracker.asyncId := aid; Tracker.ptype := ty; Tracker.triggerAsyncId := trig;
           Tracker.createdAt := now; Tracker.pstack := stk; Tracker.status := Tracker.pending;
           Tracker.pfile := fst (Tracker.parse stk); Tracker.pline := snd (Tracker.parse stk) |}).
    { unfold t', Tracker.onInit. rewrite Hty. cbn [negb].
      destruct (Tracker.parse stk) as [file line]. simpl in Hint |- *. rewrite Hint.
      rewrite Hmax. fold m. replace (maxT <=? length m) with true
        by (symmetry; apply Nat.leb_le; exact Hcap).
      reflexivity. }
    split; [exact E|]. split; [exact C1|]. split; [|split; [exact C4|]].
    + intros kv Hkv Hout. destruct (Tracker.is_pending (snd kv)) eqn:Hp; [|reflexivity].
      exfalso. exact (Hout (C3 kv Hkv Hp)).
    + intros Hn Hfresh. rewrite E, length_nset_fresh.
      * fold n in C1. rewrite C1. replace (n / 5) with 0 by (symmetry; apply Nat.div_small; exact Hn).
        lia.
      * intros Hin. apply Hfresh. apply in_map_iff in Hin as [kv [Ek Hkv]].
        rewrite <- Ek. apply in_map. exact (C2 kv Hkv).
Qed.

Lemma onInit_cleanup_then_insert_witness :
  let ss1 := app (user_inits 6) (map Tracker.TDestroy (seq 1 5)) in
  let m1 := Tracker.promises (Tracker.truns (Tracker.new_tracker 6) ss1) in
  let ss2 := app (user_inits 2) [Tracker.TDestroy 1] in
  let t2 := Tracker.truns (Tracker.new_tracker 2) ss2 in
  length m1 = 6 /\
  length (List.filter (fun kv => negb (Tracker.is_pending (snd kv))) m1) = 5 /\
  length (Tracker.cleanupOldPromises m1) = 5 /\
  length (Tracker.promises t2) = 2 /\
  length (Tracker.promises (Tracker.onInit t2 3 "PROMISE" 0 user_stack 0)) = 3.
Proof.
  intros ss1 m1 ss2 t2.
  assert (L1 : length m1 = 6) by (vm_compute; reflexivity).
  assert (N1 : length (List.filter (fun kv => negb (Tracker.is_pending (snd kv))) m1) = 5)
    by (vm_compute; reflexivity).
  assert (L2 : length (Tracker.promises t2) = 2) by (vm_compute; reflexivity).
  assert (Hint : StackParse.isGuardianInternal (fst (Tracker.parse user_stack)) = false)
    by (vm_compute; reflexivity).
  destruct (onInit_cleanup_then_insert 6 ss1 7 "PROMISE" 0 user_stack 0)
    as (_ & _ & P1).
  destruct (P1 eq_refl Hint ltac:(fold m1; lia)) as (_ & C1 & _).
  destruct (onInit_cleanup_then_insert 2 ss2 3 "PROMISE" 0 user_stack 0)
    as (_ & _ & P2).
  destruct (P2 eq_refl Hint ltac:(fold t2; lia)) as (_ & _ & _ & _ & G2).
  split; [exact L1|]. split; [exact N1|].
  split; [fold m1 in C1; rewrite C1, L1, N1; reflexivity|].
  split; [exact L2|].
  fold t2 in G2. rewrite G2, L2; [reflexivity | vm_compute; lia |].
  vm_compute. intuition discriminate.
Defined.

Lemma nget_notin {V} (m : list (nat * V)) k :
  ~ In k (map fst m) -> Tracker.nget m k = None.
Proof.
  induction m as [|[k' v'] m IH]; simpl; [reflexivity|].
  intros H. destruct (Nat.eqb_spec k k'); [exfalso; apply H; left; congruence|].
  apply IH. tauto.
Qed.

Lemma nget_ndelete_same {V} (m : list (nat * V)) k :
  List.NoDup (map fst m) -> Tracker.nget (Tracker.ndelete m k) k = None.
Proof.
  induction m as [|[k' v'] m IH]; simpl; [reflexivity|].
  intros Hnd. inversion Hnd as [|? ? Hn Hnd']; subst.
  destruct (Nat.eqb_spec k k') as [->|Hne]; [apply nget_notin; exact Hn|].
  simpl. rewrite (proj2 (Nat.eqb_neq k k') Hne). apply IH. exact Hnd'.
Qed.

Lemma delete_all_nget_cases {V} (L m : list (nat * V)) k :
  List.NoDup (map fst m) ->
  Tracker.nget (delete_all L m) k = Tracker.nget m k \/
  Tracker.nget (delete_all L m) k = None.
Proof.
  revert m. induction L as [|x L IH]; intros m Hnd; [left; reflexivity|].
  unfold delete_all in *. simpl.
  destruct (IH (Tracker.ndelete m (fst x)) (nodup_ndelete _ _ Hnd)) as [H|H];
    [|right; exact H].
  rewrite H. destruct (Nat.eq_dec k (fst x)) as [->|Hne].
  - right. apply nget_ndelete_same. exact Hnd.
  - left. apply nget_ndelete_other. exact Hne.
Qed.

Lemma tstep_settled t s k p :
  tracker_ok t -> Tracker.is_pending p = false -> reinit k s = false ->
  (Tracker.nget (Tracker.promises t) k = None \/ Tracker.nget (Tracker.promises t) k = Some p) ->
  Tracker.nget (Tracker.promises (Tracker.tstep t s)) k = None \/
  Tracker.nget (Tracker.promises (Tracker.tstep t s)) k = Some p.
Proof.
  intros [Hnd _] Hp Hr Hk.
  destruct s as [aid ty trig stk now | aid | aid | now e |];
    cbn [Tracker.tstep reinit Tracker.with_promises Tracker.promises] in Hr |- *.
  - apply Nat.eqb_neq in Hr. unfold Tracker.onInit.
    destruct (negb (String.eqb ty "PROMISE")); [exact Hk|].
    destruct (Tracker.parse stk) as [file line].
    destruct (StackParse.isGuardianInternal file); [exact Hk|]. simpl.
    rewrite nget_nset. destruct (Nat.eqb_spec k aid) as [E|_]; [congruence|].
    destruct (_ <=? _); [|exact Hk].
    rewrite cleanup_is_delete_all. cbv zeta.
    destruct (delete_all_nget_cases
                (firstn (length (Tracker.sort_by_created (List.filter
                   (fun kv => negb (Tracker.is_pending (snd kv))) (Tracker.promises t))) / 5)
                   (Tracker.sort_by_created (List.filter
                   (fun kv => negb (Tracker.is_pending (snd kv))) (Tracker.promises t))))
                (Tracker.promises t) k Hnd) as [E|E]; rewrite E; [exact Hk | left; reflexivity].
  - unfold Tracker.onDestroy.
    destruct (Tracker.nget (Tracker.promises t) aid) as [q|] eqn:Eq; [|exact Hk].
    destruct (Tracker.is_pending q) eqn:Hq; [|exact Hk].
    unfold Tracker.with_promises. simpl. rewrite nget_nset.
    destruct (Nat.eqb_spec k aid) as [->|_]; [|exact Hk].
    rewrite Eq in Hk. destruct Hk as [Hk|Hk]; [discriminate|]. injection Hk as ->. congruence.
  - destruct (Nat.eq_dec k aid) as [->|Hne].
    + left. apply nget_ndelete_same. exact Hnd.
    + rewrite nget_ndelete_other by exact Hne. exact Hk.
  - unfold Tracker.checkForDeadlocks, Tracker.with_promises. cbn [Tracker.promises].
    rewrite deadlock_loop_nget_other; [exact Hk|].
    intros Hin. apply in_map_iff in Hin as [[k' q] [Ek Hin]]. simpl in Ek. subst k'.
    apply sort_by_created_in, filter_In in Hin as [Hin Hq]. simpl in Hq.
    rewrite (in_nget _ _ _ Hnd Hin) in Hk.
    destruct Hk as [Hk|Hk]; [discriminate|]. injection Hk as ->. congruence.
  - left. reflexivity.
Qed.

Lemma truns_settled t ss k p :
  tracker_ok t -> Tracker.is_pending p = false ->
  forallb (fun s => negb (reinit k s)) ss = true ->
  (Tracker.nget (Tracker.promises t) k = None \/ Tracker.nget (Tracker.promises t) k = Some p) ->
  Tracker.nget (Tracker.promises (Tracker.truns t ss)) k = None \/
  Tracker.nget (Tracker.promises (Tracker.truns t ss)) k = Some p.
Proof.
  revert t. induction ss as [|s ss IH]; intros t Hok Hp Hss Hk; [exact Hk|].
  simpl in Hss. apply andb_prop in Hss as [Hs Hss]. apply negb_true_iff in Hs.
  apply (IH (Tracker.tstep t s)); [apply tstep_ok, Hok | exact Hp | exact Hss |].
  apply tstep_settled; assumption.
Qed.

(** Once an entry of the PromiseTracker is resolved or rejected, it is
    never changed again: until its async id is initialised anew, the
    entry either stays exactly as it is or is removed. *)
Theorem settled_entry_never_changes maxT ss1 ss2 k p :
  Tracker.nget (Tracker.promises (Tracker.truns (Tracker.new_tracker maxT) ss1)) k = Some p ->
  Tracker.is_pending p = false ->
  forallb (fun s => negb (reinit k s)) ss2 = true ->
  let t' := Tracker.truns (Tracker.truns (Tracker.new_tracker maxT) ss1) ss2 in
  Tracker.nget (Tracker.promises t') k = None \/ Tracker.nget (Tracker.promises t') k = Some p.
Proof.
  intros Hg Hp Hss t'. apply truns_settled; [apply truns_ok, new_tracker_ok | exact Hp
                                          | exact Hss | right; exact Hg].
Qed.

Lemma settled_entry_never_changes_witness :
  let ss1 := [Tracker.TInit 1 "PROMISE" 0 user_stack 0; Tracker.TDestroy 1] in
  let ss2 := [Tracker.TCheck 100000 (fun _ => true); Tracker.TInit 2 "PROMISE" 0 user_stack 5] in
  let p := Tracker.set_status (mk_promise 1 0) Tracker.resolved in
  Tracker.nget (Tracker.promises (Tracker.truns (Tracker.new_tracker 10) ss1)) 1 = Some p /\
  (let t' := Tracker.truns (Tracker.truns (Tracker.new_tracker 10) ss1) ss2 in
   Tracker.nget (Tracker.promises t') 1 = None \/ Tracker.nget (Tracker.promises t') 1 = Some p).
Proof.
  cbv zeta.
  assert (H : Tracker.nget (Tracker.promises (Tracker.truns (Tracker.new_tracker 10)
                [Tracker.TInit 1 "PROMISE" 0 user_stack 0; Tracker.TDestroy 1])) 1 =
              Some (Tracker.set_status (mk_promise 1 0) Tracker.resolved))
    by (vm_compute; reflexivity).
  split; [exact H|].
  exact (settled_entry_never_changes 10 _ [Tracker.TCheck 100000 (fun _ => true);
           Tracker.TInit 2 "PROMISE" 0 user_stack 5] 1 _ H eq_refl eq_refl).
Defined.

(** The ids in the detector's map never exceed [promiseCounter]. *)
Definition det_keys_le (d : Detector.UnawaitedPromiseDetector) : Prop :=
  forall j, In j (map fst (Detector.trackedPromises d)) -> j <= Detector.promiseCounter d.

Lemma in_keys_nset {V} (m : list (nat * V)) k v j :
  In j (map fst (Tracker.nset m k v)) -> In j (map fst m) \/ j = k.
Proof.
  intros H. apply in_map_iff in H as [[j' v'] [E H]]. simpl in E. subst j'.
  destruct (in_nset _ _ _ _ H) as [H'|H'].
  - left. apply in_map_iff. exists (j, v'). split; [reflexivity | exact H'].
  - right. congruence.
Qed.

Lemma dstep_keys_le d s : det_keys_le d -> det_keys_le (Detector.dstep d s).
Proof.
  unfold det_keys_le. intros H.
  destruct s as [stk now | i | now e | i |]; cbn [Detector.dstep].
  - rewrite construct_eq. destruct (Detector.parse stk) as [file line].
    destruct (StackParse.isGuardianInternal file); [exact H|]. simpl.
    intros j Hj. destruct (in_keys_nset _ _ _ _ Hj) as [Hj'| ->]; [specialize (H j Hj'); lia | lia].
  - unfold Detector.mark_awaited.
    destruct (Tracker.nget (Detector.trackedPromises d) i) as [c|] eqn:Eg; [|exact H].
    simpl. intros j Hj. destruct (in_keys_nset _ _ _ _ Hj) as [Hj'| ->]; [exact (H j Hj')|].
    apply H. apply nget_in in Eg. apply in_map_iff. exists (i, c). split; [reflexivity | exact Eg].
  - simpl. intros j Hj. apply H. apply in_map_iff in Hj as [kv [E Hkv]].
    apply check_loop_in in Hkv. apply in_map_iff. exists kv. split; [exact E | exact Hkv].
  - simpl. intros j Hj. apply H. apply in_map_iff in Hj as [kv [E Hkv]].
    apply in_ndelete in Hkv. apply in_map_iff. exists kv. split; [exact E | exact Hkv].
  - simpl. contradiction.
Qed.

Lemma druns_keys_le d ds : det_keys_le d -> det_keys_le (Detector.druns d ds).
Proof.
  revert d. induction ds as [|s ds IH]; intros d H; [exact H|].
  apply (IH (Detector.dstep d s)). apply dstep_keys_le. exact H.
Qed.

Lemma new_detector_keys_le : det_keys_le Detector.new_detector.
Proof. intros j []. Qed.

Lemma dstep_awaited d s i c :
  det_keys_le d -> Detector.isAwaited c = true -> drops i s = false ->
  Tracker.nget (Detector.trackedPromises d) i = Some c ->
  Tracker.nget (Detector.trackedPromises (Detector.dstep d s)) i = Some c.
Proof.
  intros Hle Ha Hd Hg.
  destruct s as [stk now | j | now e | j |]; cbn [Detector.dstep drops] in Hd |- *.
  - rewrite construct_eq. destruct (Detector.parse stk) as [file line].
    destruct (StackParse.isGuardianInternal file); [exact Hg|]. simpl.
    rewrite nget_nset. destruct (Nat.eqb_spec i (S (Detector.promiseCounter d))) as [E|_];
      [|exact Hg].
    exfalso. assert (Hi : In i (map fst (Detector.trackedPromises d))).
    { apply in_map_iff. exists (i, c). split; [reflexivity | apply nget_in, Hg]. }
    specialize (Hle i Hi). lia.
  - unfold Detector.mark_awaited.
    destruct (Tracker.nget (Detector.trackedPromises d) j) as [c'|] eqn:Eg; [|exact Hg].
    simpl. rewrite nget_nset. destruct (Nat.eqb_spec i j) as [->|_]; [|exact Hg].
    rewrite Eg in Hg. injection Hg as ->. destruct c; simpl in *. subst. reflexivity.
  - apply check_loop_nget_awaited; assumption.
  - simpl. rewrite nget_ndelete_other; [exact Hg|]. apply Nat.eqb_neq in Hd. congruence.
  - discriminate.
Qed.

(** In the UnawaitedPromiseDetector, an entry once marked awaited (by
    [then], [catch] or [finally]) stays in the tracked map, unchanged, and
    so is never reported by [checkUnawaitedPromises], until its own
    cleanup timer deletes it or [stop()] clears the map. *)
Theorem awaited_stays_tracked ds1 ds2 i c :
  Tracker.nget (Detector.trackedPromises (Detector.druns Detector.new_detector ds1)) i = Some c ->
  Detector.isAwaited c = true ->
  forallb (fun s => negb (drops i s)) ds2 = true ->
  Tracker.nget (Detector.trackedPromises
    (Detector.druns (Detector.druns Detector.new_detector ds1) ds2)) i = Some c.
Proof.
  intros Hg Ha Hss.
  pose proof (druns_keys_le _ ds1 new_detector_keys_le) as Hle.
  revert Hg Hle.
  generalize (Detector.druns Detector.new_detector ds1) as d.
  induction ds2 as [|s ds2 IH]; intros d Hg Hle; [exact Hg|].
  simpl in Hss. apply andb_prop in Hss as [Hs Hss]. apply negb_true_iff in Hs.
  apply (IH Hss (Detector.dstep d s)); [apply dstep_awaited; assumption | apply dstep_keys_le, Hle].
Qed.

Definition awaited_entry : Detector.TrackedPromiseCreation :=
  {| Detector.cid := 1; Detector.cstack := user_stack; Detector.ccreatedAt := 0;
     Detector.cfile := Some "/app/src/server.ts"; Detector.cline := Some 10%Z;
     Detector.isAwaited := true |}.

Lemma awaited_stays_tracked_witness :
  Tracker.nget (Detector.trackedPromises
    (Detector.druns Detector.new_detector [Detector.DCreate user_stack 0; Detector.DAwait 1])) 1 =
    Some awaited_entry /\
  Tracker.nget (Detector.trackedPromises
    (Detector.druns (Detector.druns Detector.new_detector
                       [Detector.DCreate user_stack 0; Detector.DAwait 1])
       [Detector.DCheck 100000 (fun _ _ => true); Detector.DCreate user_stack 5])) 1 = Some awaited_entry.
Proof.
  assert (H : Tracker.nget (Detector.trackedPromises
    (Detector.druns Detector.new_detector [Detector.DCreate user_stack 0; Detector.DAwait 1])) 1 =
    Some awaited_entry) by (vm_compute; reflexivity).
  split; [exact H|].
  exact (awaited_stays_tracked _ [Detector.DCheck 100000 (fun _ _ => true); Detector.DCreate user_stack 5]
           1 awaited_entry H eq_refl eq_refl).
Defined.

(** The patched [Promise] constructor, on a stack outside the monitor's
    own code, from any reachable state: it increments [promiseCounter] and
    files the new promise under the new counter value, an id not in use,
    appended after the existing ids, leaving every other entry as it was.
    The new entry is already marked awaited: the constructor's own
    [promise.then(...)] for the cleanup goes through the wrapped [then]. *)
Theorem construct_fresh_id ds stk now :
  let d := Detector.druns Detector.new_detector ds in
  StackParse.isGuardianInternal (fst (Detector.parse stk)) = false ->
  let d' := Detector.construct d stk now in
  let i := S (Detector.promiseCounter d) in
  Detector.promiseCounter d' = i /\
  ~ In i (map fst (Detector.trackedPromises d)) /\
  map fst (Detector.trackedPromises d') = app (map fst (Detector.trackedPromises d)) [i] /\
  (forall j, j <> i ->
     Tracker.nget (Detector.trackedPromises d') j = Tracker.nget (Detector.trackedPromises d) j) /\
  Tracker.nget (Detector.trackedPromises d') i =
    Some {| Detector.cid := i; Detector.cstack := stk; Detector.ccreatedAt := now;
            Detector.cfile := fst (Detector.parse stk); Detector.cline := snd (Detector.parse stk);
            Detector.isAwaited := true |}.
Proof.
  intros d Hint d' i.
  pose proof (druns_keys_le _ ds new_detector_keys_le) as Hle. fold d in Hle.
  assert (Hfresh : ~ In i (map fst (Detector.trackedPromises d)))
    by (intros Hi; specialize (Hle i Hi); unfold i in Hle; lia).
  unfold d'. rewrite construct_eq.
  destruct (Detector.parse stk) as [file line]. simpl in Hint. rewrite Hint.
  cbn [Detector.promiseCounter Detector.trackedPromises fst snd].
  split; [reflexivity|]. split; [exact Hfresh|].
  split; [apply keys_nset_fresh; exact Hfresh|].
  split.
  - intros j Hj. rewrite nget_nset. unfold i in Hj.
    destruct (Nat.eqb_spec j (S (Detector.promiseCounter d))); [congruence | reflexivity].
  - rewrite nget_nset, Nat.eqb_refl. reflexivity.
Qed.

Lemma construct_fresh_id_witness :
  StackParse.isGuardianInternal (fst (Detector.parse user_stack)) = false /\
  Detector.promiseCounter (Detector.construct
    (Detector.druns Detector.new_detector [Detector.DCreate user_stack 0]) user_stack 7) = 2 /\
  option_map Detector.isAwaited
    (Tracker.nget (Detector.trackedPromises (Detector.construct
       (Detector.druns Detector.new_detector [Detector.DCreate user_stack 0]) user_stack 7)) 2)
  = Some true.
Proof.
  assert (H : StackParse.isGuardianInternal (fst (Detector.parse user_stack)) = false)
    by (vm_compute; reflexivity).
  destruct (construct_fresh_id [Detector.DCreate user_stack 0] user_stack 7 H)
    as (H1 & _ & _ & _ & H5).
  split; [exact H|]. split; [exact H1|].
  change 2 with (S (Detector.promiseCounter
                      (Detector.druns Detector.new_detector [Detector.DCreate user_stack 0]))).
  rewrite H5. reflexivity.
Defined.

(* ---------------- CustomMetrics ---------------- *)

Lemma hist_inputs_app key ss1 ss2 :
  hist_inputs key (app ss1 ss2) = app (hist_inputs key ss1) (hist_inputs key ss2).
Proof. unfold hist_inputs. apply flat_map_app. Qed.

Lemma ring_1000_lastn (l : list Z) x :
  length l <= 1000 ->
  (if 1000 <? length (app l [x]) then tl (app l [x]) else app l [x])
  = Aux.lastn 1000 (app l [x]).
Proof.
  intros H. unfold Aux.lastn. rewrite length_app. simpl.
  destruct (1000 <? length l + 1) eqn:E.
  - apply Nat.ltb_lt in E. replace (length l + 1 - 1000) with 1 by lia.
    destruct (app l [x]); reflexivity.
  - apply Nat.ltb_ge in E. replace (length l + 1 - 1000) with 0 by lia. reflexivity.
Qed.

(** [recordHistogram] keeps the last 1000 values: with no [clear()] among
    the calls, the histogram of a key is absent when nothing was recorded
    under it, and otherwise holds the last 1000 values recorded under it
    (all of them when fewer), oldest first. *)
Theorem histogram_keeps_last_1000 ss key
    (Hnc : forallb (fun s => negb (is_clear s)) ss = true) :
  Metrics.histograms (Metrics.mrun Metrics.empty_metrics ss) !! key =
  match hist_inputs key ss with
  | [] => None
  | vs => Some (Aux.lastn 1000 vs)
  end.
Proof.
  induction ss as [|s ss IH] using rev_ind.
  - reflexivity.
  - rewrite forallb_app in Hnc. apply andb_prop in Hnc as [H1 H2].
    specialize (IH H1). rewrite mrun_snoc, hist_inputs_app.
    destruct s as [n v l| n v l| n v l|]; simpl in H2 |- *;
      try (rewrite app_nil_r; exact IH); [|discriminate].
    unfold Metrics.recordHistogram. simpl.
    destruct (String.eqb_spec (Metrics.getKey n l) key) as [E|E].
    + subst key. rewrite lookup_insert_eq, IH, app_nil_r.
      destruct (hist_inputs (Metrics.getKey n l) ss) as [|a I] eqn:Hi.
      * reflexivity.
      * cbn [app]. f_equal. change (a :: app I [v]) with (app (a :: I) [v]).
        rewrite <- (lastn_lastn_app 1000 (a :: I) [v]).
        apply ring_1000_lastn. rewrite length_lastn. lia.
    + rewrite lookup_insert_ne by (intros Heq; apply E; exact Heq).
      rewrite app_nil_r. exact IH.
Qed.

Lemma histogram_keeps_last_1000_witness :
  forallb (fun s => negb (is_clear s))
    [Metrics.MHist "h" 1 None; Metrics.MInc "c" None None; Metrics.MHist "h" 2 None] = true /\
  Metrics.histograms (Metrics.mrun Metrics.empty_metrics
    [Metrics.MHist "h" 1 None; Metrics.MInc "c" None None; Metrics.MHist "h" 2 None]) !! "h"%string
  = Some [1%Z; 2%Z].
Proof.
  assert (H : forallb (fun s => negb (is_clear s))
    [Metrics.MHist "h" 1 None; Metrics.MInc "c" None None; Metrics.MHist "h" 2 None] = true)
    by reflexivity.
  split; [exact H|].
  rewrite (histogram_keeps_last_1000 _ "h" H). reflexivity.
Defined.

(* ---------------- cleanStack ---------------- *)

Lemma split_lines_plain a cur :
  ~ In (Ascii.ascii_of_nat 10) (String.list_ascii_of_string a) ->
  Store.split_lines a cur = [cur ++ a].
Proof.
  revert cur. induction a as [|c a IH]; intros cur Hn.
  - simpl. rewrite string_app_nil_r. reflexivity.
  - simpl in Hn |- *.
    destruct (Ascii.eqb_spec c (Ascii.ascii_of_nat 10)) as [E|E];
      [exfalso; apply Hn; left; exact E|].
    rewrite IH by tauto. rewrite string_app_assoc. reflexivity.
Qed.

Lemma split_lines_no_nl s cur :
  ~ In (Ascii.ascii_of_nat 10) (String.list_ascii_of_string cur) ->
  Forall (fun l => ~ In (Ascii.ascii_of_nat 10) (String.list_ascii_of_string l))
    (Store.split_lines s cur).
Proof.
  revert cur. induction s as [|c s IH]; intros cur Hn; simpl.
  - constructor; [exact Hn | constructor].
  - destruct (Ascii.eqb_spec c (Ascii.ascii_of_nat 10)) as [E|E].
    + constructor; [exact Hn|]. apply IH. simpl. tauto.
    + apply IH. rewrite las_app, in_app_iff. simpl. intros [H|[H|[]]]; [exact (Hn H)|].
      apply E. exact H.
Qed.

Lemma split_join ls :
  ls <> [] ->
  Forall (fun l => ~ In (Ascii.ascii_of_nat 10) (String.list_ascii_of_string l)) ls ->
  Store.split_lines (Metrics.join nl ls) EmptyString = ls.
Proof.
  induction ls as [|a ls IH]; intros Hne Hf; [congruence|].
  apply Forall_cons_1 in Hf as [Ha Hf].
  destruct ls as [|b ls].
  - simpl Metrics.join. rewrite split_lines_plain by exact Ha. reflexivity.
  - change (Metrics.join nl (a :: b :: ls)) with (a ++ nl ++ Metrics.join nl (b :: ls)).
    rewrite split_lines_app by exact Ha. rewrite IH by (congruence || exact Hf).
    reflexivity.
Qed.

(** Splitting the output of [cleanStack] at newlines gives back exactly
    the first [keep] lines of the stack that mention none of the excluded
    words, in their order; when there is no such line the output is the
    empty string, whose split is [[""]]. So the output never has more than
    [keep] lines and none of them mentions an excluded word. *)
Theorem cleanStack_lines excluded keep stk :
  let kept := firstn keep
       (List.filter (fun line => negb (existsb (includes line) excluded))
          (Store.split_lines stk EmptyString)) in
  Store.split_lines (cleanStack excluded keep stk) EmptyString =
    match kept with [] => [EmptyString] | _ => kept end /\
  length kept <= keep /\
  Forall (fun line => existsb (includes line) excluded = false) kept.
Proof.
  intros kept.
  assert (Hf : Forall (fun l => ~ In (Ascii.ascii_of_nat 10) (String.list_ascii_of_string l)) kept).
  { apply List.Forall_forall. intros l Hl.
    apply in_firstn_in, filter_In in Hl as [Hl _].
    pose proof (split_lines_no_nl stk EmptyString (fun H => H)) as Hs.
    rewrite List.Forall_forall in Hs. exact (Hs l Hl). }
  split; [|split].
  - unfold cleanStack. fold kept. destruct kept as [|a r] eqn:Hk; [reflexivity|].
    rewrite <- Hk. apply split_join; [rewrite Hk; discriminate | rewrite Hk; exact Hf].
  - unfold kept. rewrite length_firstn. lia.
  - apply List.Forall_forall. intros l Hl.
    apply in_firstn_in, filter_In in Hl as [_ Hl]. destruct (existsb _ _); [discriminate|reflexivity].
Qed.

(* ---------------- findRelatedPromises / detectCircularWait ---------------- *)

Lemma traverse_prefix vals fuel : forall depth p st,
  exists suf, snd (Tracker.traverse vals fuel depth p st) = app (snd st) suf /\
    Forall (fun q => In q vals /\ Tracker.is_pending q = true) suf.
Proof.
  induction fuel as [|fuel IH]; intros depth p st.
  - exists []. rewrite app_nil_r. split; [reflexivity | constructor].
  - cbn [Tracker.traverse].
    destruct ((10 <? depth) || existsb (Nat.eqb (Tracker.asyncId p)) (fst st)).
    { exists []. rewrite app_nil_r. split; [reflexivity | constructor]. }
    assert (G : forall l st0, (forall q, In q l -> In q vals) ->
      exists suf, snd (fold_left
        (fun st other =>
           if (Tracker.triggerAsyncId other =? Tracker.asyncId p) && Tracker.is_pending other
           then Tracker.traverse vals fuel (S depth) other (fst st, app (snd st) [other])
           else st) l st0) = app (snd st0) suf /\
        Forall (fun q => In q vals /\ Tracker.is_pending q = true) suf).
    { induction l as [|a l IHl]; intros st0 Hl; simpl.
      - exists []. rewrite app_nil_r. split; [reflexivity | constructor].
      - destruct ((Tracker.triggerAsyncId a =? Tracker.asyncId p) && Tracker.is_pending a) eqn:Ea.
        + destruct (IH (S depth) a (fst st0, app (snd st0) [a])) as [s1 [E1 F1]].
          destruct (IHl (Tracker.traverse vals fuel (S depth) a (fst st0, app (snd st0) [a])))
            as [s2 [E2 F2]]; [intros q Hq; apply Hl; right; exact Hq|].
          exists (a :: app s1 s2). rewrite E2, E1. simpl. rewrite <- !app_assoc. split; [reflexivity|].
          constructor.
          * split; [apply Hl; left; reflexivity|]. apply andb_prop in Ea. tauto.
          * apply Forall_app. split; assumption.
        + apply IHl. intros q Hq. apply Hl. right. exact Hq. }
    exact (G vals (Tracker.asyncId p :: fst st, snd st) (fun q Hq => Hq)).
Qed.

Lemma related_fold_nochild vals p fuel depth l st :
  existsb (fun q => (Tracker.triggerAsyncId q =? Tracker.asyncId p) && Tracker.is_pending q) l
    = false ->
  fold_left
    (fun st other =>
       if (Tracker.triggerAsyncId other =? Tracker.asyncId p) && Tracker.is_pending other
       then Tracker.traverse vals fuel depth other (fst st, app (snd st) [other])
       else st) l st = st.
Proof.
  revert st. induction l as [|a l IH]; intros st H; simpl in H |- *; [reflexivity|].
  apply orb_false_iff in H as [Ha H]. rewrite Ha. apply IH, H.
Qed.

Lemma related_fold_first vals p fuel depth l v :
  existsb (fun q => (Tracker.triggerAsyncId q =? Tracker.asyncId p) && Tracker.is_pending q) l
    = true ->
  exists c suf,
    snd (fold_left
      (fun st other =>
         if (Tracker.triggerAsyncId other =? Tracker.asyncId p) && Tracker.is_pending other
         then Tracker.traverse vals fuel depth other (fst st, app (snd st) [other])
         else st) l (v, [])) = c :: suf /\
    Tracker.triggerAsyncId c = Tracker.asyncId p.
Proof.
  induction l as [|a l IH]; intros H; simpl in H |- *; [discriminate|].
  destruct ((Tracker.triggerAsyncId a =? Tracker.asyncId p) && Tracker.is_pending a) eqn:Ea.
  - set (F := fun st other =>
         if (Tracker.triggerAsyncId other =? Tracker.asyncId p) && Tracker.is_pending other
         then Tracker.traverse vals fuel depth other (fst st, app (snd st) [other])
         else st).
    assert (P : forall l' st0, exists suf, snd (fold_left F l' st0) = app (snd st0) suf).
    { induction l' as [|b l' IHl']; intros st0; cbn [fold_left];
        [exists []; rewrite app_nil_r; reflexivity|].
      destruct ((Tracker.triggerAsyncId b =? Tracker.asyncId p) && Tracker.is_pending b) eqn:Eb.
      - replace (F st0 b) with (Tracker.traverse vals fuel depth b (fst st0, app (snd st0) [b]))
          by (unfold F; rewrite Eb; reflexivity).
        destruct (traverse_prefix vals fuel depth b (fst st0, app (snd st0) [b])) as [s1 [E1 _]].
        destruct (IHl' (Tracker.traverse vals fuel depth b (fst st0, app (snd st0) [b])))
          as [s2 E2].
        exists (app [b] (app s1 s2)). rewrite E2, E1. simpl. rewrite <- !app_assoc. reflexivity.
      - replace (F st0 b) with st0 by (unfold F; rewrite Eb; reflexivity). apply IHl'. }
    destruct (traverse_prefix vals fuel depth a (v, [a])) as [s1 [E1 _]].
    destruct (P l (Tracker.traverse vals fuel depth a (v, [a]))) as [s2 E2].
    exists a, (app s1 s2). split.
    + fold F. cbn [fst snd app]. rewrite E2, E1. reflexivity.
    + apply andb_prop in Ea as [Ea _]. apply Nat.eqb_eq, Ea.
  - rewrite orb_false_l in H. apply IH, H.
Qed.

(** [findRelatedPromises] returns only pending entries of the map, and
    [detectCircularWait] on its result holds exactly when some pending
    entry of the map was triggered by the promise itself: the first
    related promise is such a child, and [hasCircle] walks from it back up
    to the promise. So for a pending entry, any pending child makes the
    wait count as circular. *)
Theorem detectCircularWait_iff_child m p
    (Hp : Tracker.nget m (Tracker.asyncId p) = Some p)
    (Hpend : Tracker.is_pending p = true) :
  Forall (fun q => In q (map snd m) /\ Tracker.is_pending q = true)
    (Tracker.findRelatedPromises m p) /\
  Tracker.detectCircularWait m p (Tracker.findRelatedPromises m p) =
    existsb (fun q => (Tracker.triggerAsyncId q =? Tracker.asyncId p) && Tracker.is_pending q)
      (map snd m).
Proof.
  split.
  { unfold Tracker.findRelatedPromises.
    destruct (traverse_prefix (map snd m) 11 0 p ([], [])) as [suf [E F]].
    rewrite E. exact F. }
  unfold Tracker.findRelatedPromises.
  change (Tracker.traverse (map snd m) 11 0 p ([], [])) with
    (fold_left
       (fun st other =>
          if (Tracker.triggerAsyncId other =? Tracker.asyncId p) && Tracker.is_pending other
          then Tracker.traverse (map snd m) 10 1 other (fst st, app (snd st) [other])
          else st) (map snd m) ([Tracker.asyncId p], [])).
  destruct (existsb (fun q => (Tracker.triggerAsyncId q =? Tracker.asyncId p) && Tracker.is_pending q)
              (map snd m)) eqn:Ex.
  - destruct (related_fold_first (map snd m) p 10 1 (map snd m) [Tracker.asyncId p] Ex)
      as [c [suf [Ec Hc]]].
    rewrite Ec. unfold Tracker.detectCircularWait.
    replace (length m + 2) with (S (S (length m))) by lia.
    cbn [Tracker.hasCircle length existsb].
    replace ((Tracker.asyncId c =? Tracker.asyncId p) && negb (0 =? 0)) with false
      by (rewrite andb_false_r; reflexivity).
    rewrite Hc, Hp, Hpend, Nat.eqb_refl. reflexivity.
  - rewrite (related_fold_nochild (map snd m) p 10 1 (map snd m) _ Ex). reflexivity.
Qed.

Lemma detectCircularWait_iff_child_witness :
  let p := mk_promise 1 0 in
  let m := [(1, p); (2, {| Tracker.asyncId := 2; Tracker.ptype := "PROMISE";
                           Tracker.triggerAsyncId := 1; Tracker.createdAt := 5%Z;
                           Tracker.pstack := user_stack; Tracker.status := Tracker.pending;
                           Tracker.pfile := None; Tracker.pline := None |})] in
  Tracker.nget m 1 = Some p /\ Tracker.is_pending p = true /\
  Tracker.detectCircularWait m p (Tracker.findRelatedPromises m p) = true.
Proof.
  intros p m.
  assert (H1 : Tracker.nget m (Tracker.asyncId p) = Some p) by reflexivity.
  assert (H2 : Tracker.is_pending p = true) by reflexivity.
  split; [exact H1|]. split; [exact H2|].
  rewrite (proj2 (detectCircularWait_iff_child m p H1 H2)). reflexivity.
Defined.

(* ---------------- UnawaitedPromiseDetector.getStats ---------------- *)

Lemma check_loop_all_awaited e thr now es :
  Forall (fun kv => Detector.isAwaited (snd kv) = true) es ->
  Detector.check_loop e thr now es = es.
Proof.
  induction es as [|[i c] es IH]; intros H; [reflexivity|].
  inversion H as [|? ? Hc Hes]; subst. simpl in Hc. simpl. rewrite Hc, IH by exact Hes.
  reflexivity.
Qed.

Lemma dstep_all_awaited d s :
  Forall (fun kv => Detector.isAwaited (snd kv) = true) (Detector.trackedPromises d) ->
  Forall (fun kv => Detector.isAwaited (snd kv) = true)
    (Detector.trackedPromises (Detector.dstep d s)).
Proof.
  rewrite !List.Forall_forall. intros H.
  destruct s as [stk now | i | now e | i |]; cbn [Detector.dstep].
  - rewrite construct_eq. destruct (Detector.parse stk) as [file line].
    destruct (StackParse.isGuardianInternal file); [exact H|].
    intros kv Hin. destruct (in_nset _ _ _ _ Hin) as [Hk| ->]; [exact (H _ Hk) | reflexivity].
  - unfold Detector.mark_awaited.
    destruct (Tracker.nget (Detector.trackedPromises d) i) as [c|]; [|exact H].
    intros kv Hin. destruct (in_nset _ _ _ _ Hin) as [Hk| ->]; [exact (H _ Hk) | reflexivity].
  - intros kv Hin. exact (H _ (check_loop_in _ _ _ _ _ Hin)).
  - intros kv Hin. exact (H _ (in_ndelete _ _ _ Hin)).
  - intros kv [].
Qed.

(** In every reachable state of the UnawaitedPromiseDetector, every
    tracked entry is marked awaited: the constructor marks its own entry
    through the wrapped [then], and no step clears the mark. So
    [getStats()] gives [unawaited = suspicious = 0], and
    [checkUnawaitedPromises()] reports nothing and leaves the detector as
    it is, whatever the event listeners do. *)
Theorem detector_never_reports ds now emit_ok :
  let d := Detector.druns Detector.new_detector ds in
  Forall (fun kv => Detector.isAwaited (snd kv) = true) (Detector.trackedPromises d) /\
  Detector.unawaited (Detector.getStats d now) = 0 /\
  Detector.suspicious (Detector.getStats d now) = 0 /\
  Detector.checkUnawaitedPromises emit_ok d now = d.
Proof.
  intros d.
  assert (Hall : Forall (fun kv => Detector.isAwaited (snd kv) = true) (Detector.trackedPromises d)).
  { unfold d, Detector.druns.
    assert (G : forall d0, Forall (fun kv => Detector.isAwaited (snd kv) = true)
                             (Detector.trackedPromises d0) ->
                Forall (fun kv => Detector.isAwaited (snd kv) = true)
                  (Detector.trackedPromises (fold_left Detector.dstep ds d0))).
    { induction ds as [|s ds IH]; intros d0 H0; [exact H0|].
      apply IH, dstep_all_awaited, H0. }
    apply G. constructor. }
  clearbody d. split; [exact Hall|].
  assert (Hm : Forall (fun p => Detector.isAwaited p = true) (map snd (Detector.trackedPromises d)))
    by (apply Forall_map; exact Hall).
  unfold Detector.getStats. cbn [Detector.unawaited Detector.suspicious].
  split; [|split].
  - induction Hm as [|p l Hp _ IH]; [reflexivity|]. simpl. rewrite Hp. exact IH.
  - induction Hm as [|p l Hp _ IH]; [reflexivity|]. simpl. rewrite Hp. exact IH.
  - unfold Detector.checkUnawaitedPromises, Detector.with_tracked.
    rewrite check_loop_all_awaited by exact Hall. destruct d; reflexivity.
Qed.

(* ---------------- parseKey / getKey ---------------- *)

